(** * The affected-files builder of [src/compiler/builder.ts]

    A shallow embedding of the builder program state, its constructor
    ([createBuilderProgramState]), the affected-file iterator
    ([getNextAffectedFile] / [doneWithAffectedFile]), the per-file cache of
    semantic diagnostics and the two builder facades, followed by the
    properties of the specification that concern them.

    JavaScript objects that the code only reads are records; [Map]s whose
    iteration order the code observes ([changedFilesSet], [fileInfos]) are
    lists in insertion order; the other [Map]s are [gmap]s and [gset]s.
    A [Debug.assert] that fails and a property access on [undefined] are
    exceptions, modelled by [Throw]. *)

From stdpp Require Import gmap strings list fin_maps.

Abbreviation Path := string (only parsing).
Abbreviation Diagnostic := string (only parsing).

(** ** Data model *)

(** A [SourceFile] object: the code compares source files by object identity
    ([!==]) and keys its maps by [sourceFile.path]. *)
Record SourceFile := mkSourceFile {
  sourceFileId : nat;
  path : Path;
  sourceVersion : string
}.

#[global] Instance SourceFile_eq_dec : EqDecision SourceFile.
Proof. solve_decision. Defined.

(** The two compiler options the builder reads. *)
Record CompilerOptions := mkCompilerOptions {
  outFile : option string;
  out : option string
}.

#[global] Instance CompilerOptions_eq_dec : EqDecision CompilerOptions.
Proof. solve_decision. Defined.

Record Program := mkProgram {
  programId : nat;
  getCompilerOptions : CompilerOptions;
  getSourceFiles : list SourceFile
}.

#[global] Instance Program_eq_dec : EqDecision Program.
Proof. solve_decision. Defined.

(** [BuilderState.FileInfo] *)
Record FileInfo := mkFileInfo {
  version : string;
  signature : option string
}.

#[global] Instance FileInfo_eq_dec : EqDecision FileInfo.
Proof. solve_decision. Defined.

(** [BuilderState.ReferencedSet] is a [Map<true>] of which only the keys are
    read. *)
Abbreviation ReferencedSet := (gset string) (only parsing).

(** The part of the state that belongs to the [BuilderState] layer. *)
Record BuilderState := mkBuilderState {
  bs_fileInfos : list (Path * FileInfo);
  bs_referencedMap : option (gmap Path ReferencedSet)
}.

(** [interface BuilderProgramState extends BuilderState] (lines 8-42).
    [affectedFilesIndex] is [number | undefined]; [None] stands for
    [undefined] and for the [NaN] that [undefined++] produces: the code only
    compares the index, increments it and indexes with it, and both values
    behave alike under these three operations. *)
Record BuilderProgramState := mkState {
  fileInfos : list (Path * FileInfo);
  referencedMap : option (gmap Path ReferencedSet);
  semanticDiagnosticsPerFile : option (gmap Path (list Diagnostic));
  changedFilesSet : list Path;
  affectedFiles : option (list SourceFile);
  affectedFilesIndex : option nat;
  currentChangedFilePath : option Path;
  currentAffectedFilesSignatures : option (gmap Path string);
  seenAffectedFiles : option (gset Path);
  program : Program
}.

Definition toBuilderState (s : BuilderProgramState) : BuilderState :=
  mkBuilderState (fileInfos s) (referencedMap s).

(** Field updates, one per assignment form of the source. *)
Definition set_fileInfos (v : list (Path * FileInfo)) (s : BuilderProgramState) :=
  mkState v (referencedMap s) (semanticDiagnosticsPerFile s) (changedFilesSet s)
    (affectedFiles s) (affectedFilesIndex s) (currentChangedFilePath s)
    (currentAffectedFilesSignatures s) (seenAffectedFiles s) (program s).

Definition set_semanticDiagnosticsPerFile (v : option (gmap Path (list Diagnostic)))
    (s : BuilderProgramState) :=
  mkState (fileInfos s) (referencedMap s) v (changedFilesSet s)
    (affectedFiles s) (affectedFilesIndex s) (currentChangedFilePath s)
    (currentAffectedFilesSignatures s) (seenAffectedFiles s) (program s).

Definition set_changedFilesSet (v : list Path) (s : BuilderProgramState) :=
  mkState (fileInfos s) (referencedMap s) (semanticDiagnosticsPerFile s) v
    (affectedFiles s) (affectedFilesIndex s) (currentChangedFilePath s)
    (currentAffectedFilesSignatures s) (seenAffectedFiles s) (program s).

Definition set_affectedFiles (v : option (list SourceFile)) (s : BuilderProgramState) :=
  mkState (fileInfos s) (referencedMap s) (semanticDiagnosticsPerFile s) (changedFilesSet s)
    v (affectedFilesIndex s) (currentChangedFilePath s)
    (currentAffectedFilesSignatures s) (seenAffectedFiles s) (program s).

Definition set_affectedFilesIndex (v : option nat) (s : BuilderProgramState) :=
  mkState (fileInfos s) (referencedMap s) (semanticDiagnosticsPerFile s) (changedFilesSet s)
    (affectedFiles s) v (currentChangedFilePath s)
    (currentAffectedFilesSignatures s) (seenAffectedFiles s) (program s).

Definition set_currentChangedFilePath (v : option Path) (s : BuilderProgramState) :=
  mkState (fileInfos s) (referencedMap s) (semanticDiagnosticsPerFile s) (changedFilesSet s)
    (affectedFiles s) (affectedFilesIndex s) v
    (currentAffectedFilesSignatures s) (seenAffectedFiles s) (program s).

Definition set_currentAffectedFilesSignatures (v : option (gmap Path string))
    (s : BuilderProgramState) :=
  mkState (fileInfos s) (referencedMap s) (semanticDiagnosticsPerFile s) (changedFilesSet s)
    (affectedFiles s) (affectedFilesIndex s) (currentChangedFilePath s)
    v (seenAffectedFiles s) (program s).

Definition set_seenAffectedFiles (v : option (gset Path)) (s : BuilderProgramState) :=
  mkState (fileInfos s) (referencedMap s) (semanticDiagnosticsPerFile s) (changedFilesSet s)
    (affectedFiles s) (affectedFilesIndex s) (currentChangedFilePath s)
    (currentAffectedFilesSignatures s) v (program s).

(** ** Exceptions *)

Inductive Exn :=
  | TypeError
  | AssertionFailure (message : option string).

Inductive Completion (A : Type) :=
  | Normal (a : A)
  | Throw (e : Exn).
Arguments Normal {A} a.
Arguments Throw {A} e.

#[global] Instance Completion_bind : MBind Completion :=
  fun A B k c =>
    match c with
    | Normal a => k a
    | Throw e => Throw e
    end.

(** [Debug.assert(cond, message)] *)
Definition Debug_assert (cond : bool) (message : option string) : Completion unit :=
  if cond then Normal tt else Throw (AssertionFailure message).

(** ** JavaScript helpers *)

(** Truthiness of a [string | undefined] value: [undefined] and the empty
    string are falsy. *)
Definition truthy (v : option string) : bool :=
  match v with
  | Some (String _ _) => true
  | _ => false
  end.

(** [compilerOptions.outFile || compilerOptions.out] *)
Definition bundledOutput (o : CompilerOptions) : bool :=
  truthy (outFile o) || truthy (out o).

(** [Map.prototype.set] on a [Map<true>] kept as its keys in insertion
    order: a key already present keeps its place. *)
Definition mapSet (k : Path) (m : list Path) : list Path :=
  if decide (k ∈ m) then m else m ++ [k].

(** [Map.prototype.delete]; deleting the key [undefined] removes nothing. *)
Definition mapDelete (k : option Path) (m : list Path) : list Path :=
  match k with
  | Some p => filter (fun q => q ≠ p) m
  | None => m
  end.

(** [Map.prototype.get] on [fileInfos]. *)
Fixpoint mapGet {V} (k : Path) (m : list (Path * V)) : option V :=
  match m with
  | [] => None
  | (k', v) :: rest => if decide (k' = k) then Some v else mapGet k rest
  end.

Definition mapHas {V} (k : Path) (m : list (Path * V)) : bool :=
  bool_decide (is_Some (mapGet k m)).

(** [forEachKey(map, callback)] as a boolean: some key makes the callback
    truthy. *)
Definition forEachKey (keys : list Path) (callback : Path -> bool) : bool :=
  existsb callback keys.

(** ** The layers the builder relies on

    [builderState.ts] and the compiler's program are not part of this file of
    the source; their operations are the methods of two interfaces. The
    cancellation token, the hash function and the canonical-file-name function
    are only handed through to them. *)
Class BuilderStateLayer := {
  (** [BuilderState.create(newProgram, getCanonicalFileName, oldState)] *)
  BuilderState_create : Program -> bool -> option BuilderState -> BuilderState;
  (** [BuilderState.canReuseOldState(newReferencedMap, oldState)] *)
  BuilderState_canReuseOldState :
    option (gmap Path ReferencedSet) -> option BuilderState -> bool;
  (** [BuilderState.getFilesAffectedBy(state, program, path, token, computeHash,
      cacheToUpdateSignature)]: the affected files and the signature cache
      after the call. *)
  BuilderState_getFilesAffectedBy :
    BuilderState -> Program -> Path -> gmap Path string ->
    list SourceFile * gmap Path string;
  (** [BuilderState.updateSignaturesFromCache(state, signatures)] *)
  BuilderState_updateSignaturesFromCache :
    list (Path * FileInfo) -> gmap Path string -> list (Path * FileInfo)
}.

Record EmitResult := mkEmitResult {
  emitSkipped : option bool;
  diagnostics : list Diagnostic;
  emittedFiles : list string;
  sourceMaps : list string
}.

Class ProgramLayer := {
  (** [program.getSemanticDiagnostics(sourceFile, cancellationToken)] *)
  Program_getSemanticDiagnostics : Program -> option SourceFile -> list Diagnostic;
  (** [program.emit(targetSourceFile, writeFile, ...)] *)
  Program_emit : Program -> option SourceFile -> EmitResult
}.

(** What [getNextAffectedFile] returns besides [undefined]: a source file or
    [state.program]. *)
Inductive Affected :=
  | AffectedFile (f : SourceFile)
  | AffectedProgram.

#[global] Instance Affected_eq_dec : EqDecision Affected.
Proof. solve_decision. Defined.

(** ** hasSameKeys (lines 44-53) *)
Definition hasSameKeys (map1 map2 : option ReferencedSet) : bool :=
  match map1 with
  | None => bool_decide (map2 = None)
  | Some m1 =>
      match map2 with
      | None => false
      | Some m2 =>
          bool_decide (size m1 = size m2)
          && negb (forEachKey (elements m1) (fun key => negb (bool_decide (key ∈ m2))))
      end
  end.

Section Builder.
Context `{BSL : BuilderStateLayer} `{PL : ProgramLayer}.

(** ** getNextAffectedFile (lines 126-176) *)

(** The inner [while] (lines 132-142), on the files from the cursor on:
    the local index and the seen set when the loop is left, and the unseen
    file if one was found. *)
Fixpoint scanAffectedFiles (files : list SourceFile) (affectedFilesIndex : nat)
    (seen : gset Path) : nat * gset Path * option SourceFile :=
  match files with
  | [] => (affectedFilesIndex, seen, None)
  | affectedFile :: rest =>
      if decide (path affectedFile ∈ seen)
      then scanAffectedFiles rest (S affectedFilesIndex) ({[path affectedFile]} ∪ seen)
      else (affectedFilesIndex, seen, Some affectedFile)
  end.

(** The files the inner loop still looks at: none when the index is
    [undefined] or past the end. *)
Definition filesFromCursor (s : BuilderProgramState) (files : list SourceFile)
    : list SourceFile :=
  match affectedFilesIndex s with
  | Some i => drop i files
  | None => []
  end.

(** Lines 144-150: the batch is exhausted. *)
Definition commitBatch (s : BuilderProgramState) : Completion BuilderProgramState :=
  let s := set_changedFilesSet (mapDelete (currentChangedFilePath s) (changedFilesSet s)) s in
  let s := set_currentChangedFilePath None s in
  match currentAffectedFilesSignatures s with
  | None => Throw TypeError
  | Some signatures =>
      let s := set_fileInfos
                 (BuilderState_updateSignaturesFromCache (fileInfos s) signatures) s in
      let s := set_currentAffectedFilesSignatures (Some ∅) s in
      Normal (set_affectedFiles None s)
  end.

(** One turn of the outer [while (true)]. *)
Inductive LoopStep :=
  | Return (result : option Affected) (s : BuilderProgramState)
  | Continue (s : BuilderProgramState)
  | Raise (e : Exn).

(** Lines 153-174: take the next changed file. *)
Definition nextChangedFile (s : BuilderProgramState) : LoopStep :=
  match changedFilesSet s with
  | [] => Return None s
  | nextKey :: _ =>
      if bundledOutput (getCompilerOptions (program s)) then
        match semanticDiagnosticsPerFile s with
        | Some _ => Raise (AssertionFailure None)
        | None => Return (Some AffectedProgram) s
        end
      else
        let s := set_currentAffectedFilesSignatures
                   (Some (default ∅ (currentAffectedFilesSignatures s))) s in
        let '(files, signatures) :=
          BuilderState_getFilesAffectedBy (toBuilderState s) (program s) nextKey
            (default ∅ (currentAffectedFilesSignatures s)) in
        let s := set_currentAffectedFilesSignatures (Some signatures) s in
        let s := set_affectedFiles (Some files) s in
        let s := set_currentChangedFilePath (Some nextKey) s in
        match semanticDiagnosticsPerFile s with
        | None => Raise TypeError
        | Some cache =>
            let s := set_semanticDiagnosticsPerFile (Some (delete nextKey cache)) s in
            let s := set_affectedFilesIndex (Some 0) s in
            Continue (set_seenAffectedFiles (Some (default ∅ (seenAffectedFiles s))) s)
        end
  end.

(** Lines 128-151 followed by [nextChangedFile]. *)
Definition getNextAffectedFile_body (s : BuilderProgramState) : LoopStep :=
  match affectedFiles s with
  | Some files =>
      match filesFromCursor s files with
      | [] =>
          match commitBatch s with
          | Normal s => nextChangedFile s
          | Throw e => Raise e
          end
      | remaining =>
          match seenAffectedFiles s with
          | None => Raise TypeError
          | Some seen =>
              let '(index, seen, found) :=
                scanAffectedFiles remaining (default 0 (affectedFilesIndex s)) seen in
              let s := set_seenAffectedFiles (Some seen) s in
              match found with
              | Some affectedFile =>
                  let s := set_affectedFilesIndex (Some index) s in
                  match semanticDiagnosticsPerFile s with
                  | None => Raise TypeError
                  | Some cache =>
                      Return (Some (AffectedFile affectedFile))
                        (set_semanticDiagnosticsPerFile
                           (Some (delete (path affectedFile) cache)) s)
                  end
              | None =>
                  match commitBatch s with
                  | Normal s => nextChangedFile s
                  | Throw e => Raise e
                  end
              end
          end
      end
  | None => nextChangedFile s
  end.

(** The outer loop, [fuel] turns of it; [None] when the fuel runs out. *)
Fixpoint getNextAffectedFile_loop (fuel : nat) (s : BuilderProgramState)
    : option (Completion (option Affected * BuilderProgramState)) :=
  match fuel with
  | 0 => None
  | S fuel =>
      match getNextAffectedFile_body s with
      | Return result s => Some (Normal (result, s))
      | Raise e => Some (Throw e)
      | Continue s => getNextAffectedFile_loop fuel s
      end
  end.

(** Every turn but the first removes a changed file, so one turn more than
    there are changed files is enough ([getNextAffectedFile_total]). *)
Definition getNextAffectedFile (s : BuilderProgramState)
    : option (Completion (option Affected * BuilderProgramState)) :=
  getNextAffectedFile_loop (S (length (changedFilesSet s))) s.

(** ** doneWithAffectedFile (lines 182-190) *)
Definition doneWithAffectedFile (s : BuilderProgramState) (affected : Affected)
    : Completion BuilderProgramState :=
  match affected with
  | AffectedProgram => Normal (set_changedFilesSet [] s)
  | AffectedFile f =>
      match seenAffectedFiles s with
      | None => Throw TypeError
      | Some seen =>
          let s := set_seenAffectedFiles (Some ({[path f]} ∪ seen)) s in
          Normal (set_affectedFilesIndex (S <$> affectedFilesIndex s) s)
      end
  end.

(** [toAffectedFileResult] (lines 195-198) *)
Definition toAffectedFileResult {T} (s : BuilderProgramState) (result : T)
    (affected : Affected) : Completion (T * Affected * BuilderProgramState) :=
  s ← doneWithAffectedFile s affected;
  Normal (result, affected, s).

(** ** assertSourceFileOkWithoutNextAffectedCall (lines 116-118) *)

(** [state.affectedFiles[state.affectedFilesIndex - 1]]: [undefined] when the
    index is [undefined], [0] or past the end. *)
Definition fileBeforeCursor (s : BuilderProgramState) (files : list SourceFile)
    : option SourceFile :=
  match affectedFilesIndex s with
  | Some (S i) => files !! i
  | _ => None
  end.

Definition assertSourceFileOkWithoutNextAffectedCall (s : BuilderProgramState)
    (sourceFile : option SourceFile) : Completion unit :=
  match sourceFile with
  | None => Normal tt
  | Some f =>
      match affectedFiles s with
      | None => Normal tt
      | Some files =>
          if bool_decide (fileBeforeCursor s files ≠ Some f) then Normal tt
          else
            match semanticDiagnosticsPerFile s with
            | None => Throw TypeError
            | Some cache => Debug_assert (negb (bool_decide (is_Some (cache !! path f)))) None
            end
      end
  end.

(** ** getSemanticDiagnosticsOfFile (lines 204-216) *)
Definition getSemanticDiagnosticsOfFile (s : BuilderProgramState) (sourceFile : SourceFile)
    : Completion (list Diagnostic * BuilderProgramState) :=
  match semanticDiagnosticsPerFile s with
  | None => Throw TypeError
  | Some cache =>
      match cache !! path sourceFile with
      | Some cachedDiagnostics => Normal (cachedDiagnostics, s)
      | None =>
          let diagnostics := Program_getSemanticDiagnostics (program s) (Some sourceFile) in
          Normal (diagnostics,
                  set_semanticDiagnosticsPerFile
                    (Some (<[path sourceFile := diagnostics]> cache)) s)
      end
  end.

(** ** createBuilderProgramState (lines 58-111) *)

(** [copyEntries(source, target)] *)
Definition copyEntries (source target : list Path) : list Path :=
  foldl (fun target key => mapSet key target) target source.

(** [referencedMap && referencedMap.get(path)] *)
Definition referencesOf (referencedMap : option (gmap Path ReferencedSet)) (p : Path)
    : option ReferencedSet :=
  match referencedMap with
  | Some m => m !! p
  | None => None
  end.

(** [oldState.semanticDiagnosticsPerFile.get(path)] where line 103 reads it. *)
Definition cachedDiagnosticsOf (oldState : option BuilderProgramState) (p : Path)
    : option (list Diagnostic) :=
  match oldState with
  | Some oldState =>
      match semanticDiagnosticsPerFile oldState with
      | Some cache => cache !! p
      | None => None
      end
  | None => None
  end.

(** The condition of lines 89-97 for one entry of the new [fileInfos];
    [oldState] is [None] when the old state is not used. *)
Definition isChangedFile (oldState : option BuilderProgramState)
    (newFileInfos : list (Path * FileInfo))
    (newReferencedMap : option (gmap Path ReferencedSet))
    (sourceFilePath : Path) (info : FileInfo) : bool :=
  match oldState with
  | None => true
  | Some oldState =>
      match mapGet sourceFilePath (fileInfos oldState) with
      | None => true
      | Some oldInfo =>
          let newReferences := referencesOf newReferencedMap sourceFilePath in
          negb (bool_decide (version oldInfo = version info))
          || negb (hasSameKeys newReferences
                     (referencesOf (referencedMap oldState) sourceFilePath))
          || match newReferences with
             | None => false
             | Some references =>
                 forEachKey (elements references)
                   (fun path => negb (mapHas path newFileInfos)
                                && mapHas path (fileInfos oldState))
             end
      end
  end.

(** The callback of [state.fileInfos.forEach] (lines 84-108) on the changed
    set and the diagnostics cache under construction. *)
Definition updateChangedFile (oldState : option BuilderProgramState)
    (canCopySemanticDiagnostics : bool)
    (newFileInfos : list (Path * FileInfo))
    (newReferencedMap : option (gmap Path ReferencedSet))
    (acc : list Path * option (gmap Path (list Diagnostic)))
    (entry : Path * FileInfo)
    : list Path * option (gmap Path (list Diagnostic)) :=
  let '(sourceFilePath, info) := entry in
  if isChangedFile oldState newFileInfos newReferencedMap sourceFilePath info
  then (mapSet sourceFilePath acc.1, acc.2)
  else if canCopySemanticDiagnostics then
    match cachedDiagnosticsOf oldState sourceFilePath with
    | Some diagnostics => (acc.1, (fun m => <[sourceFilePath := diagnostics]> m) <$> acc.2)
    | None => acc
    end
  else acc.

(** The sanity checks of an old state that is reused (lines 69-75). *)
Definition verifyOldState (oldState : BuilderProgramState)
    (canCopySemanticDiagnostics : bool) : Completion unit :=
  _ ← (if negb (truthy (currentChangedFilePath oldState)) then
         Debug_assert
           (negb (bool_decide (is_Some (affectedFiles oldState)))
            && match currentAffectedFilesSignatures oldState with
               | None => true
               | Some signatures => bool_decide (size signatures = 0)
               end)
           (Some "Cannot reuse if only few affected files of currentChangedFile were iterated")
       else Normal tt);
  if canCopySemanticDiagnostics then
    Debug_assert
      (negb (forEachKey (changedFilesSet oldState)
               (fun path =>
                  match semanticDiagnosticsPerFile oldState with
                  | Some cache => bool_decide (is_Some (cache !! path))
                  | None => false
                  end)))
      (Some "Semantic diagnostics shouldnt be available for changed files")
  else Normal tt.

Definition createBuilderProgramState (newProgram : Program) (caseSensitive : bool)
    (oldState : option BuilderProgramState) : Completion BuilderProgramState :=
  let state := BuilderState_create newProgram caseSensitive (toBuilderState <$> oldState) in
  let compilerOptions := getCompilerOptions newProgram in
  let cache : option (gmap Path (list Diagnostic)) :=
    if negb (truthy (outFile compilerOptions)) && negb (truthy (out compilerOptions))
    then Some ∅ else None in
  let useOldState :=
    BuilderState_canReuseOldState (bs_referencedMap state) (toBuilderState <$> oldState) in
  usedOldState ←
    (if useOldState then
       match oldState with
       | None => Throw TypeError
       | Some oldState => Normal (Some oldState)
       end
     else Normal None);
  let canCopySemanticDiagnostics :=
    match usedOldState with
    | Some oldState =>
        bool_decide (is_Some (semanticDiagnosticsPerFile oldState))
        && bool_decide (is_Some cache)
    | None => false
    end in
  changed ←
    match usedOldState with
    | Some oldState =>
        _ ← verifyOldState oldState canCopySemanticDiagnostics;
        Normal (copyEntries (changedFilesSet oldState) [])
    | None => Normal []
    end;
  let '(changed, cache) :=
    foldl (updateChangedFile usedOldState canCopySemanticDiagnostics
             (bs_fileInfos state) (bs_referencedMap state))
          (changed, cache) (bs_fileInfos state) in
  Normal (mkState (bs_fileInfos state) (bs_referencedMap state) cache changed
            None None None None None newProgram).

(** ** The facade (lines 225-406)

    The closures of [createBuilderProgram] share the captured [state] and
    [kind]; here they take the state and return it. A loop whose number of
    turns depends on the affected files takes fuel. *)
Inductive BuilderProgramKind :=
  | SemanticDiagnosticsBuilderProgram
  | EmitAndSemanticDiagnosticsBuilderProgram.

(** Sequencing of calls that may run out of fuel and may throw. *)
Definition andThen {A B} (c : option (Completion A)) (k : A -> option (Completion B))
    : option (Completion B) :=
  match c with
  | None => None
  | Some (Throw e) => Some (Throw e)
  | Some (Normal a) => k a
  end.

(** [emitNextAffectedFile] (lines 280-294) *)
Definition emitNextAffectedFile (s : BuilderProgramState)
    : option (Completion (option (EmitResult * Affected) * BuilderProgramState)) :=
  andThen (getNextAffectedFile s) (fun '(affected, s) =>
    match affected with
    | None => Some (Normal (None, s))
    | Some affected =>
        let result :=
          Program_emit (program s)
            (match affected with
             | AffectedProgram => None
             | AffectedFile f => Some f
             end) in
        Some ('(result, affected, s) ← toAffectedFileResult s result affected;
              Normal (Some (result, affected), s))
    end).

(** [a || b] on [boolean | undefined] *)
Definition orElse (a b : option bool) : option bool :=
  match a with
  | Some true => a
  | _ => b
  end.

(** The [while] of [emit] (lines 317-323). *)
Fixpoint emitAffectedFiles (fuel : nat) (s : BuilderProgramState) (acc : EmitResult)
    : option (Completion (EmitResult * BuilderProgramState)) :=
  match fuel with
  | 0 => None
  | S fuel =>
      andThen (emitNextAffectedFile s) (fun '(affectedEmitResult, s) =>
        match affectedEmitResult with
        | None => Some (Normal (acc, s))
        | Some (result, _) =>
            emitAffectedFiles fuel s
              (mkEmitResult (orElse (emitSkipped acc) (emitSkipped result))
                 (diagnostics acc ++ diagnostics result)
                 (emittedFiles acc ++ emittedFiles result)
                 (sourceMaps acc ++ sourceMaps result))
        end)
  end.

(** [emit] (lines 307-333) *)
Definition emit (kind : BuilderProgramKind) (fuel : nat) (s : BuilderProgramState)
    (targetSourceFile : option SourceFile)
    : option (Completion (EmitResult * BuilderProgramState)) :=
  match kind with
  | EmitAndSemanticDiagnosticsBuilderProgram =>
      andThen (Some (assertSourceFileOkWithoutNextAffectedCall s targetSourceFile)) (fun _ =>
        match targetSourceFile with
        | None => emitAffectedFiles fuel s (mkEmitResult None [] [] [])
        | Some _ => Some (Normal (Program_emit (program s) targetSourceFile, s))
        end)
  | SemanticDiagnosticsBuilderProgram =>
      Some (Normal (Program_emit (program s) targetSourceFile, s))
  end.

(** [getSemanticDiagnosticsOfNextAffectedFile] (lines 339-368) *)
Fixpoint getSemanticDiagnosticsOfNextAffectedFile (fuel : nat) (s : BuilderProgramState)
    (ignoreSourceFile : option (SourceFile -> bool))
    : option (Completion (option (list Diagnostic * Affected) * BuilderProgramState)) :=
  match fuel with
  | 0 => None
  | S fuel =>
      andThen (getNextAffectedFile s) (fun '(affected, s) =>
        match affected with
        | None => Some (Normal (None, s))
        | Some AffectedProgram =>
            Some ('(result, affected, s) ←
                    toAffectedFileResult s
                      (Program_getSemanticDiagnostics (program s) None) AffectedProgram;
                  Normal (Some (result, affected), s))
        | Some (AffectedFile f) =>
            if match ignoreSourceFile with
               | Some ignore => ignore f
               | None => false
               end
            then
              andThen (Some (doneWithAffectedFile s (AffectedFile f))) (fun s =>
                getSemanticDiagnosticsOfNextAffectedFile fuel s ignoreSourceFile)
            else
              Some ('(result, s) ← getSemanticDiagnosticsOfFile s f;
                    '(result, affected, s) ← toAffectedFileResult s result (AffectedFile f);
                    Normal (Some (result, affected), s))
        end)
  end.

(** The [while] of [getSemanticDiagnostics] (lines 394-397): every affected
    file is taken and committed. *)
Fixpoint handleAffectedFiles (fuel : nat) (s : BuilderProgramState)
    : option (Completion BuilderProgramState) :=
  match fuel with
  | 0 => None
  | S fuel =>
      andThen (getNextAffectedFile s) (fun '(affected, s) =>
        match affected with
        | None => Some (Normal s)
        | Some affected =>
            andThen (Some (doneWithAffectedFile s affected)) (handleAffectedFiles fuel)
        end)
  end.

(** The [for] of [getSemanticDiagnostics] (lines 400-403). *)
Fixpoint diagnosticsOfSourceFiles (files : list SourceFile) (s : BuilderProgramState)
    (acc : list Diagnostic) : Completion (list Diagnostic * BuilderProgramState) :=
  match files with
  | [] => Normal (acc, s)
  | sourceFile :: files =>
      '(d, s) ← getSemanticDiagnosticsOfFile s sourceFile;
      diagnosticsOfSourceFiles files s (acc ++ d)
  end.

(** [getSemanticDiagnostics] (lines 378-405) *)
Definition getSemanticDiagnostics (kind : BuilderProgramKind) (fuel : nat)
    (s : BuilderProgramState) (sourceFile : option SourceFile)
    : option (Completion (list Diagnostic * BuilderProgramState)) :=
  andThen (Some (assertSourceFileOkWithoutNextAffectedCall s sourceFile)) (fun _ =>
    if bundledOutput (getCompilerOptions (program s)) then
      Some (_ ← Debug_assert (negb (bool_decide (is_Some (semanticDiagnosticsPerFile s)))) None;
            Normal (Program_getSemanticDiagnostics (program s) sourceFile, s))
    else
      match sourceFile with
      | Some f => Some (getSemanticDiagnosticsOfFile s f)
      | None =>
          andThen
            (match kind with
             | SemanticDiagnosticsBuilderProgram => handleAffectedFiles fuel s
             | EmitAndSemanticDiagnosticsBuilderProgram => Some (Normal s)
             end)
            (fun s => Some (diagnosticsOfSourceFiles (getSourceFiles (program s)) s []))
      end).

(** ** createBuilderProgram (lines 225-273)

    Builder programs are objects: a store maps the reference of each one to
    its kind and its state, and [createBuilderProgram] returns a reference. *)
Record BuilderProgramHost := mkHost {
  useCaseSensitiveFileNames : bool
}.

Record BaseBuilderProgram := mkBuilderProgram {
  builderKind : BuilderProgramKind;
  getState : BuilderProgramState
}.

Definition createBuilderProgram (store : gmap nat BaseBuilderProgram)
    (newProgram : Program) (host : BuilderProgramHost) (oldProgram : option nat)
    (kind : BuilderProgramKind) : Completion (nat * gmap nat BaseBuilderProgram) :=
  oldState ←
    match oldProgram with
    | None => Normal None
    | Some reference =>
        match store !! reference with
        | Some builder => Normal (Some (getState builder))
        | None => Throw TypeError
        end
    end;
  match oldProgram, oldState with
  | Some reference, Some old =>
      if decide (newProgram = program old) then Normal (reference, store)
      else
        state ← createBuilderProgramState newProgram (useCaseSensitiveFileNames host)
                  oldState;
        let result := fresh (dom store) in
        Normal (result, <[result := mkBuilderProgram kind state]> store)
  | _, _ =>
      state ← createBuilderProgramState newProgram (useCaseSensitiveFileNames host)
                oldState;
      let result := fresh (dom store) in
      Normal (result, <[result := mkBuilderProgram kind state]> store)
  end.

(** ** The variant of [getNextAffectedFile] that writes the cursor back

    The specification's form of the inner loop: the state's
    [affectedFilesIndex] itself is advanced past the seen files, so it is
    also written when the batch is exhausted. The rest is the source's. *)
Definition getNextAffectedFile_writeBack_body (s : BuilderProgramState) : LoopStep :=
  match affectedFiles s with
  | Some files =>
      match filesFromCursor s files with
      | [] =>
          match commitBatch s with
          | Normal s => nextChangedFile s
          | Throw e => Raise e
          end
      | remaining =>
          match seenAffectedFiles s with
          | None => Raise TypeError
          | Some seen =>
              let '(index, seen, found) :=
                scanAffectedFiles remaining (default 0 (affectedFilesIndex s)) seen in
              let s := set_seenAffectedFiles (Some seen) s in
              let s := set_affectedFilesIndex (Some index) s in
              match found with
              | Some affectedFile =>
                  match semanticDiagnosticsPerFile s with
                  | None => Raise TypeError
                  | Some cache =>
                      Return (Some (AffectedFile affectedFile))
                        (set_semanticDiagnosticsPerFile
                           (Some (delete (path affectedFile) cache)) s)
                  end
              | None =>
                  match commitBatch s with
                  | Normal s => nextChangedFile s
                  | Throw e => Raise e
                  end
              end
          end
      end
  | None => nextChangedFile s
  end.

Fixpoint getNextAffectedFile_writeBack_loop (fuel : nat) (s : BuilderProgramState)
    : option (Completion (option Affected * BuilderProgramState)) :=
  match fuel with
  | 0 => None
  | S fuel =>
      match getNextAffectedFile_writeBack_body s with
      | Return result s => Some (Normal (result, s))
      | Raise e => Some (Throw e)
      | Continue s => getNextAffectedFile_writeBack_loop fuel s
      end
  end.

Definition getNextAffectedFile_writeBack (s : BuilderProgramState)
    : option (Completion (option Affected * BuilderProgramState)) :=
  getNextAffectedFile_writeBack_loop (S (length (changedFilesSet s))) s.

(** Two states are observably equal when they agree on every field, the
    cursor excepted while no batch is in progress: no function of the source
    reads [affectedFilesIndex] unless [affectedFiles] is set, apart from the
    increment of [doneWithAffectedFile]. *)
Definition observablyEqual (s1 s2 : BuilderProgramState) : Prop :=
  set_affectedFilesIndex None s1 = set_affectedFilesIndex None s2
  /\ (is_Some (affectedFiles s1) -> affectedFilesIndex s1 = affectedFilesIndex s2).

(** The same for the outcome of a call. *)
Definition sameOutcome {A} (c1 c2 : option (Completion (A * BuilderProgramState))) : Prop :=
  match c1, c2 with
  | Some (Normal (r1, s1)), Some (Normal (r2, s2)) => r1 = r2 /\ observablyEqual s1 s2
  | Some (Throw e1), Some (Throw e2) => e1 = e2
  | None, None => True
  | _, _ => False
  end.

(** ** Predicates on states *)

(** The paths of [seenAffectedFiles], none while the map is [undefined]. *)
Definition seenPaths (s : BuilderProgramState) : gset Path :=
  default ∅ (seenAffectedFiles s).

(** [!signatures || !signatures.size], as line 71 tests it. *)
Definition noPendingSignatures (s : BuilderProgramState) : Prop :=
  match currentAffectedFilesSignatures s with
  | None => True
  | Some signatures => signatures = ∅
  end.

(** A batch is in progress and every file from the cursor on has been seen:
    the next call of [getNextAffectedFile] passes the end of
    [affectedFiles]. *)
Definition batchExhausted (s : BuilderProgramState) : bool :=
  match affectedFiles s with
  | Some files =>
      match filesFromCursor s files with
      | [] => true
      | remaining =>
          match seenAffectedFiles s with
          | Some seen =>
              bool_decide
                ((scanAffectedFiles remaining (default 0 (affectedFilesIndex s)) seen).2 = None)
          | None => false
          end
      end
  | None => false
  end.

(** The cursor of the batch in progress is on the unseen file [f]. *)
Definition cursorOn (s : BuilderProgramState) (f : SourceFile) : Prop :=
  exists files i seen,
    affectedFiles s = Some files /\ affectedFilesIndex s = Some i
    /\ files !! i = Some f
    /\ seenAffectedFiles s = Some seen /\ path f ∉ seen.


(** Whether the cache holds an entry for [p]. *)
Definition hasDiagnostics (s : BuilderProgramState) (p : Path) : Prop :=
  exists cache, semanticDiagnosticsPerFile s = Some cache /\ is_Some (cache !! p).

(** A batch has been started for the first changed file. *)
Definition started (s : BuilderProgramState) : Prop :=
  is_Some (affectedFiles s) /\
  exists root rest, currentChangedFilePath s = Some root /\ changedFilesSet s = root :: rest.

(** The assertion of [assertSourceFileOkWithoutNextAffectedCall] fails on
    [f]: a batch is in progress, [f] is the very file before the cursor and
    the cache holds an entry for its path. *)
Definition assertionFails (s : BuilderProgramState) (f : SourceFile) : Prop :=
  exists files,
    affectedFiles s = Some files /\ fileBeforeCursor s files = Some f
    /\ hasDiagnostics s (path f).

(** Every file before the cursor of the batch in progress has been seen. *)
Definition prefixSeen (s : BuilderProgramState) : Prop :=
  forall files i seen j g,
    affectedFiles s = Some files -> affectedFilesIndex s = Some i ->
    seenAffectedFiles s = Some seen ->
    j < i -> files !! j = Some g -> path g ∈ seen.

(** The conditions under which the entry [(p, info)] of the new [fileInfos]
    is a changed file, in the words of the specification. *)
Definition changedSinceOldState (useOldState : bool) (oldState : option BuilderProgramState)
    (newFileInfos : list (Path * FileInfo))
    (newReferencedMap : option (gmap Path ReferencedSet))
    (p : Path) (info : FileInfo) : Prop :=
  useOldState = false
  \/ exists old,
       oldState = Some old
       /\ (mapGet p (fileInfos old) = None
           \/ (exists oldInfo,
                 mapGet p (fileInfos old) = Some oldInfo
                 /\ version oldInfo <> version info)
           \/ referencesOf newReferencedMap p <> referencesOf (referencedMap old) p
           \/ exists references q,
                referencesOf newReferencedMap p = Some references /\ q ∈ references
                /\ mapGet q newFileInfos = None /\ is_Some (mapGet q (fileInfos old))).

(** The shape of the states the builder produces. *)
Record wellFormed (s : BuilderProgramState) : Prop := mkWellFormed {
  wf_bundled :
    bundledOutput (getCompilerOptions (program s)) = true ->
    semanticDiagnosticsPerFile s = None /\ affectedFiles s = None;
  wf_cache :
    bundledOutput (getCompilerOptions (program s)) = false ->
    is_Some (semanticDiagnosticsPerFile s);
  wf_batch :
    is_Some (affectedFiles s) ->
    is_Some (seenAffectedFiles s) /\ is_Some (currentAffectedFilesSignatures s)
    /\ exists root rest,
         currentChangedFilePath s = Some root /\ changedFilesSet s = root :: rest;
  wf_idle :
    affectedFiles s = None -> noPendingSignatures s
}.

(** What [pending], the item yielded last and not yet committed, tells about
    the state. *)
Definition pendingOk (s : BuilderProgramState) (pending : option Affected) : Prop :=
  match pending with
  | None => True
  | Some AffectedProgram => bundledOutput (getCompilerOptions (program s)) = true
  | Some (AffectedFile f) =>
      exists files i,
        affectedFiles s = Some files /\ affectedFilesIndex s = Some i /\ files !! i = Some f
  end.

(** How two turns of the loop compare. *)
Definition sameStep (a b : LoopStep) : Prop :=
  match a, b with
  | Return r1 s1, Return r2 s2 => r1 = r2 /\ observablyEqual s1 s2
  | Continue s1, Continue s2 => s1 = s2
  | Raise e1, Raise e2 => e1 = e2
  | _, _ => False
  end.

(** The outcome of a turn of the loop in a well-formed state. *)
Definition goodStep (step : LoopStep) : Prop :=
  match step with
  | Return result s' =>
      wellFormed s' /\ pendingOk s' result
      /\ (result = None ->
          changedFilesSet s' = [] /\ affectedFiles s' = None /\ noPendingSignatures s')
  | Continue s' => wellFormed s'
  | Raise _ => False
  end.

(** The measure of the iteration: twice the number of changed files, plus
    one while no batch is in progress; then the files of the batch from the
    cursor on. *)
Definition batchesLeft (s : BuilderProgramState) : nat :=
  2 * length (changedFilesSet s)
  + match affectedFiles s with Some _ => 0 | None => 1 end.

Definition filesLeft (s : BuilderProgramState) : nat :=
  match affectedFiles s, affectedFilesIndex s with
  | Some files, Some i => length files - i
  | _, _ => 0
  end.

Definition closerToDone (s' s : BuilderProgramState) : Prop :=
  batchesLeft s' < batchesLeft s
  \/ (batchesLeft s' = batchesLeft s /\ filesLeft s' < filesLeft s).

(** What a turn of the loop does to the measure, the committing of the
    result included. *)
Definition progressStep (s : BuilderProgramState) (step : LoopStep) : Prop :=
  match step with
  | Return (Some (AffectedFile f)) s1 =>
      changedFilesSet s1 = changedFilesSet s
      /\ exists files i j,
           affectedFiles s = Some files /\ affectedFiles s1 = Some files
           /\ affectedFilesIndex s = Some i /\ affectedFilesIndex s1 = Some j
           /\ i <= j < length files
  | Return (Some AffectedProgram) s1 =>
      affectedFiles s1 = None /\ changedFilesSet s1 <> []
      /\ length (changedFilesSet s1) <= length (changedFilesSet s)
  | Return None _ => True
  | Continue s' => batchesLeft s' < batchesLeft s
  | Raise _ => True
  end.

(** ** Reachable states

    [reachable s pending]: the builder can be in state [s], [pending] being
    the result of the last [getNextAffectedFile] if [doneWithAffectedFile] has
    not been called for it since. A call that is cancelled between the two
    leaves the state of [reach_next]; a diagnostics query stores into the
    cache ([reach_diagnostics]). *)
Inductive reachable : BuilderProgramState -> option Affected -> Prop :=
  | reach_created newProgram caseSensitive oldState s :
      createBuilderProgramState newProgram caseSensitive oldState = Normal s ->
      reachable s None
  | reach_next s pending result s' :
      reachable s pending ->
      getNextAffectedFile s = Some (Normal (result, s')) ->
      reachable s' result
  | reach_done s affected s' :
      reachable s (Some affected) ->
      doneWithAffectedFile s affected = Normal s' ->
      reachable s' None
  | reach_diagnostics s pending f d s' :
      reachable s pending ->
      getSemanticDiagnosticsOfFile s f = Normal (d, s') ->
      reachable s' pending.

(** ** The two exported constructors (lines 516-526) *)
Definition createSemanticDiagnosticsBuilderProgram (store : gmap nat BaseBuilderProgram)
    (newProgram : Program) (host : BuilderProgramHost) (oldProgram : option nat)
    : Completion (nat * gmap nat BaseBuilderProgram) :=
  createBuilderProgram store newProgram host oldProgram SemanticDiagnosticsBuilderProgram.

Definition createEmitAndSemanticDiagnosticsBuilderProgram
    (store : gmap nat BaseBuilderProgram)
    (newProgram : Program) (host : BuilderProgramHost) (oldProgram : option nat)
    : Completion (nat * gmap nat BaseBuilderProgram) :=
  createBuilderProgram store newProgram host oldProgram
    EmitAndSemanticDiagnosticsBuilderProgram.

(** No changed file is left and no batch is in progress. *)
Definition exhausted (s : BuilderProgramState) : Prop :=
  changedFilesSet s = [] /\ affectedFiles s = None.

(** Everything but the cache of diagnostics. *)
Definition withoutCache (s : BuilderProgramState) : BuilderProgramState :=
  set_semanticDiagnosticsPerFile None s.

(** The cache of [s'] holds every entry of the cache of [s]. *)
Definition cacheGrows (s s' : BuilderProgramState) : Prop :=
  forall p d, cachedDiagnosticsOf (Some s) p = Some d ->
              cachedDiagnosticsOf (Some s') p = Some d.

(** The result of [emit] when the [while] has made one turn with a result. *)
Definition emittedOnce (result : EmitResult) : EmitResult :=
  mkEmitResult (orElse None (emitSkipped result)) (diagnostics result)
    (emittedFiles result) (sourceMaps result).

(** The state that [createBuilderProgram] reads from the old builder. *)
Definition oldStateOf (store : gmap nat BaseBuilderProgram) (oldProgram : option nat)
    : option BuilderProgramState :=
  match oldProgram with
  | Some reference => getState <$> store !! reference
  | None => None
  end.


End Builder.

(** ** A concrete program and concrete layers, for the examples *)

Module Examples.

Definition fileA := mkSourceFile 1 "/src/a.ts" "1".
Definition fileB := mkSourceFile 2 "/src/b.ts" "1".

Definition perFileOptions := mkCompilerOptions None None.
Definition bundledOptions := mkCompilerOptions (Some "/out/bundle.js") None.

Definition programAB := mkProgram 1 perFileOptions [fileA; fileB].
Definition programA := mkProgram 2 perFileOptions [fileA].

(** [/src/a.ts] edited. *)
Definition fileA2 := mkSourceFile 3 "/src/a.ts" "2".
Definition programA2B := mkProgram 5 perFileOptions [fileA2; fileB].
Definition programBundled := mkProgram 3 bundledOptions [fileA; fileB].

(** A [BuilderState] layer without references between files: every file has
    the version of its source file, a changed file affects itself only, and
    its new signature is its version. *)
Definition layer : BuilderStateLayer := {|
  BuilderState_create newProgram _ _ :=
    mkBuilderState
      ((fun f => (path f, mkFileInfo (sourceVersion f) None)) <$> getSourceFiles newProgram)
      (Some ∅);
  BuilderState_canReuseOldState newReferencedMap oldState :=
    match oldState with
    | Some old =>
        bool_decide (is_Some (bs_referencedMap old) <-> is_Some newReferencedMap)
    | None => false
    end;
  BuilderState_getFilesAffectedBy state p changedPath signatures :=
    (filter (fun f => path f = changedPath) (getSourceFiles p),
     <[changedPath := "shape"]> signatures);
  BuilderState_updateSignaturesFromCache infos signatures :=
    (fun '(p, info) =>
       (p, mkFileInfo (version info)
             (match signatures !! p with
              | Some sig => Some sig
              | None => signature info
              end))) <$> infos
|}.

Definition compiler : ProgramLayer := {|
  Program_getSemanticDiagnostics _ sourceFile :=
    match sourceFile with
    | Some f => ["error in " +:+ path f]
    | None => ["error"]
    end;
  Program_emit _ sourceFile :=
    mkEmitResult (Some false) []
      (match sourceFile with
       | Some f => [path f +:+ ".js"]
       | None => ["/out/bundle.js"]
       end) []
|}.

(** The state of a first build of [programAB]. *)
Definition freshAB : BuilderProgramState :=
  mkState [("/src/a.ts", mkFileInfo "1" None); ("/src/b.ts", mkFileInfo "1" None)]
    (Some ∅) (Some ∅) ["/src/a.ts"; "/src/b.ts"] None None None None None programAB.

(** The state of a first build of [programBundled]. *)
Definition freshBundled : BuilderProgramState :=
  mkState [("/src/a.ts", mkFileInfo "1" None); ("/src/b.ts", mkFileInfo "1" None)]
    (Some ∅) None ["/src/a.ts"; "/src/b.ts"] None None None None None programBundled.

(** [programAB] built again: another program object with the same files. *)
Definition programAB' := mkProgram 4 perFileOptions [fileA; fileB].

(** [freshAB] after [getNextAffectedFile] has yielded [fileA]. *)
Definition yieldedA : BuilderProgramState :=
  mkState [("/src/a.ts", mkFileInfo "1" None); ("/src/b.ts", mkFileInfo "1" None)]
    (Some ∅) (Some ∅) ["/src/a.ts"; "/src/b.ts"] (Some [fileA]) (Some 0)
    (Some "/src/a.ts") (Some {["/src/a.ts" := "shape"]}) (Some ∅) programAB.

(** [yieldedA] after the diagnostics of [fileA] have been computed. *)
Definition queriedA : BuilderProgramState :=
  mkState [("/src/a.ts", mkFileInfo "1" None); ("/src/b.ts", mkFileInfo "1" None)]
    (Some ∅) (Some {["/src/a.ts" := ["error in /src/a.ts"]]})
    ["/src/a.ts"; "/src/b.ts"] (Some [fileA]) (Some 0)
    (Some "/src/a.ts") (Some {["/src/a.ts" := "shape"]}) (Some ∅) programAB.

(** [queriedA] after [doneWithAffectedFile] for [fileA]: the state that
    [getSemanticDiagnosticsOfNextAffectedFile] leaves when called on
    [freshAB]. *)
Definition committedA : BuilderProgramState :=
  mkState [("/src/a.ts", mkFileInfo "1" None); ("/src/b.ts", mkFileInfo "1" None)]
    (Some ∅) (Some {["/src/a.ts" := ["error in /src/a.ts"]]})
    ["/src/a.ts"; "/src/b.ts"] (Some [fileA]) (Some 1)
    (Some "/src/a.ts") (Some {["/src/a.ts" := "shape"]}) (Some {["/src/a.ts"]}) programAB.

(** [committedA] after [getNextAffectedFile] has yielded [fileB]: the batch
    of [/src/a.ts] has been committed and the one of [/src/b.ts] started. *)
Definition yieldedB : BuilderProgramState :=
  mkState [("/src/a.ts", mkFileInfo "1" (Some "shape")); ("/src/b.ts", mkFileInfo "1" None)]
    (Some ∅) (Some {["/src/a.ts" := ["error in /src/a.ts"]]})
    ["/src/b.ts"] (Some [fileB]) (Some 0)
    (Some "/src/b.ts") (Some {["/src/b.ts" := "shape"]}) (Some {["/src/a.ts"]}) programAB.

(** A state in which the batch [fileB; fileA] of [/src/b.ts] has its cursor
    on [fileA], seen in an earlier batch. *)
Definition seenTail : BuilderProgramState :=
  mkState [("/src/a.ts", mkFileInfo "1" (Some "shape")); ("/src/b.ts", mkFileInfo "1" None)]
    (Some ∅) (Some ∅) ["/src/b.ts"] (Some [fileB; fileA]) (Some 1)
    (Some "/src/b.ts") (Some {["/src/b.ts" := "shape"]})
    (Some {["/src/a.ts"; "/src/b.ts"]}) programAB.

(** The layer of a program in which [/src/a.ts] imports [/src/b.ts], also
    when [/src/b.ts] is no longer part of the program. *)
Definition layerWithImport : BuilderStateLayer := {|
  BuilderState_create newProgram caseSensitive oldState :=
    mkBuilderState
      (bs_fileInfos (@BuilderState_create layer newProgram caseSensitive oldState))
      (Some {["/src/a.ts" := {["/src/b.ts"]}]});
  BuilderState_canReuseOldState := @BuilderState_canReuseOldState layer;
  BuilderState_getFilesAffectedBy := @BuilderState_getFilesAffectedBy layer;
  BuilderState_updateSignaturesFromCache := @BuilderState_updateSignaturesFromCache layer
|}.

(** The state of a complete first build of [programAB] on that layer. *)
Definition builtAB : BuilderProgramState :=
  mkState [("/src/a.ts", mkFileInfo "1" (Some "shape"));
           ("/src/b.ts", mkFileInfo "1" (Some "shape"))]
    (Some {["/src/a.ts" := {["/src/b.ts"]}]}) (Some ∅) [] None (Some 1) None (Some ∅)
    (Some {["/src/a.ts"; "/src/b.ts"]}) programAB.

(** [yieldedB] after [doneWithAffectedFile] for [fileB]. *)
Definition committedB : BuilderProgramState :=
  mkState [("/src/a.ts", mkFileInfo "1" (Some "shape")); ("/src/b.ts", mkFileInfo "1" None)]
    (Some ∅) (Some {["/src/a.ts" := ["error in /src/a.ts"]]})
    ["/src/b.ts"] (Some [fileB]) (Some 1)
    (Some "/src/b.ts") (Some {["/src/b.ts" := "shape"]})
    (Some {["/src/a.ts"; "/src/b.ts"]}) programAB.

(** [committedB] after the call of [getNextAffectedFile] that finds nothing
    left. *)
Definition drainedAB : BuilderProgramState :=
  mkState [("/src/a.ts", mkFileInfo "1" (Some "shape"));
           ("/src/b.ts", mkFileInfo "1" (Some "shape"))]
    (Some ∅) (Some {["/src/a.ts" := ["error in /src/a.ts"]]})
    [] None (Some 1) None (Some ∅)
    (Some {["/src/a.ts"; "/src/b.ts"]}) programAB.

(** The state of a complete build of [programAB] after
    [getSemanticDiagnostics] for the whole program. *)
Definition checkedAB : BuilderProgramState :=
  mkState [("/src/a.ts", mkFileInfo "1" (Some "shape"));
           ("/src/b.ts", mkFileInfo "1" (Some "shape"))]
    (Some ∅)
    (Some {["/src/a.ts" := ["error in /src/a.ts"]; "/src/b.ts" := ["error in /src/b.ts"]]})
    [] None (Some 1) None (Some ∅)
    (Some {["/src/a.ts"; "/src/b.ts"]}) programAB.

(** The state of [programA2B], in which [/src/a.ts] is edited, built on
    [checkedAB]. *)
Definition editedA : BuilderProgramState :=
  mkState [("/src/a.ts", mkFileInfo "2" None); ("/src/b.ts", mkFileInfo "1" None)]
    (Some ∅) (Some {["/src/b.ts" := ["error in /src/b.ts"]]})
    ["/src/a.ts"] None None None None None programA2B.

End Examples.

(** * Properties *)

Section Properties.
Context `{BSL : BuilderStateLayer} `{PL : ProgramLayer}.

(** Projections of updated states. *)
Ltac simpl_state :=
  cbn [fileInfos referencedMap semanticDiagnosticsPerFile changedFilesSet affectedFiles
       affectedFilesIndex currentChangedFilePath currentAffectedFilesSignatures
       seenAffectedFiles program
       set_fileInfos set_semanticDiagnosticsPerFile set_changedFilesSet
       set_affectedFiles set_affectedFilesIndex set_currentChangedFilePath
       set_currentAffectedFilesSignatures set_seenAffectedFiles
       bs_fileInfos bs_referencedMap] in *.

(** One step of a sequence of calls that may throw. *)
Ltac simpl_bind := cbn [mbind Completion_bind].

(** *** Fuel *)

Lemma getNextAffectedFile_loop_mono n m s r :
  n <= m -> getNextAffectedFile_loop n s = Some r -> getNextAffectedFile_loop m s = Some r.
Proof.
  revert m s. induction n as [|n IH]; intros m s Hle Hn; [discriminate|].
  destruct m as [|m]; [lia|]. cbn in *.
  destruct (getNextAffectedFile_body s); auto. apply IH; [lia|done].
Qed.

Lemma mapDelete_length k m : length (mapDelete k m) <= length m.
Proof. destruct k; cbn; [apply length_filter|done]. Qed.

Lemma mapDelete_head_length root rest :
  length (mapDelete (Some root) (root :: rest)) < length (root :: rest).
Proof.
  unfold mapDelete. rewrite filter_cons_False by (intros ?; congruence).
  cbn [length]. pose proof (length_filter (fun q => q ≠ root) rest). lia.
Qed.

Lemma commitBatch_changed s s' :
  commitBatch s = Normal s' ->
  changedFilesSet s' = mapDelete (currentChangedFilePath s) (changedFilesSet s)
  /\ affectedFiles s' = None.
Proof.
  unfold commitBatch. simpl_state.
  destruct (currentAffectedFilesSignatures s); intros [= <-]; done.
Qed.

Lemma nextChangedFile_Continue s s' :
  nextChangedFile s = Continue s' ->
  started s' /\ changedFilesSet s' = changedFilesSet s.
Proof.
  unfold nextChangedFile. simpl_state.
  destruct (changedFilesSet s) as [|nextKey rest] eqn:Hc; [discriminate|].
  destruct (bundledOutput _).
  { destruct (semanticDiagnosticsPerFile s); discriminate. }
  destruct (BuilderState_getFilesAffectedBy _ _ _ _) as [files signatures].
  simpl_state.
  destruct (semanticDiagnosticsPerFile s); [|discriminate].
  intros [= <-]. unfold started. cbn. eauto 8.
Qed.

Lemma getNextAffectedFile_body_Continue s s' :
  getNextAffectedFile_body s = Continue s' ->
  started s'
  /\ length (changedFilesSet s') <= length (changedFilesSet s)
  /\ (started s -> length (changedFilesSet s') < length (changedFilesSet s)).
Proof.
  unfold getNextAffectedFile_body.
  assert (Hcommit : forall s0 : BuilderProgramState,
             currentChangedFilePath s0 = currentChangedFilePath s ->
             changedFilesSet s0 = changedFilesSet s ->
             match commitBatch s0 with
             | Normal s1 => nextChangedFile s1
             | Throw e => Raise e
             end = Continue s' ->
             started s'
             /\ length (changedFilesSet s') <= length (changedFilesSet s)
             /\ (started s -> length (changedFilesSet s') < length (changedFilesSet s))).
  { intros s0 Hp Hc. destruct (commitBatch s0) as [s1|] eqn:Hcb; [|discriminate].
    intros Hn. apply nextChangedFile_Continue in Hn as [Hst Heq].
    apply commitBatch_changed in Hcb as [Hch _]. rewrite Heq, Hch, Hp, Hc.
    split; [done|]. split; [apply mapDelete_length|].
    intros [_ (root & rest & -> & ->)]. apply mapDelete_head_length. }
  destruct (affectedFiles s) as [files|] eqn:Haf.
  - destruct (filesFromCursor s files) as [|f0 remaining] eqn:Hrem.
    + apply Hcommit; done.
    + destruct (seenAffectedFiles s) as [seen|]; [|discriminate].
      destruct (scanAffectedFiles _ _ _) as [[index seen'] found].
      destruct found as [f|].
      * simpl_state. destruct (semanticDiagnosticsPerFile s); discriminate.
      * apply Hcommit; done.
  - intros Hn. apply nextChangedFile_Continue in Hn as [Hst Heq]. rewrite Heq.
    split; [done|]. split; [done|]. intros [[? Hs] _]. congruence.
Qed.

Lemma getNextAffectedFile_loop_started n s :
  started s -> length (changedFilesSet s) <= n ->
  is_Some (getNextAffectedFile_loop n s).
Proof.
  revert s. induction n as [|n IH]; intros s Hst Hlen.
  { destruct Hst as [_ (root & rest & _ & Hc)]. rewrite Hc in Hlen. cbn in Hlen. lia. }
  cbn. destruct (getNextAffectedFile_body s) as [r s'|s'|e] eqn:Hb; [eauto|..|eauto].
  apply getNextAffectedFile_body_Continue in Hb as (Hst' & _ & Hlt).
  apply IH; [done|]. specialize (Hlt Hst). lia.
Qed.

(** The fuel of [getNextAffectedFile] is enough in every state. *)
Lemma getNextAffectedFile_total s : is_Some (getNextAffectedFile s).
Proof.
  unfold getNextAffectedFile. cbn.
  destruct (getNextAffectedFile_body s) as [r s'|s'|e] eqn:Hb; [eauto|..|eauto].
  apply getNextAffectedFile_body_Continue in Hb as (Hst' & Hle & _).
  apply getNextAffectedFile_loop_started; done.
Qed.

(** Any fuel that is enough gives the result of [getNextAffectedFile]. *)
Lemma getNextAffectedFile_loop_eq n s r :
  getNextAffectedFile_loop n s = Some r -> getNextAffectedFile s = Some r.
Proof.
  intros Hn. destruct (getNextAffectedFile_total s) as [r' Hr'].
  rewrite Hr'. f_equal.
  unfold getNextAffectedFile in Hr'.
  set (k := S (length (changedFilesSet s))) in *.
  assert (H1 := getNextAffectedFile_loop_mono n (n + k) s r ltac:(lia) Hn).
  assert (H2 := getNextAffectedFile_loop_mono k (n + k) s r' ltac:(lia) Hr').
  congruence.
Qed.

Lemma getNextAffectedFile_unfold s :
  getNextAffectedFile s =
  match getNextAffectedFile_body s with
  | Return result s' => Some (Normal (result, s'))
  | Raise e => Some (Throw e)
  | Continue s' => getNextAffectedFile s'
  end.
Proof.
  destruct (getNextAffectedFile_body s) as [r s'|s'|e] eqn:Hb.
  - apply (getNextAffectedFile_loop_eq 1). cbn. by rewrite Hb.
  - destruct (getNextAffectedFile_total s') as [r Hr]. rewrite Hr.
    apply (getNextAffectedFile_loop_eq (S (S (length (changedFilesSet s'))))).
    cbn [getNextAffectedFile_loop]. rewrite Hb. exact Hr.
  - apply (getNextAffectedFile_loop_eq 1). cbn. by rewrite Hb.
Qed.

(** *** The inner loop *)

Lemma seen_again (p : Path) (seen : gset Path) : p ∈ seen -> {[p]} ∪ seen = seen.
Proof. intros Hp. apply subseteq_union_1_L. by apply singleton_subseteq_l. Qed.

Lemma scanAffectedFiles_seen files i seen :
  (scanAffectedFiles files i seen).1.2 = seen.
Proof.
  revert i seen. induction files as [|f files IH]; intros i seen; cbn; [reflexivity|].
  destruct (decide (path f ∈ seen)) as [Hin|]; [|reflexivity].
  rewrite seen_again by done. apply IH.
Qed.


Lemma scanAffectedFiles_found files i seen j seen' f :
  scanAffectedFiles files i seen = (j, seen', Some f) ->
  exists k, j = i + k /\ files !! k = Some f /\ path f ∉ seen'.
Proof.
  revert i seen. induction files as [|g files IH]; intros i seen; cbn; [discriminate|].
  destruct (decide (path g ∈ seen)) as [Hin|Hnin].
  - intros Hs. pose proof (scanAffectedFiles_seen files (S i) ({[path g]} ∪ seen)) as Hseen.
    destruct (IH _ _ Hs) as (k & -> & Hk & Hf).
    exists (S k). split; [lia|]. done.
  - intros [= <- <- <-]. exists 0. split; [lia|]. done.
Qed.

Lemma scanAffectedFiles_exhausted files i seen j seen' :
  scanAffectedFiles files i seen = (j, seen', None) ->
  j = i + length files /\ forall g, g ∈ files -> path g ∈ seen.
Proof.
  revert i seen. induction files as [|g files IH]; intros i seen; cbn.
  { intros [= <- <-]. split; [lia|]. intros g Hg. by apply elem_of_nil in Hg. }
  destruct (decide (path g ∈ seen)) as [Hin|Hnin]; [|discriminate].
  rewrite seen_again by done.
  intros Hs. destruct (IH _ _ Hs) as [-> Hall]. split; [lia|].
  intros h Hh. apply elem_of_cons in Hh as [->|Hh]; auto.
Qed.

(** *** What a yield leaves behind *)

Lemma getNextAffectedFile_body_yield s f s1 :
  getNextAffectedFile_body s = Return (Some (AffectedFile f)) s1 ->
  cursorOn s1 f /\ ~ hasDiagnostics s1 (path f)
  /\ is_Some (semanticDiagnosticsPerFile s1).
Proof.
  unfold getNextAffectedFile_body.
  assert (Hnext : forall s0, nextChangedFile s0 <> Return (Some (AffectedFile f)) s1).
  { intros s0. unfold nextChangedFile.
    destruct (changedFilesSet s0); [discriminate|].
    destruct (bundledOutput _); [destruct (semanticDiagnosticsPerFile s0); discriminate|].
    destruct (BuilderState_getFilesAffectedBy _ _ _ _). simpl_state.
    destruct (semanticDiagnosticsPerFile s0); discriminate. }
  destruct (affectedFiles s) as [files|] eqn:Haf; [|intros H; by apply Hnext in H].
  destruct (filesFromCursor s files) as [|f0 remaining] eqn:Hrem.
  { destruct (commitBatch s); [intros H; by apply Hnext in H|discriminate]. }
  destruct (seenAffectedFiles s) as [seen|] eqn:Hseen; [|discriminate].
  destruct (scanAffectedFiles _ _ _) as [[index seen'] found] eqn:Hscan.
  destruct found as [g|].
  2:{ destruct (commitBatch _); [intros H; by apply Hnext in H|discriminate]. }
  simpl_state. destruct (semanticDiagnosticsPerFile s) as [cache|] eqn:Hcache; [|discriminate].
  intros [= -> <-].
  apply scanAffectedFiles_found in Hscan as (k & -> & Hk & Hf).
  unfold filesFromCursor in Hrem. destruct (affectedFilesIndex s) as [i|]; [|discriminate].
  rewrite <- Hrem, lookup_drop in Hk. cbn in *.
  split; [|split].
  - exists files, (i + k), seen'. cbn. rewrite Haf. done.
  - intros (c & [= <-] & Hc). cbn in Hc. rewrite lookup_delete_eq in Hc. by destruct Hc.
  - cbn. eauto.
Qed.


(** Induction on the turns of the outer loop. *)
Lemma getNextAffectedFile_ind
    (P : BuilderProgramState -> Completion (option Affected * BuilderProgramState) -> Prop) :
  (forall s r s', getNextAffectedFile_body s = Return r s' -> P s (Normal (r, s'))) ->
  (forall s e, getNextAffectedFile_body s = Raise e -> P s (Throw e)) ->
  (forall s s' c, getNextAffectedFile_body s = Continue s' ->
                  getNextAffectedFile s' = Some c -> P s' c -> P s c) ->
  forall s c, getNextAffectedFile s = Some c -> P s c.
Proof.
  intros HR HE HC s c. unfold getNextAffectedFile at 1.
  generalize (S (length (changedFilesSet s))). intros n. revert s.
  induction n as [|n IH]; intros s; cbn; [discriminate|].
  destruct (getNextAffectedFile_body s) as [r s'|s'|e] eqn:Hb.
  - intros [= <-]. by apply HR.
  - intros Hl. apply (HC s s'); [done|by eapply getNextAffectedFile_loop_eq|by apply IH].
  - intros [= <-]. by apply HE.
Qed.

Lemma getNextAffectedFile_yield s f s1 :
  getNextAffectedFile s = Some (Normal (Some (AffectedFile f), s1)) ->
  cursorOn s1 f /\ ~ hasDiagnostics s1 (path f)
  /\ is_Some (semanticDiagnosticsPerFile s1).
Proof.
  intros H.
  apply (getNextAffectedFile_ind
           (fun _ c => forall f s1, c = Normal (Some (AffectedFile f), s1) ->
              cursorOn s1 f /\ ~ hasDiagnostics s1 (path f)
              /\ is_Some (semanticDiagnosticsPerFile s1)))
    with (s := s) (c := Normal (Some (AffectedFile f), s1)); try done.
  intros s0 r s' Hb g s2 [= -> ->]. by eapply getNextAffectedFile_body_yield.
Qed.

(** *** The cursor is not observed outside a batch *)

Lemma observablyEqual_refl s : observablyEqual s s.
Proof. split; done. Qed.

Lemma observablyEqual_index v s :
  affectedFiles s = None -> observablyEqual s (set_affectedFilesIndex v s).
Proof. intros Hn. split; [done|]. rewrite Hn. by intros [? ?]. Qed.

Lemma observablyEqual_batch s1 s2 :
  observablyEqual s1 s2 -> is_Some (affectedFiles s1) -> s1 = s2.
Proof.
  intros [Heq Hidx] Hsome. specialize (Hidx Hsome).
  destruct s1, s2; cbn in *. unfold set_affectedFilesIndex in Heq; cbn in Heq.
  congruence.
Qed.

Lemma observablyEqual_fields s1 s2 :
  observablyEqual s1 s2 ->
  fileInfos s1 = fileInfos s2 /\ referencedMap s1 = referencedMap s2
  /\ semanticDiagnosticsPerFile s1 = semanticDiagnosticsPerFile s2
  /\ changedFilesSet s1 = changedFilesSet s2 /\ affectedFiles s1 = affectedFiles s2
  /\ currentChangedFilePath s1 = currentChangedFilePath s2
  /\ currentAffectedFilesSignatures s1 = currentAffectedFilesSignatures s2
  /\ seenAffectedFiles s1 = seenAffectedFiles s2 /\ program s1 = program s2.
Proof.
  intros [Heq _]. destruct s1, s2; cbn in *.
  unfold set_affectedFilesIndex in Heq; cbn in Heq.
  injection Heq as -> -> -> -> -> -> -> -> ->. repeat split.
Qed.

Lemma observablyEqual_idle s1 s2 :
  observablyEqual s1 s2 -> affectedFiles s1 = None ->
  s2 = set_affectedFilesIndex (affectedFilesIndex s2) s1.
Proof.
  intros H _. apply observablyEqual_fields in H.
  destruct s1, s2; cbn in *. unfold set_affectedFilesIndex; cbn.
  destruct H as (? & ? & ? & ? & ? & ? & ? & ? & ?). by subst.
Qed.

Lemma sameStep_refl a : sameStep a a.
Proof. destruct a; cbn; auto using observablyEqual_refl. Qed.

Lemma nextChangedFile_index v s :
  affectedFiles s = None ->
  sameStep (nextChangedFile s) (nextChangedFile (set_affectedFilesIndex v s)).
Proof.
  intros Hn. unfold nextChangedFile. simpl_state.
  destruct (changedFilesSet s); [cbn; auto using observablyEqual_index|].
  destruct (bundledOutput _).
  { destruct (semanticDiagnosticsPerFile s); cbn; auto using observablyEqual_index. }
  destruct (BuilderState_getFilesAffectedBy _ _ _ _). simpl_state.
  destruct (semanticDiagnosticsPerFile s); cbn; done.
Qed.

Lemma commit_then_next_index v s :
  sameStep
    match commitBatch s with Normal s => nextChangedFile s | Throw e => Raise e end
    match commitBatch (set_affectedFilesIndex v s) with
    | Normal s => nextChangedFile s
    | Throw e => Raise e
    end.
Proof.
  unfold commitBatch. simpl_state.
  destruct (currentAffectedFilesSignatures s); [|done].
  match goal with
  | |- sameStep (nextChangedFile ?a) _ => apply (nextChangedFile_index v a)
  end. done.
Qed.

Lemma getNextAffectedFile_writeBack_body_same s :
  sameStep (getNextAffectedFile_body s) (getNextAffectedFile_writeBack_body s).
Proof.
  unfold getNextAffectedFile_body, getNextAffectedFile_writeBack_body.
  destruct (affectedFiles s); [|apply sameStep_refl].
  destruct (filesFromCursor s l); [apply sameStep_refl|].
  destruct (seenAffectedFiles s); [|done].
  destruct (scanAffectedFiles _ _ _) as [[index seen] found].
  destruct found; [apply sameStep_refl|].
  apply commit_then_next_index.
Qed.

Lemma getNextAffectedFile_writeBack_loop_same n s :
  sameOutcome (getNextAffectedFile_loop n s) (getNextAffectedFile_writeBack_loop n s).
Proof.
  revert s. induction n as [|n IH]; intros s; cbn; [done|].
  pose proof (getNextAffectedFile_writeBack_body_same s) as Hb.
  destruct (getNextAffectedFile_body s), (getNextAffectedFile_writeBack_body s);
    cbn in Hb; try done.
  subst. apply IH.
Qed.

(** C9. The source's [getNextAffectedFile], which writes the local cursor to
    [state.affectedFilesIndex] only where an unseen file is found, and the
    variant that always writes it back return the same result in every state,
    and the states they leave are observably equal: they differ at most in the
    cursor of a state without a batch, which nothing reads. *)
Theorem writeBack_equivalent s :
  is_Some (getNextAffectedFile s)
  /\ sameOutcome (getNextAffectedFile s) (getNextAffectedFile_writeBack s).
Proof.
  split; [apply getNextAffectedFile_total|].
  apply getNextAffectedFile_writeBack_loop_same.
Qed.

(** Every operation of the builder takes observably equal states to the same
    result and to observably equal states. *)
Lemma sameOutcome_refl {A} (c : option (Completion (A * BuilderProgramState))) :
  sameOutcome c c.
Proof. destruct c as [[[r s]|e]|]; cbn; auto using observablyEqual_refl. Qed.

Lemma observablyEqual_body s1 s2 :
  observablyEqual s1 s2 ->
  sameStep (getNextAffectedFile_body s1) (getNextAffectedFile_body s2).
Proof.
  intros Heq. destruct (affectedFiles s1) as [files|] eqn:Haf.
  - rewrite (observablyEqual_batch s1 s2) by (rewrite ?Haf; eauto). apply sameStep_refl.
  - rewrite (observablyEqual_idle s1 s2 Heq Haf).
    unfold getNextAffectedFile_body. simpl_state. rewrite Haf.
    by apply nextChangedFile_index.
Qed.

Lemma observablyEqual_getNextAffectedFile s1 s2 :
  observablyEqual s1 s2 ->
  sameOutcome (getNextAffectedFile s1) (getNextAffectedFile s2).
Proof.
  intros Heq. unfold getNextAffectedFile.
  destruct (observablyEqual_fields _ _ Heq) as (_ & _ & _ & <- & _).
  generalize (S (length (changedFilesSet s1))). intros n. cbn.
  destruct n as [|n]; cbn; [done|].
  pose proof (observablyEqual_body s1 s2 Heq) as Hb.
  destruct (getNextAffectedFile_body s1), (getNextAffectedFile_body s2);
    cbn in Hb; try done.
  subst. apply sameOutcome_refl.
Qed.

Lemma observablyEqual_doneWithAffectedFile s1 s2 affected :
  observablyEqual s1 s2 ->
  match doneWithAffectedFile s1 affected, doneWithAffectedFile s2 affected with
  | Normal s1', Normal s2' => observablyEqual s1' s2'
  | Throw e1, Throw e2 => e1 = e2
  | _, _ => False
  end.
Proof.
  intros Heq. pose proof (observablyEqual_fields _ _ Heq) as Hf.
  destruct Heq as [_ Hidx].
  destruct s1, s2; cbn in *.
  destruct Hf as (-> & -> & -> & -> & -> & -> & -> & -> & ->).
  unfold doneWithAffectedFile. destruct affected; simpl_state.
  - destruct seenAffectedFiles1; [|done]. split; [done|]. cbn.
    intros Hs. by rewrite (Hidx Hs).
  - split; [done|]. cbn. done.
Qed.

Lemma observablyEqual_assert s1 s2 sourceFile :
  observablyEqual s1 s2 ->
  assertSourceFileOkWithoutNextAffectedCall s1 sourceFile
  = assertSourceFileOkWithoutNextAffectedCall s2 sourceFile.
Proof.
  intros Heq. destruct (affectedFiles s1) as [files|] eqn:Haf.
  - by rewrite (observablyEqual_batch s1 s2) by (rewrite ?Haf; eauto).
  - destruct (observablyEqual_fields _ _ Heq) as (_ & _ & _ & _ & Haf2 & _).
    unfold assertSourceFileOkWithoutNextAffectedCall. rewrite <- Haf2, Haf. done.
Qed.

Lemma observablyEqual_getSemanticDiagnosticsOfFile s1 s2 f :
  observablyEqual s1 s2 ->
  match getSemanticDiagnosticsOfFile s1 f, getSemanticDiagnosticsOfFile s2 f with
  | Normal (d1, s1'), Normal (d2, s2') => d1 = d2 /\ observablyEqual s1' s2'
  | Throw e1, Throw e2 => e1 = e2
  | _, _ => False
  end.
Proof.
  intros Heq. pose proof (observablyEqual_fields _ _ Heq) as Hf.
  destruct Heq as [_ Hidx].
  destruct s1, s2; cbn in *.
  destruct Hf as (-> & -> & -> & -> & -> & -> & -> & -> & ->).
  unfold getSemanticDiagnosticsOfFile; cbn.
  destruct semanticDiagnosticsPerFile1 as [cache|]; [|done].
  destruct (cache !! path f); (split; [done|]); split; done.
Qed.

(** *** Well-formed states *)

Lemma updateChangedFile_cache oldState canCopy infos refs acc entry :
  is_Some (updateChangedFile oldState canCopy infos refs acc entry).2 <-> is_Some acc.2.
Proof.
  unfold updateChangedFile. destruct entry as [p info].
  destruct (isChangedFile _ _ _ _ _); [done|].
  destruct canCopy; [|done].
  destruct (cachedDiagnosticsOf _ _); [|done].
  cbn. by rewrite fmap_is_Some.
Qed.

Lemma foldl_updateChangedFile_cache oldState canCopy infos refs entries acc :
  is_Some (foldl (updateChangedFile oldState canCopy infos refs) acc entries).2
  <-> is_Some acc.2.
Proof.
  revert acc. induction entries as [|e entries IH]; intros acc; cbn; [done|].
  by rewrite IH, updateChangedFile_cache.
Qed.

Lemma bundledOutput_cache (o : CompilerOptions) :
  negb (truthy (outFile o)) && negb (truthy (out o)) = negb (bundledOutput o).
Proof. unfold bundledOutput. by destruct (truthy _), (truthy _). Qed.

Lemma bind_Normal {A B} (c : Completion A) (k : A -> Completion B) b :
  c ≫= k = Normal b -> exists a, c = Normal a /\ k a = Normal b.
Proof. destruct c as [a|e]; cbn; [eauto|discriminate]. Qed.

(** The pieces of [createBuilderProgramState] when it returns. *)
Lemma createBuilderProgramState_Normal newProgram caseSensitive oldState s :
  createBuilderProgramState newProgram caseSensitive oldState = Normal s ->
  let state := BuilderState_create newProgram caseSensitive (toBuilderState <$> oldState) in
  let cache0 : option (gmap Path (list Diagnostic)) :=
    if negb (bundledOutput (getCompilerOptions newProgram)) then Some ∅ else None in
  exists used canCopy changed0,
    (if BuilderState_canReuseOldState (bs_referencedMap state) (toBuilderState <$> oldState)
     then used = oldState /\ is_Some oldState else used = None)
    /\ canCopy = match used with
                 | Some old =>
                     bool_decide (is_Some (semanticDiagnosticsPerFile old))
                     && bool_decide (is_Some cache0)
                 | None => false
                 end
    /\ match used with
       | Some old =>
           verifyOldState old canCopy = Normal tt
           /\ changed0 = copyEntries (changedFilesSet old) []
       | None => changed0 = []
       end
    /\ s = (let '(changed, cache) :=
              foldl (updateChangedFile used canCopy (bs_fileInfos state)
                       (bs_referencedMap state))
                    (changed0, cache0) (bs_fileInfos state) in
            mkState (bs_fileInfos state) (bs_referencedMap state) cache changed
              None None None None None newProgram).
Proof.
  unfold createBuilderProgramState. rewrite bundledOutput_cache.
  intros H. apply bind_Normal in H as (used & Hused & H).
  apply bind_Normal in H as (changed0 & Hchanged & H).
  exists used, (match used with
                | Some old =>
                    bool_decide (is_Some (semanticDiagnosticsPerFile old))
                    && bool_decide
                         (is_Some
                            (if negb (bundledOutput (getCompilerOptions newProgram))
                             then Some (∅ : gmap Path (list Diagnostic)) else None))
                | None => false
                end), changed0.
  split; [|split; [done|split]].
  - destruct (BuilderState_canReuseOldState _ _).
    + destruct oldState; [|discriminate]. injection Hused as <-. eauto.
    + by injection Hused as <-.
  - destruct used as [old|].
    + apply bind_Normal in Hchanged as ([] & Hv & Hc). by injection Hc as <-.
    + by injection Hchanged as <-.
  - destruct (foldl _ _ _) as [changed cache]. by injection H as <-.
Qed.

Lemma createBuilderProgramState_fields newProgram caseSensitive oldState s :
  createBuilderProgramState newProgram caseSensitive oldState = Normal s ->
  program s = newProgram /\ affectedFiles s = None
  /\ currentAffectedFilesSignatures s = None /\ seenAffectedFiles s = None
  /\ (is_Some (semanticDiagnosticsPerFile s)
      <-> bundledOutput (getCompilerOptions newProgram) = false).
Proof.
  intros H. apply createBuilderProgramState_Normal in H
    as (used & canCopy & changed0 & _ & _ & _ & ->).
  match goal with
  | |- context [foldl (updateChangedFile _ _ ?infos ?refs) ?a ?l] =>
      pose proof (foldl_updateChangedFile_cache used canCopy infos refs l a) as Hfold;
      destruct (foldl (updateChangedFile used canCopy infos refs) a l) as [changed cache]
  end.
  cbn in *. repeat split; try done.
  - intros Hc. apply Hfold in Hc. destruct (bundledOutput _); [by destruct Hc|done].
  - intros Hb. apply Hfold. rewrite Hb. cbn. eauto.
Qed.

Lemma createBuilderProgramState_wellFormed newProgram caseSensitive oldState s :
  createBuilderProgramState newProgram caseSensitive oldState = Normal s ->
  wellFormed s.
Proof.
  intros H. apply createBuilderProgramState_fields in H
    as (Hp & Haf & Hsig & Hseen & Hcache).
  rewrite <- Hp in Hcache. split.
  - intros Hb. split; [|done].
    destruct (semanticDiagnosticsPerFile s) eqn:Hc; [|done].
    assert (bundledOutput (getCompilerOptions (program s)) = false)
      by (apply Hcache; eauto). congruence.
  - intros Hb. by apply Hcache.
  - rewrite Haf. by intros [? ?].
  - intros _. unfold noPendingSignatures. by rewrite Hsig.
Qed.

Lemma wellFormed_batch_perFile s :
  wellFormed s -> is_Some (affectedFiles s) ->
  bundledOutput (getCompilerOptions (program s)) = false.
Proof.
  intros Hwf [files Haf].
  destruct (bundledOutput _) eqn:Hb; [|done].
  destruct (wf_bundled _ Hwf Hb) as [_ Hn]. congruence.
Qed.

Lemma nextChangedFile_wellFormed s :
  wellFormed s -> affectedFiles s = None -> goodStep (nextChangedFile s).
Proof.
  intros Hwf Haf. unfold nextChangedFile.
  destruct (changedFilesSet s) as [|nextKey rest] eqn:Hc.
  { cbn. split; [done|]. split; [done|]. intros _. split; [done|]. split; [done|].
    by apply (wf_idle _ Hwf). }
  destruct (bundledOutput _) eqn:Hb.
  - destruct (wf_bundled _ Hwf Hb) as [-> _]. cbn. split; [done|]. split; [done|]. done.
  - simpl_state.
    destruct (BuilderState_getFilesAffectedBy _ _ _ _) as [files signatures].
    simpl_state.
    destruct (wf_cache _ Hwf Hb) as [cache ->]. cbn.
    split; simpl_state; rewrite ?Hb, ?Hc; try done.
    all: intros _; eauto 10.
Qed.

Lemma commitBatch_wellFormed s :
  wellFormed s -> is_Some (affectedFiles s) ->
  exists s', commitBatch s = Normal s' /\ wellFormed s' /\ affectedFiles s' = None.
Proof.
  intros Hwf Haf. pose proof (wellFormed_batch_perFile _ Hwf Haf) as Hb.
  destruct (wf_batch _ Hwf Haf) as (_ & [signatures Hsig] & _).
  unfold commitBatch. simpl_state. rewrite Hsig.
  eexists. split; [done|]. split; [|done].
  split; simpl_state; try done.
  all: try (by intros [? ?]); try (rewrite Hb; done); try (intros _; by apply (wf_cache _ Hwf)).
Qed.

Lemma wellFormed_set_seen s seen :
  wellFormed s -> wellFormed (set_seenAffectedFiles (Some seen) s).
Proof.
  intros [H1 H2 H3 H4]. split; cbn; try done.
  intros Haf. destruct (H3 Haf) as (_ & ? & ?). eauto.
Qed.

Lemma getNextAffectedFile_body_wellFormed s :
  wellFormed s -> goodStep (getNextAffectedFile_body s).
Proof.
  intros Hwf. unfold getNextAffectedFile_body.
  assert (Hcommit : forall s0, wellFormed s0 -> is_Some (affectedFiles s0) ->
            goodStep match commitBatch s0 with
                     | Normal s1 => nextChangedFile s1
                     | Throw e => Raise e
                     end).
  { intros s0 Hwf0 Haf0.
    destruct (commitBatch_wellFormed _ Hwf0 Haf0) as (s1 & -> & Hwf1 & Haf1).
    by apply nextChangedFile_wellFormed. }
  destruct (affectedFiles s) as [files|] eqn:Haf;
    [|by apply nextChangedFile_wellFormed].
  assert (Hsome : is_Some (affectedFiles s)) by (rewrite Haf; eauto).
  destruct (filesFromCursor s files) as [|f0 remaining] eqn:Hrem; [by apply Hcommit|].
  destruct (wf_batch _ Hwf Hsome) as ([seen Hseen] & Hsig & Hroot). rewrite Hseen.
  destruct (scanAffectedFiles _ _ _) as [[index seen'] found] eqn:Hscan.
  destruct found as [f|]; [|apply Hcommit; [by apply wellFormed_set_seen|done]].
  simpl_state.
  destruct (wf_cache _ Hwf (wellFormed_batch_perFile _ Hwf Hsome)) as [cache ->].
  apply scanAffectedFiles_found in Hscan as (k & -> & Hk & Hf).
  unfold filesFromCursor in Hrem. destruct (affectedFilesIndex s) as [i|]; [|discriminate].
  rewrite <- Hrem, lookup_drop in Hk. cbn [default].
  destruct Hwf as [H1 H2 H3 H4].
  split; [|split; [|done]].
  - split; simpl_state; try done.
    all: try (intros Hb; destruct (H1 Hb) as [_ ?]; congruence).
    all: try (intros _; destruct (H3 Hsome) as (_ & ? & ?); by eauto).
    all: try (rewrite Haf; done).
  - cbn. exists files, (i + k). rewrite Haf. done.
Qed.

(** In a well-formed state [getNextAffectedFile] does not throw. *)
Lemma getNextAffectedFile_wellFormed s :
  wellFormed s ->
  exists result s',
    getNextAffectedFile s = Some (Normal (result, s'))
    /\ wellFormed s' /\ pendingOk s' result
    /\ (result = None ->
        changedFilesSet s' = [] /\ affectedFiles s' = None /\ noPendingSignatures s').
Proof.
  intros Hwf. destruct (getNextAffectedFile_total s) as [c Hc].
  revert Hwf.
  apply (getNextAffectedFile_ind
           (fun s c => wellFormed s ->
              exists result s',
                getNextAffectedFile s = Some (Normal (result, s'))
                /\ wellFormed s' /\ pendingOk s' result
                /\ (result = None ->
                    changedFilesSet s' = [] /\ affectedFiles s' = None
                    /\ noPendingSignatures s')))
    with (s := s) (c := c); [| | |done].
  - intros s0 r s' Hb Hwf. pose proof (getNextAffectedFile_body_wellFormed _ Hwf) as Hg.
    rewrite Hb in Hg. exists r, s'. split; [|done].
    rewrite getNextAffectedFile_unfold, Hb. done.
  - intros s0 e Hb Hwf. pose proof (getNextAffectedFile_body_wellFormed _ Hwf) as Hg.
    rewrite Hb in Hg. done.
  - intros s0 s' c' Hb _ IH Hwf.
    pose proof (getNextAffectedFile_body_wellFormed _ Hwf) as Hg.
    rewrite Hb in Hg. destruct (IH Hg) as (r & s2 & Hn & Hrest).
    exists r, s2. split; [|done]. rewrite getNextAffectedFile_unfold, Hb. done.
Qed.

Lemma doneWithAffectedFile_wellFormed s affected :
  wellFormed s -> pendingOk s (Some affected) ->
  exists s', doneWithAffectedFile s affected = Normal s' /\ wellFormed s'.
Proof.
  intros Hwf Hp. unfold doneWithAffectedFile. destruct affected as [f|]; cbn in Hp.
  - destruct Hp as (files & i & Haf & Hi & Hf).
    assert (Hsome : is_Some (affectedFiles s)) by (rewrite Haf; eauto).
    destruct (wf_batch _ Hwf Hsome) as ([seen ->] & Hsig & Hroot).
    eexists. split; [done|].
    destruct Hwf as [H1 H2 H3 H4]. split; simpl_state; try done.
    all: intros _; destruct (H3 Hsome) as (_ & ? & ?); eauto.
  - eexists. split; [done|].
    destruct (wf_bundled _ Hwf Hp) as [Hc Haf].
    destruct Hwf as [H1 H2 H3 H4]. split; simpl_state; try done.
    all: rewrite Haf; by intros [? ?].
Qed.

Lemma getSemanticDiagnosticsOfFile_wellFormed s f d s' pending :
  wellFormed s -> pendingOk s pending ->
  getSemanticDiagnosticsOfFile s f = Normal (d, s') ->
  wellFormed s' /\ pendingOk s' pending.
Proof.
  intros Hwf Hp. unfold getSemanticDiagnosticsOfFile.
  destruct (semanticDiagnosticsPerFile s) as [cache|] eqn:Hc; [|discriminate].
  destruct (cache !! path f); intros [= <- <-]; [done|].
  split.
  - destruct Hwf as [H1 H2 H3 H4]. split; simpl_state; try done.
    all: try (intros Hb; destruct (H1 Hb); congruence).
    all: intros _; eauto.
  - destruct pending as [[g|]|]; cbn in *; done.
Qed.

Lemma reachable_wellFormed s pending :
  reachable s pending -> wellFormed s /\ pendingOk s pending.
Proof.
  induction 1 as [newProgram caseSensitive oldState s Hc
                 |s pending result s' _ [IHwf IHp] Hn
                 |s affected s' _ [IHwf IHp] Hd
                 |s pending f d s' _ [IHwf IHp] Hg].
  - split; [by eapply createBuilderProgramState_wellFormed|done].
  - destruct (getNextAffectedFile_wellFormed _ IHwf) as (r & s2 & Hn2 & Hwf2 & Hp2 & _).
    rewrite Hn in Hn2. by simplify_eq.
  - destruct (doneWithAffectedFile_wellFormed _ _ IHwf IHp) as (s2 & Hd2 & Hwf2).
    rewrite Hd in Hd2. by simplify_eq.
  - by eapply getSemanticDiagnosticsOfFile_wellFormed.
Qed.

(** *** Termination of the iteration *)

Lemma closerToDone_ind (P : BuilderProgramState -> Prop) :
  (forall s, (forall s', closerToDone s' s -> P s') -> P s) -> forall s, P s.
Proof.
  intros Hstep.
  assert (H : forall a b s, batchesLeft s = a -> filesLeft s = b -> P s).
  { intros a. induction (lt_wf a) as [a _ IHa].
    intros b. induction (lt_wf b) as [b _ IHb].
    intros s Ha Hb. apply Hstep. intros s' [Hlt|[Heq Hlt]].
    - eapply (IHa (batchesLeft s')); [lia|done..].
    - eapply (IHb (filesLeft s')); [lia|congruence|done]. }
  intros s. by eapply H.
Qed.

Lemma nextChangedFile_progress s :
  affectedFiles s = None ->
  match nextChangedFile s with
  | Return (Some (AffectedFile _)) _ => False
  | Return (Some AffectedProgram) s1 =>
      s1 = s /\ changedFilesSet s <> []
  | Continue s' => is_Some (affectedFiles s') /\ changedFilesSet s' = changedFilesSet s
  | _ => True
  end.
Proof.
  intros Haf. unfold nextChangedFile.
  destruct (changedFilesSet s) as [|nextKey rest] eqn:Hc; [done|].
  destruct (bundledOutput _).
  { destruct (semanticDiagnosticsPerFile s); done. }
  destruct (BuilderState_getFilesAffectedBy _ _ _ _) as [files signatures].
  simpl_state. destruct (semanticDiagnosticsPerFile s); [|done].
  simpl_state. eauto.
Qed.

Lemma getNextAffectedFile_body_progress s :
  wellFormed s -> progressStep s (getNextAffectedFile_body s).
Proof.
  intros Hwf. unfold getNextAffectedFile_body.
  assert (Hcommit : forall s0, wellFormed s0 -> is_Some (affectedFiles s0) ->
            changedFilesSet s0 = changedFilesSet s ->
            is_Some (affectedFiles s) ->
            progressStep s match commitBatch s0 with
                           | Normal s1 => nextChangedFile s1
                           | Throw e => Raise e
                           end).
  { intros s0 Hwf0 Haf0 Hc0 [files Haf].
    destruct (wf_batch _ Hwf0 Haf0) as (_ & _ & root & rest & Hroot & Hch).
    destruct (commitBatch s0) as [s1|] eqn:Hcb; [|done].
    apply commitBatch_changed in Hcb as [Hch1 Haf1].
    pose proof (nextChangedFile_progress s1 Haf1) as Hn.
    assert (Hlt : length (changedFilesSet s1) < length (changedFilesSet s)).
    { rewrite Hch1, <- Hc0, Hroot, Hch. apply mapDelete_head_length. }
    destruct (nextChangedFile s1) as [[[f|]|] s2|s2|e]; cbn; try done.
    - destruct Hn as [-> Hne]. split; [done|]. split; [done|]. lia.
    - destruct Hn as [[files2 Haf2] Hc2]. unfold batchesLeft.
      rewrite Haf, Haf2, Hc2. lia. }
  destruct (affectedFiles s) as [files|] eqn:Haf.
  2:{ pose proof (nextChangedFile_progress s Haf) as Hn.
      destruct (nextChangedFile s) as [[[f|]|] s2|s2|e]; cbn; try done.
      - by destruct Hn as [-> Hne].
      - destruct Hn as [[files2 Haf2] Hc2]. unfold batchesLeft.
        rewrite Haf, Haf2, Hc2. lia. }
  assert (Hsome : is_Some (affectedFiles s)) by (rewrite Haf; eauto).
  destruct (filesFromCursor s files) as [|f0 remaining] eqn:Hrem.
  { apply Hcommit; done. }
  destruct (wf_batch _ Hwf Hsome) as ([seen Hseen] & Hsig & Hroot). rewrite Hseen.
  destruct (scanAffectedFiles _ _ _) as [[index seen'] found] eqn:Hscan.
  destruct found as [f|].
  2:{ apply Hcommit; try done. by apply wellFormed_set_seen. }
  simpl_state.
  destruct (wf_cache _ Hwf (wellFormed_batch_perFile _ Hwf Hsome)) as [cache ->].
  apply scanAffectedFiles_found in Hscan as (k & -> & Hk & Hf).
  unfold filesFromCursor in Hrem. destruct (affectedFilesIndex s) as [i|] eqn:Hi; [|discriminate].
  rewrite <- Hrem, lookup_drop in Hk. cbn [default]. unfold id.
  cbn. split; [done|]. exists files, i, (i + k). rewrite Haf, Hi.
  apply lookup_lt_Some in Hk. repeat split; try done; lia.
Qed.

Lemma getNextAffectedFile_progress s affected s1 s2 :
  wellFormed s ->
  getNextAffectedFile s = Some (Normal (Some affected, s1)) ->
  doneWithAffectedFile s1 affected = Normal s2 ->
  closerToDone s2 s.
Proof.
  intros Hwf Hn Hd.
  refine (getNextAffectedFile_ind
            (fun s c => wellFormed s -> forall affected s1 s2,
               c = Normal (Some affected, s1) ->
               doneWithAffectedFile s1 affected = Normal s2 ->
               closerToDone s2 s) _ _ _ s _ Hn Hwf affected s1 s2 eq_refl Hd);
    clear.
  - intros s0 r s' Hb Hwf a s3 s4 [= -> ->] Hd.
    pose proof (getNextAffectedFile_body_progress _ Hwf) as Hp. rewrite Hb in Hp.
    unfold doneWithAffectedFile in Hd. destruct a as [f|]; cbn in Hp.
    + destruct Hp as (Hc & files & i & j & Haf & Haf3 & Hi & Hj & Hij).
      destruct (seenAffectedFiles s3); [|discriminate]. injection Hd as <-.
      right. unfold batchesLeft, filesLeft. simpl_state.
      rewrite Hc, Haf, Haf3, Hi, Hj. cbn. split; [done|]. lia.
    + destruct Hp as (Haf & Hne & Hle). injection Hd as <-.
      left. unfold batchesLeft. simpl_state. rewrite Haf.
      destruct (changedFilesSet s3); [done|]. cbn [length] in *.
      destruct (affectedFiles s0); simpl; lia.
  - done.
  - intros s0 s' c Hb _ IH Hwf a s3 s4 -> Hd.
    pose proof (getNextAffectedFile_body_wellFormed _ Hwf) as Hg. rewrite Hb in Hg.
    pose proof (getNextAffectedFile_body_progress _ Hwf) as Hp. rewrite Hb in Hp.
    unfold progressStep in Hp. specialize (IH Hg _ _ _ eq_refl Hd).
    left. destruct IH as [?|[? ?]]; lia.
Qed.

Lemma handleAffectedFiles_wellFormed s :
  wellFormed s ->
  exists fuel s',
    handleAffectedFiles fuel s = Some (Normal s')
    /\ changedFilesSet s' = [] /\ affectedFiles s' = None /\ noPendingSignatures s'.
Proof.
  induction s as [s IH] using closerToDone_ind. intros Hwf.
  destruct (getNextAffectedFile_wellFormed _ Hwf) as (r & s1 & Hn & Hwf1 & Hp1 & Hend).
  destruct r as [affected|].
  - destruct (doneWithAffectedFile_wellFormed _ _ Hwf1 Hp1) as (s2 & Hd & Hwf2).
    destruct (IH s2 (getNextAffectedFile_progress _ _ _ _ Hwf Hn Hd) Hwf2)
      as (fuel & s' & Hh & Hfinal).
    exists (S fuel), s'. split; [|done].
    cbn [handleAffectedFiles]. rewrite Hn. cbn [andThen]. rewrite Hd. done.
  - exists 1, s1. split; [|by apply Hend]. cbn [handleAffectedFiles]. rewrite Hn. done.
Qed.

(** C4. Exhaustion: in every state the builder can be in, the initial ones
    included, calling [getNextAffectedFile] and [doneWithAffectedFile] on each
    item it returns comes to an end with [getNextAffectedFile] returning
    [undefined]; [changedFilesSet] is then empty, [affectedFiles] is
    [undefined] and no signature is pending. *)
Theorem exhaustion s pending :
  reachable s pending ->
  exists fuel s',
    handleAffectedFiles fuel s = Some (Normal s')
    /\ changedFilesSet s' = [] /\ affectedFiles s' = None /\ noPendingSignatures s'.
Proof.
  intros Hr. apply handleAffectedFiles_wellFormed.
  by destruct (reachable_wellFormed _ _ Hr).
Qed.

(** *** Bundled output *)

(** C5. Whole-program collapse: when [outFile] or [out] is set,
    [getNextAffectedFile] returns the program exactly when [changedFilesSet]
    is not empty and [undefined] when it is empty, in both cases without
    changing the state, and [doneWithAffectedFile] on the program empties
    [changedFilesSet]. *)
Theorem whole_program_collapse s pending :
  reachable s pending ->
  bundledOutput (getCompilerOptions (program s)) = true ->
  ((exists s', getNextAffectedFile s = Some (Normal (Some AffectedProgram, s')))
   <-> changedFilesSet s <> [])
  /\ (changedFilesSet s <> [] ->
      getNextAffectedFile s = Some (Normal (Some AffectedProgram, s)))
  /\ (changedFilesSet s = [] -> getNextAffectedFile s = Some (Normal (None, s)))
  /\ exists s', doneWithAffectedFile s AffectedProgram = Normal s'
                /\ changedFilesSet s' = [].
Proof.
  intros Hr Hb. destruct (reachable_wellFormed _ _ Hr) as [Hwf _].
  destruct (wf_bundled _ Hwf Hb) as [Hcache Haf].
  assert (Hbody : getNextAffectedFile_body s =
                  match changedFilesSet s with
                  | [] => Return None s
                  | _ :: _ => Return (Some AffectedProgram) s
                  end).
  { unfold getNextAffectedFile_body, nextChangedFile. rewrite Haf, Hb, Hcache.
    by destruct (changedFilesSet s). }
  rewrite getNextAffectedFile_unfold, Hbody.
  destruct (changedFilesSet s) as [|p rest] eqn:Hc.
  - split; [|split; [done|split; [done|]]].
    + split; [intros [s' [=]]|done].
    + eexists. split; [done|]. done.
  - split; [|split; [done|split; [done|]]].
    + split; [done|eauto].
    + eexists. split; [done|]. done.
Qed.

(** *** Signatures are committed when a batch drains *)

Lemma nextChangedFile_fileInfos s :
  match nextChangedFile s with
  | Return _ s' | Continue s' => fileInfos s' = fileInfos s
  | Raise _ => True
  end.
Proof.
  unfold nextChangedFile. destruct (changedFilesSet s); [done|].
  destruct (bundledOutput _); [by destruct (semanticDiagnosticsPerFile s)|].
  destruct (BuilderState_getFilesAffectedBy _ _ _ _). simpl_state.
  by destruct (semanticDiagnosticsPerFile s).
Qed.

Lemma commit_then_next_fileInfos s :
  match match commitBatch s with
        | Normal s1 => nextChangedFile s1
        | Throw e => Raise e
        end with
  | Return _ s' | Continue s' =>
      fileInfos s' =
      BuilderState_updateSignaturesFromCache (fileInfos s)
        (default ∅ (currentAffectedFilesSignatures s))
  | Raise _ => True
  end.
Proof.
  unfold commitBatch. simpl_state.
  destruct (currentAffectedFilesSignatures s) as [signatures|]; [|done].
  match goal with
  | |- context [nextChangedFile ?a] => pose proof (nextChangedFile_fileInfos a) as Hn
  end.
  destruct (nextChangedFile _); done.
Qed.

(** C6. Commit ordering: [doneWithAffectedFile] never touches [fileInfos];
    a turn of the loop of [getNextAffectedFile] changes [fileInfos] only when
    the cursor passes the end of [affectedFiles], and then by
    [updateSignaturesFromCache] on the pending signatures; so a call that
    finds the batch in progress not exhausted yields a file of it and leaves
    [fileInfos], hence every signature, and the pending signatures as they
    were. *)
Theorem commit_ordering s :
  (forall affected s', doneWithAffectedFile s affected = Normal s' ->
                       fileInfos s' = fileInfos s)
  /\ match getNextAffectedFile_body s with
     | Return _ s' | Continue s' =>
         fileInfos s' =
         if batchExhausted s
         then BuilderState_updateSignaturesFromCache (fileInfos s)
                (default ∅ (currentAffectedFilesSignatures s))
         else fileInfos s
     | Raise _ => True
     end
  /\ (forall result s',
        is_Some (affectedFiles s) -> batchExhausted s = false ->
        getNextAffectedFile s = Some (Normal (result, s')) ->
        (exists f, result = Some (AffectedFile f))
        /\ fileInfos s' = fileInfos s
        /\ currentAffectedFilesSignatures s' = currentAffectedFilesSignatures s).
Proof.
  split; [|split].
  - intros affected s'. unfold doneWithAffectedFile. destruct affected.
    + destruct (seenAffectedFiles s); [|discriminate]. by intros [= <-].
    + by intros [= <-].
  - unfold getNextAffectedFile_body, batchExhausted.
    destruct (affectedFiles s) as [files|]; [|apply nextChangedFile_fileInfos].
    destruct (filesFromCursor s files) as [|f0 remaining];
      [apply commit_then_next_fileInfos|].
    destruct (seenAffectedFiles s) as [seen|]; [|done].
    destruct (scanAffectedFiles _ _ _) as [[index seen'] found]. cbn [snd].
    destruct found as [f|].
    + rewrite bool_decide_eq_false_2 by done. simpl_state.
      by destruct (semanticDiagnosticsPerFile s).
    + rewrite bool_decide_eq_true_2 by done.
      apply (commit_then_next_fileInfos (set_seenAffectedFiles (Some seen') s)).
  - intros result s' [files Haf]. rewrite getNextAffectedFile_unfold.
    unfold getNextAffectedFile_body, batchExhausted. rewrite Haf.
    destruct (filesFromCursor s files) as [|f0 remaining]; [discriminate|].
    destruct (seenAffectedFiles s) as [seen|]; [|discriminate].
    destruct (scanAffectedFiles _ _ _) as [[index seen'] found]. cbn [snd].
    destruct found as [f|]; [|by rewrite bool_decide_eq_true_2].
    intros _. simpl_state.
    destruct (semanticDiagnosticsPerFile s); [|discriminate].
    intros [= <- <-]. eauto.
Qed.

(** *** The seen set *)

Lemma nextChangedFile_seenPaths s :
  match nextChangedFile s with
  | Return _ s' | Continue s' => seenPaths s' = seenPaths s
  | Raise _ => True
  end.
Proof.
  unfold nextChangedFile. destruct (changedFilesSet s); [done|].
  destruct (bundledOutput _); [by destruct (semanticDiagnosticsPerFile s)|].
  destruct (BuilderState_getFilesAffectedBy _ _ _ _). simpl_state.
  destruct (semanticDiagnosticsPerFile s); [|done].
  unfold seenPaths. simpl_state. by destruct (seenAffectedFiles s).
Qed.

Lemma commit_then_next_seenPaths s :
  match match commitBatch s with
        | Normal s1 => nextChangedFile s1
        | Throw e => Raise e
        end with
  | Return _ s' | Continue s' => seenPaths s' = seenPaths s
  | Raise _ => True
  end.
Proof.
  unfold commitBatch. simpl_state.
  destruct (currentAffectedFilesSignatures s) as [signatures|]; [|done].
  match goal with
  | |- context [nextChangedFile ?a] => pose proof (nextChangedFile_seenPaths a) as Hn
  end.
  destruct (nextChangedFile _); done.
Qed.

Lemma getNextAffectedFile_body_seenPaths s :
  match getNextAffectedFile_body s with
  | Return _ s' | Continue s' => seenPaths s' = seenPaths s
  | Raise _ => True
  end.
Proof.
  unfold getNextAffectedFile_body.
  destruct (affectedFiles s) as [files|]; [|apply nextChangedFile_seenPaths].
  destruct (filesFromCursor s files) as [|f0 remaining];
    [apply commit_then_next_seenPaths|].
  destruct (seenAffectedFiles s) as [seen|] eqn:Hseen; [|done].
  pose proof (scanAffectedFiles_seen (f0 :: remaining)
                (default 0 (affectedFilesIndex s)) seen) as Hs.
  destruct (scanAffectedFiles _ _ _) as [[index seen'] found]. cbn in Hs. subst seen'.
  destruct found as [f|].
  - simpl_state. destruct (semanticDiagnosticsPerFile s); [|done].
    unfold seenPaths. simpl_state. by rewrite Hseen.
  - pose proof (commit_then_next_seenPaths (set_seenAffectedFiles (Some seen) s)) as Hc.
    destruct (match commitBatch _ with Normal _ => _ | Throw _ => _ end); try done.
    all: rewrite Hc; unfold seenPaths; simpl_state; by rewrite Hseen.
Qed.

Lemma getNextAffectedFile_seenPaths s result s' :
  getNextAffectedFile s = Some (Normal (result, s')) -> seenPaths s' = seenPaths s.
Proof.
  intros Hn.
  refine (getNextAffectedFile_ind
            (fun s c => forall result s', c = Normal (result, s') ->
                                          seenPaths s' = seenPaths s)
            _ _ _ s _ Hn result s' eq_refl); clear.
  - intros s r s' Hb r' s'' [= <- <-].
    pose proof (getNextAffectedFile_body_seenPaths s) as H. by rewrite Hb in H.
  - done.
  - intros s s' c Hb _ IH r s'' ->.
    pose proof (getNextAffectedFile_body_seenPaths s) as H. rewrite Hb in H.
    rewrite <- H. by eapply IH.
Qed.

(** C8, amended. [seenAffectedFiles] is not emptied when a batch drains, so
    it is no subset of the current [affectedFiles]; what holds in every
    reachable state is that [getNextAffectedFile] and a diagnostics query
    leave its paths as they are, and that [doneWithAffectedFile] on the file
    yielded last adds the path of that file only, a file of the current
    [affectedFiles]. *)
Theorem seenAffectedFiles_growth s pending :
  reachable s pending ->
  (forall result s', getNextAffectedFile s = Some (Normal (result, s')) ->
                     seenPaths s' = seenPaths s)
  /\ (forall f d s', getSemanticDiagnosticsOfFile s f = Normal (d, s') ->
                     seenPaths s' = seenPaths s)
  /\ (forall f, pending = Some (AffectedFile f) ->
        exists s' files,
          doneWithAffectedFile s (AffectedFile f) = Normal s'
          /\ seenPaths s' = {[path f]} ∪ seenPaths s
          /\ affectedFiles s = Some files /\ f ∈ files).
Proof.
  intros Hr. destruct (reachable_wellFormed _ _ Hr) as [Hwf Hp].
  split; [|split].
  - intros result s'. apply getNextAffectedFile_seenPaths.
  - intros f d s'. unfold getSemanticDiagnosticsOfFile.
    destruct (semanticDiagnosticsPerFile s) as [cache|]; [|discriminate].
    destruct (cache !! path f); by intros [= <- <-].
  - intros f ->. cbn in Hp. destruct Hp as (files & i & Haf & Hi & Hf).
    assert (Hsome : is_Some (affectedFiles s)) by (rewrite Haf; eauto).
    destruct (wf_batch _ Hwf Hsome) as ([seen Hseen] & _).
    unfold doneWithAffectedFile. rewrite Hseen.
    eexists _, files. split; [done|]. unfold seenPaths. simpl_state. rewrite Hseen.
    split; [done|]. split; [done|]. by eapply list_elem_of_lookup_2.
Qed.

(** *** The assertion of the facade *)

Lemma assert_fails_iff s f :
  assertSourceFileOkWithoutNextAffectedCall s (Some f) = Throw (AssertionFailure None)
  <-> assertionFails s f.
Proof.
  unfold assertSourceFileOkWithoutNextAffectedCall, assertionFails, hasDiagnostics.
  destruct (affectedFiles s) as [files|]; [|split; [done|by intros (? & ? & _)]].
  destruct (decide (fileBeforeCursor s files = Some f)) as [Heq|Hne].
  - rewrite bool_decide_eq_false_2 by (intros H; by apply H).
    destruct (semanticDiagnosticsPerFile s) as [cache|].
    + unfold Debug_assert. destruct (decide (is_Some (cache !! path f))) as [Hc|Hc].
      * rewrite bool_decide_eq_true_2 by done. cbn. split; [|done].
        intros _. exists files. eauto.
      * rewrite bool_decide_eq_false_2 by done. cbn. split; [done|].
        intros (? & [= <-] & _ & c & [= <-] & ?). done.
    + split; [done|]. intros (? & _ & _ & c & ? & _). done.
  - rewrite bool_decide_eq_true_2 by done. split; [done|].
    intros (? & [= <-] & ? & _). done.
Qed.

(** The inner loop passes seen files only. *)
Lemma scanAffectedFiles_skipped files i seen j seen' f k g :
  scanAffectedFiles files i seen = (j, seen', Some f) ->
  i + k < j -> files !! k = Some g -> path g ∈ seen.
Proof.
  revert i seen k. induction files as [|h files IH]; intros i seen k; cbn;
    [discriminate|].
  destruct (decide (path h ∈ seen)) as [Hin|Hnin].
  - rewrite seen_again by done. intros Hs Hlt Hk.
    destruct k as [|k]; [by injection Hk as <-|].
    apply (IH (S i) seen k); [done|lia|done].
  - intros [= <- <- <-] Hlt. lia.
Qed.

Lemma nextChangedFile_prefixSeen s :
  affectedFiles s = None ->
  match nextChangedFile s with
  | Return _ s' | Continue s' => prefixSeen s'
  | Raise _ => True
  end.
Proof.
  intros Haf. unfold nextChangedFile.
  destruct (changedFilesSet s); [intros ? ? ? ? ? ?; congruence|].
  destruct (bundledOutput _).
  { destruct (semanticDiagnosticsPerFile s); [done|]. intros ? ? ? ? ? ?; congruence. }
  destruct (BuilderState_getFilesAffectedBy _ _ _ _) as [affected signatures].
  simpl_state. destruct (semanticDiagnosticsPerFile s) as [cache|]; [|done].
  intros files i seen j g _ Hi _ Hlt. simpl_state. injection Hi as <-. lia.
Qed.

Lemma commit_then_next_prefixSeen s :
  match match commitBatch s with
        | Normal s1 => nextChangedFile s1
        | Throw e => Raise e
        end with
  | Return _ s' | Continue s' => prefixSeen s'
  | Raise _ => True
  end.
Proof.
  destruct (commitBatch s) as [s1|e] eqn:Hc; [|done].
  apply nextChangedFile_prefixSeen. by apply commitBatch_changed in Hc as [_ ?].
Qed.

Lemma getNextAffectedFile_body_prefixSeen s :
  prefixSeen s ->
  match getNextAffectedFile_body s with
  | Return _ s' | Continue s' => prefixSeen s'
  | Raise _ => True
  end.
Proof.
  intros Hps. unfold getNextAffectedFile_body.
  destruct (affectedFiles s) as [files|] eqn:Haf; [|by apply nextChangedFile_prefixSeen].
  destruct (filesFromCursor s files) as [|f0 remaining] eqn:Hrem;
    [apply commit_then_next_prefixSeen|].
  destruct (seenAffectedFiles s) as [seen|] eqn:Hseen; [|done].
  pose proof (scanAffectedFiles_seen (f0 :: remaining)
                (default 0 (affectedFilesIndex s)) seen) as Hs.
  destruct (scanAffectedFiles _ _ _) as [[index seen'] found] eqn:Hscan.
  cbn in Hs. subst seen'.
  destruct found as [f|]; [|apply commit_then_next_prefixSeen].
  simpl_state. destruct (semanticDiagnosticsPerFile s) as [cache|]; [|done].
  unfold filesFromCursor in Hrem.
  destruct (affectedFilesIndex s) as [i|] eqn:Hi; [|discriminate].
  cbn [default] in Hscan. unfold id in Hscan.
  intros files' i' seen' j g. simpl_state. rewrite Haf.
  intros [= <-] [= <-] [= <-] Hlt Hj.
  destruct (decide (j < i)) as [Hji|Hji]; [by eapply (Hps files i seen j g)|].
  apply (scanAffectedFiles_skipped _ _ _ _ _ _ (j - i) g Hscan); [lia|].
  rewrite <- Hrem, lookup_drop. by replace (i + (j - i)) with j by lia.
Qed.

Lemma getNextAffectedFile_prefixSeen s result s' :
  prefixSeen s -> getNextAffectedFile s = Some (Normal (result, s')) -> prefixSeen s'.
Proof.
  intros Hps Hn.
  refine (getNextAffectedFile_ind
            (fun s c => prefixSeen s -> forall result s', c = Normal (result, s') ->
                                                          prefixSeen s')
            _ _ _ s _ Hn Hps result s' eq_refl); clear.
  - intros s r s' Hb Hps r' s'' [= <- <-].
    pose proof (getNextAffectedFile_body_prefixSeen s Hps) as H. by rewrite Hb in H.
  - done.
  - intros s s' c Hb _ IH Hps. apply IH.
    pose proof (getNextAffectedFile_body_prefixSeen s Hps) as H. by rewrite Hb in H.
Qed.

(** In every state a builder can be in, the files before the cursor have
    been seen, and the file yielded last is on the cursor and has not. *)
Lemma reachable_prefixSeen s pending :
  reachable s pending ->
  prefixSeen s /\ forall f, pending = Some (AffectedFile f) -> cursorOn s f.
Proof.
  induction 1 as [newProgram caseSensitive oldState s Hc
                 |s pending result s' _ [IHps IHc] Hn
                 |s affected s' _ [IHps IHc] Hd
                 |s pending f d s' _ [IHps IHc] Hg].
  - apply createBuilderProgramState_fields in Hc as (_ & Haf & _).
    split; [|done]. intros ? ? ? ? ? ?; congruence.
  - split; [by eapply getNextAffectedFile_prefixSeen|].
    intros f ->. by apply getNextAffectedFile_yield in Hn as [? _].
  - split; [|done]. unfold doneWithAffectedFile in Hd.
    destruct affected as [f|].
    2:{ injection Hd as <-. intros files i seen j g. simpl_state. apply IHps. }
    destruct (IHc f eq_refl) as (files & i & seen & Haf & Hi & Hf & Hseen & _).
    rewrite Hseen in Hd. injection Hd as <-.
    intros files' i' seen' j g. simpl_state. rewrite Haf, Hi.
    intros [= <-] [= <-] [= <-] Hlt Hj.
    destruct (decide (j = i)) as [->|Hne].
    + rewrite Hf in Hj. injection Hj as <-. apply elem_of_union_l.
      by apply elem_of_singleton.
    + apply elem_of_union_r. apply (IHps files i seen j g); try done. lia.
  - unfold getSemanticDiagnosticsOfFile in Hg.
    destruct (semanticDiagnosticsPerFile s) as [cache|]; [|discriminate].
    destruct (cache !! path f); injection Hg as _ <-; [done|].
    split; [intros files i seen j g; simpl_state; apply IHps|].
    intros g Hp. destruct (IHc g Hp) as (files & i & seen & ?).
    exists files, i, seen. by simpl_state.
Qed.

(** What the assertion of line 117 tests. The assertion that
    [getSemanticDiagnostics] makes for a given source file, and [emit] for a
    given target in the emit builder, fails exactly when a batch is in
    progress, the file is the very one before the cursor and the cache holds
    diagnostics for its path; both calls then throw, and the file is one that
    has been committed, never the one yielded last. For the file that
    [getNextAffectedFile] has yielded and that is not yet committed the
    assertion passes in every state a builder can be in, and
    [getSemanticDiagnostics] caches the diagnostics of that file. *)
Theorem assertion_on_file_before_cursor kind fuel s pending f :
  reachable s pending ->
  (assertSourceFileOkWithoutNextAffectedCall s (Some f) = Throw (AssertionFailure None)
   <-> assertionFails s f)
  /\ (assertionFails s f ->
      getSemanticDiagnostics kind fuel s (Some f) = Some (Throw (AssertionFailure None))
      /\ emit EmitAndSemanticDiagnosticsBuilderProgram fuel s (Some f)
         = Some (Throw (AssertionFailure None)))
  /\ (~ assertionFails s f ->
      assertSourceFileOkWithoutNextAffectedCall s (Some f) = Normal tt
      /\ emit EmitAndSemanticDiagnosticsBuilderProgram fuel s (Some f)
         = Some (Normal (Program_emit (program s) (Some f), s)))
  /\ (assertionFails s f ->
      path f ∈ seenPaths s /\ pending <> Some (AffectedFile f))
  /\ (pending = Some (AffectedFile f) ->
      assertSourceFileOkWithoutNextAffectedCall s (Some f) = Normal tt
      /\ exists d s',
           getSemanticDiagnostics kind fuel s (Some f) = Some (Normal (d, s'))
           /\ cachedDiagnosticsOf (Some s') (path f) = Some d).
Proof.
  intros Hr. destruct (reachable_wellFormed _ _ Hr) as [Hwf Hp].
  destruct (reachable_prefixSeen _ _ Hr) as [Hps Hcur].
  assert (Hpass : ~ assertionFails s f ->
                  assertSourceFileOkWithoutNextAffectedCall s (Some f) = Normal tt).
  { intros Hnf. rewrite <- assert_fails_iff in Hnf.
    unfold assertSourceFileOkWithoutNextAffectedCall in *.
    destruct (affectedFiles s) as [files|] eqn:Haf; [|done].
    destruct (bool_decide _); [done|].
    assert (Hsome : is_Some (affectedFiles s)) by (rewrite Haf; eauto).
    destruct (wf_cache _ Hwf (wellFormed_batch_perFile _ Hwf Hsome)) as [cache Hc].
    rewrite Hc in *. unfold Debug_assert in *. by destruct (negb _). }
  assert (Hseen : assertionFails s f ->
                  path f ∈ seenPaths s /\ pending <> Some (AffectedFile f)).
  { intros (files & Haf & Hbefore & _).
    assert (Hsome : is_Some (affectedFiles s)) by (rewrite Haf; eauto).
    destruct (wf_batch _ Hwf Hsome) as ([seen Hs] & _).
    unfold fileBeforeCursor in Hbefore.
    destruct (affectedFilesIndex s) as [[|i]|] eqn:Hi; try discriminate.
    assert (Hin : path f ∈ seen) by (apply (Hps files (S i) seen i f); try done; lia).
    split; [unfold seenPaths; by rewrite Hs|].
    intros Hpend. destruct (Hcur f Hpend) as (? & ? & seen' & _ & _ & _ & Hs' & Hnin).
    congruence. }
  split; [apply assert_fails_iff|]. split; [|split; [|split; [done|]]].
  - intros Hf. apply assert_fails_iff in Hf.
    unfold getSemanticDiagnostics, emit. by rewrite Hf.
  - intros Hnf. split; [by apply Hpass|]. unfold emit. by rewrite (Hpass Hnf).
  - intros Hpend.
    assert (Hnf : ~ assertionFails s f) by (intros Hf; by apply Hseen in Hf as [_ ?]).
    split; [by apply Hpass|].
    destruct (Hcur f Hpend) as (files & _ & _ & Haf & _).
    assert (Hsome : is_Some (affectedFiles s)) by (rewrite Haf; eauto).
    pose proof (wellFormed_batch_perFile _ Hwf Hsome) as Hb.
    destruct (wf_cache _ Hwf Hb) as [cache Hc].
    unfold getSemanticDiagnostics. rewrite (Hpass Hnf). cbn [andThen]. rewrite Hb.
    unfold getSemanticDiagnosticsOfFile, cachedDiagnosticsOf. rewrite Hc.
    destruct (cache !! path f) as [cached|] eqn:Hl.
    + exists cached, s. by rewrite Hc.
    + eexists _, _. split; [done|]. simpl_state. by rewrite lookup_insert_eq.
Qed.

(** *** The changed files of a new state *)

Lemma hasSameKeys_eq (map1 map2 : option (gset Path)) :
  hasSameKeys map1 map2 = true <-> map1 = map2.
Proof.
  unfold hasSameKeys. destruct map1 as [m1|], map2 as [m2|]; try done.
  - rewrite andb_true_iff, bool_decide_eq_true, negb_true_iff.
    split.
    + intros [Hsize Hall]. f_equal. apply set_subseteq_size_eq; [|lia].
      intros k Hk. destruct (decide (k ∈ m2)) as [|Hnk]; [done|].
      exfalso. apply not_true_iff_false in Hall. apply Hall.
      unfold forEachKey. apply existsb_exists. exists k.
      split; [by apply list_elem_of_In, elem_of_elements|].
      by rewrite bool_decide_eq_false_2.
    + intros [= ->]. split; [done|]. apply not_true_iff_false.
      unfold forEachKey. rewrite existsb_exists. intros (k & Hk & Hn).
      apply list_elem_of_In, elem_of_elements in Hk.
      by rewrite bool_decide_eq_true_2 in Hn.
Qed.

Lemma mapHas_true {V} (k : Path) (m : list (Path * V)) :
  mapHas k m = true <-> is_Some (mapGet k m).
Proof. unfold mapHas. by rewrite bool_decide_eq_true. Qed.

Lemma isChangedFile_spec used infos refs p info :
  isChangedFile used infos refs p info = true <->
  changedSinceOldState (bool_decide (is_Some used)) used infos refs p info.
Proof.
  unfold isChangedFile, changedSinceOldState.
  destruct used as [old|].
  2:{ split; [left; by rewrite bool_decide_eq_false_2 by (by intros [? ?])|done]. }
  rewrite bool_decide_eq_true_2 by eauto.
  destruct (mapGet p (fileInfos old)) as [oldInfo|] eqn:Hold.
  2:{ split; [|done]. intros _. right. exists old. eauto. }
  rewrite !orb_true_iff, !negb_true_iff, bool_decide_eq_false.
  rewrite <- not_true_iff_false, hasSameKeys_eq.
  split.
  - intros [[Hv|Hr]|Hdel]; right; exists old; (split; [done|]).
    + right; left. eauto.
    + right; right; left. done.
    + right; right; right.
      destruct (referencesOf refs p) as [references|]; [|done].
      unfold forEachKey in Hdel. apply existsb_exists in Hdel as (q & Hq & Hc).
      apply list_elem_of_In, elem_of_elements in Hq.
      apply andb_true_iff in Hc as [Hn Ho].
      apply negb_true_iff, not_true_iff_false in Hn. rewrite mapHas_true in Hn, Ho.
      exists references, q. split; [done|]. split; [done|]. split; [|done].
      destruct (mapGet q infos) eqn:Hg; [|done]. exfalso. apply Hn. eauto.
  - intros [?|(old' & [= <-] & [?|[(oi & Hoi & Hv)|[Hr|(references & q & Hr & Hq & Hn & Ho)]]])];
      [done|congruence|..].
    + left; left. congruence.
    + left; right. done.
    + right. rewrite Hr. unfold forEachKey. apply existsb_exists. exists q.
      split; [by apply list_elem_of_In, elem_of_elements|].
      apply andb_true_iff. split.
      * apply negb_true_iff, not_true_iff_false. rewrite mapHas_true, Hn. by intros [? ?].
      * by apply mapHas_true.
Qed.

Lemma elem_of_mapSet p k m : p ∈ mapSet k m <-> p = k \/ p ∈ m.
Proof.
  unfold mapSet. destruct (decide (k ∈ m)).
  - split; [auto|]. intros [->|?]; done.
  - rewrite elem_of_app, list_elem_of_singleton. tauto.
Qed.

Lemma elem_of_copyEntries p source target :
  p ∈ copyEntries source target <-> p ∈ source \/ p ∈ target.
Proof.
  unfold copyEntries. revert target.
  induction source as [|k source IH]; intros target; cbn.
  - rewrite elem_of_nil. tauto.
  - rewrite IH, elem_of_mapSet, elem_of_cons. tauto.
Qed.

Lemma elem_of_foldl_updateChangedFile used canCopy infos refs entries acc p :
  p ∈ (foldl (updateChangedFile used canCopy infos refs) acc entries).1 <->
  p ∈ acc.1
  \/ exists info, (p, info) ∈ entries /\ isChangedFile used infos refs p info = true.
Proof.
  revert acc. induction entries as [|[k info] entries IH]; intros acc; cbn [foldl].
  - split; [auto|]. intros [?|(info & Hin & _)]; [done|]. by apply elem_of_nil in Hin.
  - rewrite IH. unfold updateChangedFile.
    destruct (isChangedFile used infos refs k info) eqn:Hk; cbn [fst].
    + rewrite elem_of_mapSet. split.
      * intros [[->|?]|(i & Hi & Hc)]; [right|left|right]; try done.
        -- exists info. split; [apply elem_of_cons; auto|done].
        -- exists i. split; [apply elem_of_cons; auto|done].
      * intros [?|(i & Hi & Hc)]; [auto|].
        apply elem_of_cons in Hi as [[= -> ->]|Hi]; [auto|]. right. eauto.
    + assert (Hacc :
                 (if canCopy
                  then match cachedDiagnosticsOf used k with
                       | Some diagnostics =>
                           (acc.1, (fun m => <[k := diagnostics]> m) <$> acc.2)
                       | None => acc
                       end
                  else acc).1 = acc.1).
      { destruct canCopy; [|done]. by destruct (cachedDiagnosticsOf used k). }
      rewrite Hacc. split.
      * intros [?|(i & Hi & Hc)]; [auto|]. right. exists i.
        split; [apply elem_of_cons; auto|done].
      * intros [?|(i & Hi & Hc)]; [auto|].
        apply elem_of_cons in Hi as [[= -> ->]|Hi]; [congruence|]. right. eauto.
Qed.

(** C2, amended. A path is in [changedFilesSet] of the new state exactly
    when the old state is reused and has it in its [changedFilesSet], or it is
    a key of the new [fileInfos] and the old state is not reused, or lacks the
    path in its [fileInfos], or has another version of it, or has other
    references for it (set or absent), or has in its [fileInfos] a path that
    the file references and the new [fileInfos] lacks. *)
Theorem changedFilesSet_of_new_state newProgram caseSensitive oldState s p :
  createBuilderProgramState newProgram caseSensitive oldState = Normal s ->
  let useOldState :=
    BuilderState_canReuseOldState (referencedMap s) (toBuilderState <$> oldState) in
  p ∈ changedFilesSet s <->
  (useOldState = true /\ exists old, oldState = Some old /\ p ∈ changedFilesSet old)
  \/ (exists info,
        (p, info) ∈ fileInfos s
        /\ changedSinceOldState useOldState oldState (fileInfos s) (referencedMap s) p info).
Proof.
  intros H. apply createBuilderProgramState_Normal in H
    as (used & canCopy & changed0 & Hused & _ & Hchanged & ->).
  match goal with
  | |- context [foldl (updateChangedFile _ _ ?infos ?refs) ?a ?l] =>
      pose proof (elem_of_foldl_updateChangedFile used canCopy infos refs l a p) as Hfold;
      destruct (foldl (updateChangedFile used canCopy infos refs) a l) as [changed cache]
  end.
  cbn [fst] in Hfold. simpl_state. cbv zeta. rewrite Hfold. clear Hfold.
  destruct (BuilderState_canReuseOldState _ _).
  - destruct Hused as [-> [old ->]]. destruct Hchanged as [_ ->].
    rewrite elem_of_copyEntries, elem_of_nil.
    setoid_rewrite isChangedFile_spec. rewrite bool_decide_eq_true_2 by eauto.
    split.
    + intros [[?|[]]|?]; [left|right]; eauto.
    + intros [(_ & old' & [= <-] & ?)|?]; auto.
  - subst used changed0. rewrite elem_of_nil.
    setoid_rewrite isChangedFile_spec.
    rewrite bool_decide_eq_false_2 by (by intros [? ?]).
    split.
    + intros [[]|(info & Hin & _)]. right. exists info. split; [done|by left].
    + intros [[? _]|(info & Hin & _)]; [done|]. right. exists info. split; [done|by left].
Qed.

(** *** The cache of a new state

    The constructor itself keeps the cache and the changed files apart:
    once the assertion of line 74 has passed, no path of the new
    [changedFilesSet] gets a cache entry. The keys of [fileInfos], a [Map],
    are distinct. *)

Lemma verifyOldState_changed old p :
  verifyOldState old true = Normal tt ->
  p ∈ changedFilesSet old -> cachedDiagnosticsOf (Some old) p = None.
Proof.
  unfold verifyOldState. intros Hv Hp.
  apply bind_Normal in Hv as ([] & _ & Hv).
  unfold Debug_assert in Hv.
  destruct (negb (forEachKey _ _)) eqn:Hf; [|discriminate].
  apply negb_true_iff, not_true_iff_false in Hf.
  unfold cachedDiagnosticsOf.
  destruct (semanticDiagnosticsPerFile old) as [cache|]; [|done].
  destruct (cache !! p) eqn:Hc; [|done]. exfalso. apply Hf.
  unfold forEachKey. apply existsb_exists. exists p.
  split; [by apply list_elem_of_In|]. apply bool_decide_eq_true. rewrite Hc. eauto.
Qed.

Lemma foldl_updateChangedFile_lookup used canCopy infos refs entries changed0 cache0 p d :
  match (foldl (updateChangedFile used canCopy infos refs) (changed0, cache0) entries).2 with
  | Some cache => cache !! p = Some d
  | None => False
  end ->
  (exists cache, cache0 = Some cache /\ cache !! p = Some d)
  \/ (canCopy = true /\ cachedDiagnosticsOf used p = Some d
      /\ exists info, (p, info) ∈ entries
                      /\ isChangedFile used infos refs p info = false).
Proof.
  revert changed0 cache0.
  induction entries as [|[k info] entries IH]; intros changed0 cache0; cbn [foldl].
  - cbn [snd]. destruct cache0 as [cache|]; [eauto|done].
  - destruct (updateChangedFile used canCopy infos refs (changed0, cache0) (k, info))
      as [changed1 cache1] eqn:Hstep.
    intros H. apply IH in H as [(cache & -> & Hl)|(Hcc & Hd & i & Hi & Hch)].
    + unfold updateChangedFile in Hstep. cbn [fst snd] in Hstep.
      destruct (isChangedFile used infos refs k info) eqn:Hk;
        [injection Hstep as _ ->; eauto|].
      destruct canCopy; [|injection Hstep as _ ->; eauto].
      destruct (cachedDiagnosticsOf used k) as [dk|] eqn:Hdk;
        [|injection Hstep as _ ->; eauto].
      injection Hstep as _ Hc.
      destruct cache0 as [c0|]; [|discriminate]. injection Hc as <-.
      destruct (decide (k = p)) as [->|Hne].
      * rewrite lookup_insert_eq in Hl. injection Hl as ->.
        right. split; [done|]. split; [done|]. exists info.
        split; [apply elem_of_cons; auto|done].
      * rewrite lookup_insert_ne in Hl by done. eauto.
    + right. split; [done|]. split; [done|]. exists i.
      split; [apply elem_of_cons; auto|done].
Qed.

Lemma NoDup_keys_lookup {V} (entries : list (Path * V)) p v1 v2 :
  NoDup entries.*1 -> (p, v1) ∈ entries -> (p, v2) ∈ entries -> v1 = v2.
Proof.
  induction entries as [|[k v] entries IH]; intros Hnd H1 H2.
  { by apply elem_of_nil in H1. }
  rewrite fmap_cons in Hnd. apply NoDup_cons in Hnd as [Hk Hnd]. cbn [fst] in Hk.
  apply elem_of_cons in H1 as [[= -> ->]|H1], H2 as [[= <-]|H2]; try done.
  - exfalso. apply Hk. apply list_elem_of_fmap. by exists (k, v2).
  - simplify_eq. exfalso. apply Hk. apply list_elem_of_fmap. by exists (p, v1).
  - by apply IH.
Qed.

(** Cache purity of a new state. *)
Lemma createBuilderProgramState_pure newProgram caseSensitive oldState s p :
  createBuilderProgramState newProgram caseSensitive oldState = Normal s ->
  NoDup (fileInfos s).*1 ->
  p ∈ changedFilesSet s -> ~ hasDiagnostics s p.
Proof.
  intros H. apply createBuilderProgramState_Normal in H
    as (used & canCopy & changed0 & Hused & HcanCopy & Hchanged & ->).
  match goal with
  | |- context [foldl (updateChangedFile _ _ ?infos ?refs) (?c0, ?k0) ?l] =>
      pose proof (elem_of_foldl_updateChangedFile used canCopy infos refs l (c0, k0) p)
        as Hin;
      pose proof (fun d => foldl_updateChangedFile_lookup used canCopy infos refs l
                             c0 k0 p d) as Hlook;
      destruct (foldl (updateChangedFile used canCopy infos refs) (c0, k0) l)
        as [changed cache]
  end.
  cbn [fst snd] in *. simpl_state. intros Hnd Hp (c & [= ->] & [d Hd]).
  apply Hlook in Hd as [(c0 & Hc0 & Hl)|(Hcc & Hd & i & Hi & Hch)].
  { destruct (negb _); [|discriminate]. injection Hc0 as <-.
    by rewrite lookup_empty in Hl. }
  apply Hin in Hp as [Hp|(i' & Hi' & Hch')].
  - destruct used as [old|]; [|discriminate].
    destruct Hchanged as [Hv ->]. rewrite Hcc in Hv.
    apply elem_of_copyEntries in Hp as [Hp|Hp]; [|by apply elem_of_nil in Hp].
    rewrite (verifyOldState_changed _ _ Hv Hp) in Hd. discriminate.
  - rewrite (NoDup_keys_lookup _ _ _ _ Hnd Hi Hi') in Hch. congruence.
Qed.

(** *** The same program again *)

(** C10. When the old builder program's state is for the very program that
    is passed as the new one, [createBuilderProgram] returns the reference of
    the old builder program and leaves the store, hence the old state, as it
    is: no state is created and none of the checks of
    [createBuilderProgramState] is run. *)
Theorem createBuilderProgram_same_program store newProgram host reference kind builder :
  store !! reference = Some builder ->
  program (getState builder) = newProgram ->
  createBuilderProgram store newProgram host (Some reference) kind
  = Normal (reference, store).
Proof.
  intros Hl Hp. unfold createBuilderProgram. rewrite Hl. cbn.
  rewrite decide_True by done. done.
Qed.

(** *** The facade stays within the reachable states

    Every call of the facade that returns is a sequence of the steps of
    [reachable]; a call that is cancelled inside the program's diagnostics or
    emit leaves the state of the [getNextAffectedFile] before it. *)

Lemma reachable_emitNextAffectedFile s pending result s' :
  reachable s pending ->
  emitNextAffectedFile s = Some (Normal (result, s')) ->
  reachable s' None.
Proof.
  intros Hr. unfold emitNextAffectedFile.
  destruct (getNextAffectedFile s) as [[[affected s1]|e]|] eqn:Hn; cbn [andThen];
    [|discriminate..].
  pose proof (reach_next _ _ _ _ Hr Hn) as Hr1.
  destruct affected as [affected|]; [|by intros [= _ <-]].
  unfold toAffectedFileResult.
  destruct (doneWithAffectedFile s1 affected) as [s2|e] eqn:Hd; simpl_bind; [|discriminate].
  intros [= _ <-]. by eapply reach_done.
Qed.

Lemma reachable_emitAffectedFiles fuel s pending acc result s' :
  reachable s pending ->
  emitAffectedFiles fuel s acc = Some (Normal (result, s')) ->
  reachable s' None.
Proof.
  revert s pending acc. induction fuel as [|fuel IH]; intros s pending acc Hr;
    cbn [emitAffectedFiles]; [discriminate|].
  destruct (emitNextAffectedFile s) as [[[r s1]|e]|] eqn:He; cbn [andThen];
    [|discriminate..].
  pose proof (reachable_emitNextAffectedFile _ _ _ _ Hr He) as Hr1.
  destruct r as [[r affected]|]; [by apply (IH _ None)|by intros [= _ <-]].
Qed.

Lemma reachable_emit kind fuel s pending target result s' :
  reachable s pending ->
  emit kind fuel s target = Some (Normal (result, s')) ->
  exists pending', reachable s' pending'.
Proof.
  intros Hr. unfold emit. destruct kind.
  - intros [= _ <-]. eauto.
  - destruct (assertSourceFileOkWithoutNextAffectedCall s target); cbn [andThen];
      [|discriminate].
    destruct target; [intros [= _ <-]; eauto|].
    intros He. exists None. by eapply reachable_emitAffectedFiles.
Qed.

Lemma reachable_getSemanticDiagnosticsOfNextAffectedFile fuel s pending ignore result s' :
  reachable s pending ->
  getSemanticDiagnosticsOfNextAffectedFile fuel s ignore = Some (Normal (result, s')) ->
  reachable s' None.
Proof.
  revert s pending. induction fuel as [|fuel IH]; intros s pending Hr;
    cbn [getSemanticDiagnosticsOfNextAffectedFile]; [discriminate|].
  destruct (getNextAffectedFile s) as [[[affected s1]|e]|] eqn:Hn; cbn [andThen];
    [|discriminate..].
  pose proof (reach_next _ _ _ _ Hr Hn) as Hr1.
  destruct affected as [[f|]|]; [| |by intros [= _ <-]].
  - destruct (match ignore with Some i => i f | None => false end).
    + destruct (doneWithAffectedFile s1 (AffectedFile f)) as [s2|e] eqn:Hd;
        cbn [andThen]; [|discriminate].
      apply IH with (pending := None). by eapply reach_done.
    + destruct (getSemanticDiagnosticsOfFile s1 f) as [[d s2]|e] eqn:Hg; simpl_bind;
        [|discriminate].
      pose proof (reach_diagnostics _ _ _ _ _ Hr1 Hg) as Hr2.
      unfold toAffectedFileResult.
      destruct (doneWithAffectedFile s2 (AffectedFile f)) as [s3|e] eqn:Hd; simpl_bind;
        [|discriminate].
      intros [= _ <-]. by eapply reach_done.
  - unfold toAffectedFileResult.
    destruct (doneWithAffectedFile s1 AffectedProgram) as [s2|e] eqn:Hd; simpl_bind;
      [|discriminate].
    intros [= _ <-]. by eapply reach_done.
Qed.

Lemma reachable_handleAffectedFiles fuel s pending s' :
  reachable s pending ->
  handleAffectedFiles fuel s = Some (Normal s') ->
  reachable s' None.
Proof.
  revert s pending. induction fuel as [|fuel IH]; intros s pending Hr;
    cbn [handleAffectedFiles]; [discriminate|].
  destruct (getNextAffectedFile s) as [[[affected s1]|e]|] eqn:Hn; cbn [andThen];
    [|discriminate..].
  pose proof (reach_next _ _ _ _ Hr Hn) as Hr1.
  destruct affected as [affected|]; [|by intros [= <-]].
  destruct (doneWithAffectedFile s1 affected) as [s2|e] eqn:Hd; cbn [andThen];
    [|discriminate].
  apply IH with (pending := None). by eapply reach_done.
Qed.

Lemma reachable_diagnosticsOfSourceFiles files s pending acc result s' :
  reachable s pending ->
  diagnosticsOfSourceFiles files s acc = Normal (result, s') ->
  reachable s' pending.
Proof.
  revert s acc. induction files as [|f files IH]; intros s acc Hr;
    cbn [diagnosticsOfSourceFiles]; [by intros [= _ <-]|].
  destruct (getSemanticDiagnosticsOfFile s f) as [[d s1]|e] eqn:Hg; simpl_bind; [|discriminate].
  apply IH. by eapply reach_diagnostics.
Qed.

Lemma reachable_getSemanticDiagnostics kind fuel s pending sourceFile result s' :
  reachable s pending ->
  getSemanticDiagnostics kind fuel s sourceFile = Some (Normal (result, s')) ->
  exists pending', reachable s' pending'.
Proof.
  intros Hr. unfold getSemanticDiagnostics.
  destruct (assertSourceFileOkWithoutNextAffectedCall s sourceFile); cbn [andThen];
    [|discriminate].
  destruct (bundledOutput _).
  { destruct (Debug_assert _ _); simpl_bind; [|discriminate]. intros [= _ <-]. eauto. }
  destruct sourceFile as [f|].
  { intros [= Hg]. exists pending. by eapply reach_diagnostics. }
  destruct kind.
  - destruct (handleAffectedFiles fuel s) as [[s1|e]|] eqn:Hh; cbn [andThen];
      [|discriminate..].
    intros [= Hd]. exists None.
    eapply reachable_diagnosticsOfSourceFiles; [|done].
    by eapply reachable_handleAffectedFiles.
  - cbn [andThen]. intros [= Hd]. exists pending.
    by eapply reachable_diagnosticsOfSourceFiles.
Qed.

(** * Further properties of the code *)

(** ** hasSameKeys *)

(** X1. [hasSameKeys] holds exactly when both maps are [undefined] or both
    are maps with the same keys; a map, even an empty one, and [undefined]
    never have the same keys. *)
Theorem hasSameKeys_same_keys (map1 map2 : option (gset Path)) :
  hasSameKeys map1 map2 = true <->
  match map1, map2 with
  | None, None => True
  | Some m1, Some m2 => forall key, key ∈ m1 <-> key ∈ m2
  | _, _ => False
  end.
Proof.
  rewrite hasSameKeys_eq. destruct map1 as [m1|], map2 as [m2|]; try done.
  split; [by intros [= ->]|]. intros H. f_equal. by apply set_eq.
Qed.

(** ** getNextAffectedFile *)

(** X2. The [while (true)] of [getNextAffectedFile] ends in every state,
    the ill-formed ones included, within one turn more than there are changed
    files, and more turns allowed give the same outcome. *)
Theorem getNextAffectedFile_terminates s :
  exists outcome,
    getNextAffectedFile_loop (S (length (changedFilesSet s))) s = Some outcome
    /\ forall fuel outcome',
         getNextAffectedFile_loop fuel s = Some outcome' -> outcome' = outcome.
Proof.
  destruct (getNextAffectedFile_total s) as [outcome Ho]. exists outcome.
  split; [exact Ho|]. intros fuel outcome' Hf.
  apply getNextAffectedFile_loop_eq in Hf. congruence.
Qed.

(** X3. In a state the builder can be in, [getNextAffectedFile] returns
    without a failed assertion or a [TypeError], so does
    [doneWithAffectedFile] on the item yielded last, and with per-file output
    so does [getSemanticDiagnosticsOfFile] on any file. *)
Theorem reachable_calls_return s pending :
  reachable s pending ->
  (exists result s', getNextAffectedFile s = Some (Normal (result, s')))
  /\ (forall affected, pending = Some affected ->
        exists s', doneWithAffectedFile s affected = Normal s')
  /\ (bundledOutput (getCompilerOptions (program s)) = false ->
      forall f, exists d s', getSemanticDiagnosticsOfFile s f = Normal (d, s')).
Proof.
  intros Hr. destruct (reachable_wellFormed _ _ Hr) as [Hwf Hp].
  split; [|split].
  - destruct (getNextAffectedFile_wellFormed _ Hwf) as (r & s' & Hn & _). eauto.
  - intros affected ->.
    destruct (doneWithAffectedFile_wellFormed _ _ Hwf Hp) as (s' & Hd & _). eauto.
  - intros Hb f. destruct (wf_cache _ Hwf Hb) as [cache Hc].
    unfold getSemanticDiagnosticsOfFile. rewrite Hc.
    destruct (cache !! path f); eauto.
Qed.

(** X4. A file is yielded only while its path is not in
    [seenAffectedFiles], and it is a file of the batch in progress; once
    [doneWithAffectedFile] has committed it, the next call yields a file of
    another path. *)
Theorem yielded_file_is_unseen s f s' :
  getNextAffectedFile s = Some (Normal (Some (AffectedFile f), s')) ->
  (path f ∉ seenPaths s)
  /\ (exists files, affectedFiles s' = Some files /\ f ∈ files)
  /\ forall s1 g s2,
       doneWithAffectedFile s' (AffectedFile f) = Normal s1 ->
       getNextAffectedFile s1 = Some (Normal (Some (AffectedFile g), s2)) ->
       path g <> path f.
Proof.
  intros Hn.
  destruct (getNextAffectedFile_yield _ _ _ Hn)
    as ((files & i & seen & Haf & Hi & Hf & Hseen & Hnin) & _ & _).
  split; [|split].
  - rewrite <- (getNextAffectedFile_seenPaths _ _ _ Hn). unfold seenPaths.
    by rewrite Hseen.
  - exists files. split; [done|]. by eapply list_elem_of_lookup_2.
  - intros s1 g s2 Hd Hn2.
    destruct (getNextAffectedFile_yield _ _ _ Hn2)
      as ((files2 & i2 & seen2 & _ & _ & _ & Hseen2 & Hnin2) & _ & _).
    pose proof (getNextAffectedFile_seenPaths _ _ _ Hn2) as Hs.
    unfold doneWithAffectedFile in Hd. rewrite Hseen in Hd. injection Hd as <-.
    unfold seenPaths in Hs. simpl_state. rewrite Hseen2 in Hs. cbn in Hs. subst seen2.
    intros Heq. apply Hnin2. rewrite Heq. apply elem_of_union_l. by apply elem_of_singleton.
Qed.

(** ** createBuilderProgramState *)

(** [createBuilderProgramState_Normal] with the result of the [forEach]
    named. *)
Lemma createBuilderProgramState_parts newProgram caseSensitive oldState s :
  createBuilderProgramState newProgram caseSensitive oldState = Normal s ->
  let state := BuilderState_create newProgram caseSensitive (toBuilderState <$> oldState) in
  let cache0 : option (gmap Path (list Diagnostic)) :=
    if negb (bundledOutput (getCompilerOptions newProgram)) then Some ∅ else None in
  exists used canCopy changed0 changed cache,
    (if BuilderState_canReuseOldState (bs_referencedMap state) (toBuilderState <$> oldState)
     then used = oldState /\ is_Some oldState else used = None)
    /\ canCopy = match used with
                 | Some old =>
                     bool_decide (is_Some (semanticDiagnosticsPerFile old))
                     && bool_decide (is_Some cache0)
                 | None => false
                 end
    /\ match used with
       | Some old =>
           verifyOldState old canCopy = Normal tt
           /\ changed0 = copyEntries (changedFilesSet old) []
       | None => changed0 = []
       end
    /\ foldl (updateChangedFile used canCopy (bs_fileInfos state) (bs_referencedMap state))
         (changed0, cache0) (bs_fileInfos state) = (changed, cache)
    /\ s = mkState (bs_fileInfos state) (bs_referencedMap state) cache changed
             None None None None None newProgram.
Proof.
  intros H. apply createBuilderProgramState_Normal in H
    as (used & canCopy & changed0 & Hused & HcanCopy & Hchanged & ->).
  cbv zeta. exists used, canCopy, changed0.
  destruct (foldl _ _ _) as [changed cache]. exists changed, cache. done.
Qed.

Lemma copyEntries_fresh source target :
  NoDup source -> (forall k, k ∈ source -> k ∉ target) ->
  copyEntries source target = target ++ source.
Proof.
  unfold copyEntries. revert target.
  induction source as [|k source IH]; intros target Hnd Hfresh; cbn [foldl].
  { by rewrite app_nil_r. }
  apply NoDup_cons in Hnd as [Hk Hnd].
  unfold mapSet at 2. rewrite decide_False by (apply Hfresh, elem_of_cons; auto).
  rewrite IH; [by rewrite <- app_assoc|done|].
  intros k' Hk' Hin. apply elem_of_app in Hin as [Hin|Hin].
  - apply (Hfresh k'); [apply elem_of_cons; auto|done].
  - apply list_elem_of_singleton in Hin as ->. done.
Qed.

Lemma foldl_updateChangedFile_unused canCopy infos refs entries changed cache :
  foldl (updateChangedFile None canCopy infos refs) (changed, cache) entries
  = (copyEntries entries.*1 changed, cache).
Proof.
  revert changed. induction entries as [|[k info] entries IH]; intros changed; [done|].
  cbn [foldl]. unfold updateChangedFile at 2. cbn [isChangedFile fst snd]. by rewrite IH.
Qed.

(** X5. When the old state is not reused, as in a first build, every file of
    the new program is a changed file, in the order of [fileInfos], and the
    cache of diagnostics starts empty (or is absent with bundled output). *)
Theorem first_build_changes_every_file newProgram caseSensitive oldState s :
  createBuilderProgramState newProgram caseSensitive oldState = Normal s ->
  BuilderState_canReuseOldState (referencedMap s) (toBuilderState <$> oldState) = false ->
  NoDup (fileInfos s).*1 ->
  changedFilesSet s = (fileInfos s).*1
  /\ semanticDiagnosticsPerFile s
     = if bundledOutput (getCompilerOptions newProgram) then None else Some ∅.
Proof.
  intros H. apply createBuilderProgramState_parts in H
    as (used & canCopy & changed0 & changed & cache & Hused & _ & Hchanged & Hfold & ->).
  simpl_state. cbv zeta in *. intros Hno. rewrite Hno in Hused. subst used changed0.
  rewrite foldl_updateChangedFile_unused in Hfold. injection Hfold as <- <-.
  intros Hnd.
  split; [by apply copyEntries_fresh; [|intros k _; apply not_elem_of_nil]|].
  by destruct (bundledOutput _).
Qed.

(** X6. The new state keeps cache and changed files apart: a path of its
    [changedFilesSet] has no entry in its [semanticDiagnosticsPerFile]. *)
Theorem new_state_cache_is_pure newProgram caseSensitive oldState s p :
  createBuilderProgramState newProgram caseSensitive oldState = Normal s ->
  NoDup (fileInfos s).*1 ->
  p ∈ changedFilesSet s ->
  ~ hasDiagnostics s p.
Proof. apply createBuilderProgramState_pure. Qed.

Lemma verifyOldState_Normal old canCopy :
  verifyOldState old canCopy = Normal tt <->
  (truthy (currentChangedFilePath old) = true
   \/ (affectedFiles old = None /\ noPendingSignatures old))
  /\ (canCopy = true ->
      forall p, p ∈ changedFilesSet old -> ~ hasDiagnostics old p).
Proof.
  unfold verifyOldState, Debug_assert, noPendingSignatures, hasDiagnostics.
  assert (H1 : (if negb (truthy (currentChangedFilePath old))
                then if negb (bool_decide (is_Some (affectedFiles old)))
                        && match currentAffectedFilesSignatures old with
                           | Some signatures => bool_decide (size signatures = 0)
                           | None => true
                           end
                     then Normal tt
                     else Throw (AssertionFailure
                            (Some "Cannot reuse if only few affected files of currentChangedFile were iterated"))
                else Normal tt) = Normal tt
               <-> truthy (currentChangedFilePath old) = true
                   \/ (affectedFiles old = None
                       /\ match currentAffectedFilesSignatures old with
                          | Some signatures => signatures = ∅
                          | None => True
                          end)).
  { destruct (truthy (currentChangedFilePath old)); cbn [negb]; [split; auto|].
    destruct (affectedFiles old) as [files|].
    - rewrite bool_decide_eq_true_2 by eauto. cbn. split; [done|].
      intros [?|[? _]]; done.
    - rewrite bool_decide_eq_false_2 by (by intros [? ?]). cbn [negb andb].
      destruct (currentAffectedFilesSignatures old) as [signatures|].
      + destruct (decide (size signatures = 0)) as [Hs|Hs].
        * rewrite bool_decide_eq_true_2 by done. apply map_size_empty_iff in Hs.
          split; auto.
        * rewrite bool_decide_eq_false_2 by done. split; [done|].
          intros [?|[_ ->]]; [done|]. by rewrite map_size_empty in Hs.
      + split; auto. }
  assert (H2 : negb (forEachKey (changedFilesSet old)
                       (fun path =>
                          match semanticDiagnosticsPerFile old with
                          | Some cache => bool_decide (is_Some (cache !! path))
                          | None => false
                          end)) = true
               <-> forall p, p ∈ changedFilesSet old ->
                     ~ exists cache, semanticDiagnosticsPerFile old = Some cache
                                     /\ is_Some (cache !! p)).
  { rewrite negb_true_iff, <- not_true_iff_false. unfold forEachKey.
    rewrite existsb_exists. split.
    - intros Hn p Hp (cache & Hc & Hl). apply Hn. exists p.
      split; [by apply list_elem_of_In|]. rewrite Hc. by apply bool_decide_eq_true.
    - intros Hall (p & Hp & Hb). apply list_elem_of_In in Hp.
      apply (Hall p Hp). destruct (semanticDiagnosticsPerFile old) as [cache|]; [|done].
      exists cache. split; [done|]. by apply bool_decide_eq_true in Hb. }
  rewrite <- H1. clear H1. split.
  - intros H. apply bind_Normal in H as ([] & Ha & Hb). split; [done|].
    intros ->. apply H2. by destruct (negb _).
  - intros [Ha Hb]. rewrite Ha. cbn [mbind Completion_bind].
    destruct canCopy; [|done]. apply H2 in Hb; [|done]. by rewrite Hb.
Qed.

(** X7. [createBuilderProgramState] returns a state exactly when the old
    state is not reused, or it is given and passes the two checks: it has a
    current changed file, or else neither affected files nor pending
    signatures; and, when diagnostics can be copied, none of its changed files
    has cached diagnostics. An old state that is reused but not given is a
    [TypeError]. *)
Theorem createBuilderProgramState_returns newProgram caseSensitive oldState :
  let state := BuilderState_create newProgram caseSensitive (toBuilderState <$> oldState) in
  let useOldState :=
    BuilderState_canReuseOldState (bs_referencedMap state) (toBuilderState <$> oldState) in
  ((exists s, createBuilderProgramState newProgram caseSensitive oldState = Normal s)
   <-> useOldState = false
       \/ exists old,
            oldState = Some old
            /\ (truthy (currentChangedFilePath old) = true
                \/ (affectedFiles old = None /\ noPendingSignatures old))
            /\ (is_Some (semanticDiagnosticsPerFile old) ->
                bundledOutput (getCompilerOptions newProgram) = false ->
                forall p, p ∈ changedFilesSet old -> ~ hasDiagnostics old p))
  /\ (useOldState = true -> oldState = None ->
      createBuilderProgramState newProgram caseSensitive oldState = Throw TypeError).
Proof.
  intros state useOldState. unfold createBuilderProgramState.
  fold state. fold useOldState. rewrite bundledOutput_cache.
  destruct useOldState; cbn [mbind Completion_bind].
  2:{ split; [|done]. split; [auto|]. intros _.
      destruct (foldl _ _ _) as [changed cache]. eauto. }
  destruct oldState as [old|]; cbn [mbind Completion_bind].
  2:{ split; [|done]. split; [by intros [? ?]|]. intros [?|(? & ? & _)]; done. }
  split; [|done].
  match goal with
  | |- context [verifyOldState old ?c] =>
      pose proof (verifyOldState_Normal old c) as Hv;
      destruct (verifyOldState old c) as [[]|e]
  end; cbn [mbind Completion_bind].
  - destruct (foldl _ _ _) as [changed cache]. split; [|eauto].
    intros _. right. exists old. split; [done|].
    destruct (proj1 Hv eq_refl) as [Ha Hb]. split; [done|].
    intros Hc Hnb. apply Hb. apply andb_true_iff.
    split; apply bool_decide_eq_true; [done|]. rewrite Hnb. cbn. eauto.
  - split; [by intros [? ?]|]. intros [?|(old' & [= <-] & Ha & Hb)]; [done|].
    exfalso. assert (Throw e = Normal tt) as Heq; [|discriminate Heq].
    apply Hv. split; [done|]. intros Hc. apply andb_true_iff in Hc as [H1 H2].
    apply bool_decide_eq_true in H1, H2. apply Hb; [done|].
    by destruct (bundledOutput _); [destruct H2|].
Qed.

Lemma foldl_updateChangedFile_kept used canCopy infos refs entries changed cache p d :
  cache !! p = Some d -> cachedDiagnosticsOf used p = Some d ->
  exists cache',
    (foldl (updateChangedFile used canCopy infos refs) (changed, Some cache) entries).2
    = Some cache' /\ cache' !! p = Some d.
Proof.
  revert changed cache. induction entries as [|[k info] entries IH];
    intros changed cache Hl Hd; cbn [foldl]; [eauto|].
  unfold updateChangedFile at 2. cbn [fst snd].
  destruct (isChangedFile used infos refs k info); [by apply IH|].
  destruct canCopy; [|by apply IH].
  destruct (cachedDiagnosticsOf used k) as [dk|] eqn:Hk; [|by apply IH].
  cbn [fmap option_fmap option_map]. apply IH; [|done].
  destruct (decide (k = p)) as [->|Hne].
  - rewrite lookup_insert_eq. congruence.
  - by rewrite lookup_insert_ne.
Qed.

Lemma foldl_updateChangedFile_copied used infos refs entries changed cache p info d :
  (p, info) ∈ entries -> isChangedFile used infos refs p info = false ->
  cachedDiagnosticsOf used p = Some d ->
  exists cache',
    (foldl (updateChangedFile used true infos refs) (changed, Some cache) entries).2
    = Some cache' /\ cache' !! p = Some d.
Proof.
  revert changed cache. induction entries as [|[k i] entries IH];
    intros changed cache Hin Hch Hd; [by apply elem_of_nil in Hin|].
  cbn [foldl]. apply elem_of_cons in Hin as [[= <- <-]|Hin].
  - unfold updateChangedFile at 2. cbn [fst snd]. rewrite Hch, Hd.
    cbn [fmap option_fmap option_map].
    apply foldl_updateChangedFile_kept; [apply lookup_insert_eq|done].
  - unfold updateChangedFile at 2. cbn [fst snd].
    destruct (isChangedFile used infos refs k i); [by apply IH|].
    destruct (cachedDiagnosticsOf used k) as [dk|]; [|by apply IH].
    cbn [fmap option_fmap option_map]. by apply IH.
Qed.

(** X8. The new cache holds diagnostics for a path exactly when the old
    state is reused, both states have a cache, the old cache holds these
    diagnostics for the path, and the path is a key of the new [fileInfos]
    that is not a changed file by the conditions of lines 89-97. *)
Theorem diagnostics_carried_over newProgram caseSensitive oldState s p d :
  createBuilderProgramState newProgram caseSensitive oldState = Normal s ->
  (exists cache, semanticDiagnosticsPerFile s = Some cache /\ cache !! p = Some d)
  <-> exists old info,
        oldState = Some old
        /\ BuilderState_canReuseOldState (referencedMap s) (toBuilderState <$> oldState)
           = true
        /\ bundledOutput (getCompilerOptions newProgram) = false
        /\ cachedDiagnosticsOf (Some old) p = Some d
        /\ (p, info) ∈ fileInfos s
        /\ ~ changedSinceOldState true oldState (fileInfos s) (referencedMap s) p info.
Proof.
  intros H. apply createBuilderProgramState_parts in H
    as (used & canCopy & changed0 & changed & cache & Hused & HcanCopy & _ & Hfold & ->).
  simpl_state. cbv zeta in *.
  set (infos := bs_fileInfos _) in *. set (refs := bs_referencedMap _) in *.
  pose proof (foldl_updateChangedFile_lookup used canCopy infos refs infos changed0
                (if negb (bundledOutput (getCompilerOptions newProgram))
                 then Some ∅ else None) p d) as Hlook.
  rewrite Hfold in Hlook. cbn [snd] in Hlook.
  assert (Hspec : forall old info,
            isChangedFile (Some old) infos refs p info = false
            <-> ~ changedSinceOldState true (Some old) infos refs p info).
  { intros old info. rewrite <- not_true_iff_false, isChangedFile_spec.
    by rewrite bool_decide_eq_true_2 by eauto. }
  split.
  - intros (c & -> & Hl).
    destruct (Hlook Hl) as [(c0 & Hc0 & Hl0)|(Hcc & Hd & info & Hin & Hch)].
    { destruct (negb _); [|discriminate]. injection Hc0 as <-.
      by rewrite lookup_empty in Hl0. }
    subst canCopy. destruct used as [old|]; [|discriminate].
    apply andb_true_iff in Hcc as [_ Hb]. apply bool_decide_eq_true in Hb.
    destruct (BuilderState_canReuseOldState _ _); [|discriminate].
    destruct Hused as [<- _]. exists old, info.
    split; [done|]. split; [done|].
    split; [by destruct (bundledOutput _); [destruct Hb|]|].
    split; [done|]. split; [done|]. by apply Hspec.
  - intros (old & info & -> & Hre & Hb & Hd & Hin & Hch).
    rewrite Hre in Hused. destruct Hused as [-> _].
    assert (canCopy = true) as ->.
    { subst canCopy. rewrite Hb. unfold cachedDiagnosticsOf in Hd.
      destruct (semanticDiagnosticsPerFile old); [|discriminate].
      apply andb_true_iff. split; apply bool_decide_eq_true; cbn; eauto. }
    rewrite Hb in Hfold. cbn [negb] in Hfold.
    destruct (foldl_updateChangedFile_copied (Some old) infos refs infos changed0 ∅ p
                info d Hin (proj2 (Hspec old info) Hch) Hd) as (c' & Hc' & Hl').
    rewrite Hfold in Hc'. cbn [snd] in Hc'. subst cache. eauto.
Qed.

(** ** What the iteration leaves alone *)

Lemma nextChangedFile_shrinks s :
  match nextChangedFile s with
  | Return _ s' | Continue s' =>
      changedFilesSet s' = changedFilesSet s /\ program s' = program s
      /\ referencedMap s' = referencedMap s
  | Raise _ => True
  end.
Proof.
  unfold nextChangedFile. destruct (changedFilesSet s) eqn:Hc; [by rewrite Hc|].
  destruct (bundledOutput _); [destruct (semanticDiagnosticsPerFile s); by rewrite ?Hc|].
  destruct (BuilderState_getFilesAffectedBy _ _ _ _). simpl_state.
  destruct (semanticDiagnosticsPerFile s); [|done]. simpl_state. by rewrite Hc.
Qed.

Lemma commit_then_next_shrinks s :
  match match commitBatch s with
        | Normal s1 => nextChangedFile s1
        | Throw e => Raise e
        end with
  | Return _ s' | Continue s' =>
      changedFilesSet s' `sublist_of` changedFilesSet s /\ program s' = program s
      /\ referencedMap s' = referencedMap s
  | Raise _ => True
  end.
Proof.
  unfold commitBatch. simpl_state.
  destruct (currentAffectedFilesSignatures s) as [signatures|]; [|done].
  match goal with
  | |- context [nextChangedFile ?a] => pose proof (nextChangedFile_shrinks a) as Hn
  end.
  assert (Hsub : mapDelete (currentChangedFilePath s) (changedFilesSet s)
                 `sublist_of` changedFilesSet s).
  { unfold mapDelete. destruct (currentChangedFilePath s); [apply sublist_filter|done]. }
  destruct (nextChangedFile _); [| |done]; simpl_state;
    destruct Hn as (-> & -> & ->); done.
Qed.

Lemma getNextAffectedFile_body_shrinks s :
  match getNextAffectedFile_body s with
  | Return _ s' | Continue s' =>
      changedFilesSet s' `sublist_of` changedFilesSet s /\ program s' = program s
      /\ referencedMap s' = referencedMap s
  | Raise _ => True
  end.
Proof.
  unfold getNextAffectedFile_body.
  destruct (affectedFiles s) as [files|].
  2:{ pose proof (nextChangedFile_shrinks s) as Hn.
      destruct (nextChangedFile s); [| |done]; destruct Hn as (-> & -> & ->); done. }
  destruct (filesFromCursor s files) as [|f0 remaining];
    [apply commit_then_next_shrinks|].
  destruct (seenAffectedFiles s) as [seen|]; [|done].
  destruct (scanAffectedFiles _ _ _) as [[index seen'] found].
  destruct found as [f|].
  - simpl_state. destruct (semanticDiagnosticsPerFile s); [|done]. simpl_state. done.
  - apply (commit_then_next_shrinks (set_seenAffectedFiles (Some seen') s)).
Qed.

Lemma getNextAffectedFile_shrinks s result s' :
  getNextAffectedFile s = Some (Normal (result, s')) ->
  changedFilesSet s' `sublist_of` changedFilesSet s /\ program s' = program s
  /\ referencedMap s' = referencedMap s.
Proof.
  intros Hn.
  refine (getNextAffectedFile_ind
            (fun s c => forall result s', c = Normal (result, s') ->
               changedFilesSet s' `sublist_of` changedFilesSet s
               /\ program s' = program s /\ referencedMap s' = referencedMap s)
            _ _ _ s _ Hn result s' eq_refl); clear.
  - intros s r s' Hb r' s'' [= <- <-].
    pose proof (getNextAffectedFile_body_shrinks s) as H. by rewrite Hb in H.
  - done.
  - intros s s' c Hb _ IH r s'' ->.
    pose proof (getNextAffectedFile_body_shrinks s) as H. rewrite Hb in H.
    destruct H as (H1 & H2 & H3). destruct (IH _ _ eq_refl) as (I1 & I2 & I3).
    split; [by etrans|]. split; congruence.
Qed.

(** X9. After the construction nothing adds a changed file: a call of
    [getNextAffectedFile] leaves [changedFilesSet] a sublist of what it was,
    [doneWithAffectedFile] empties it for the program and leaves it alone for
    a file, and a diagnostics query changes nothing but the cache; the
    program and [referencedMap] of a state never change. *)
Theorem changedFilesSet_only_shrinks s :
  (forall result s', getNextAffectedFile s = Some (Normal (result, s')) ->
     changedFilesSet s' `sublist_of` changedFilesSet s
     /\ program s' = program s /\ referencedMap s' = referencedMap s)
  /\ (forall affected s', doneWithAffectedFile s affected = Normal s' ->
        changedFilesSet s'
        = match affected with AffectedProgram => [] | AffectedFile _ => changedFilesSet s end
        /\ program s' = program s /\ referencedMap s' = referencedMap s)
  /\ (forall f d s', getSemanticDiagnosticsOfFile s f = Normal (d, s') ->
        withoutCache s' = withoutCache s).
Proof.
  split; [|split].
  - apply getNextAffectedFile_shrinks.
  - intros affected s'. unfold doneWithAffectedFile. destruct affected.
    + destruct (seenAffectedFiles s); [|discriminate]. by intros [= <-].
    + by intros [= <-].
  - intros f d s'. unfold getSemanticDiagnosticsOfFile.
    destruct (semanticDiagnosticsPerFile s); [|discriminate].
    destruct (_ !! _); by intros [= _ <-].
Qed.

(** ** The end of the iteration *)

Lemma nextChangedFile_exhausted s s' :
  affectedFiles s = None -> nextChangedFile s = Return None s' -> exhausted s'.
Proof.
  intros Haf. unfold nextChangedFile.
  destruct (changedFilesSet s) eqn:Hc; [by intros [= <-]|].
  destruct (bundledOutput _); [by destruct (semanticDiagnosticsPerFile s)|].
  destruct (BuilderState_getFilesAffectedBy _ _ _ _). simpl_state.
  by destruct (semanticDiagnosticsPerFile s).
Qed.

Lemma getNextAffectedFile_body_exhausted s s' :
  getNextAffectedFile_body s = Return None s' -> exhausted s'.
Proof.
  unfold getNextAffectedFile_body.
  assert (Hcommit : forall s0,
            match commitBatch s0 with
            | Normal s1 => nextChangedFile s1
            | Throw e => Raise e
            end = Return None s' -> exhausted s').
  { intros s0. destruct (commitBatch s0) as [s1|] eqn:Hcb; [|discriminate].
    apply commitBatch_changed in Hcb as [_ Haf]. by apply nextChangedFile_exhausted. }
  destruct (affectedFiles s) as [files|] eqn:Haf; [|by apply nextChangedFile_exhausted].
  destruct (filesFromCursor s files) as [|f0 remaining]; [apply Hcommit|].
  destruct (seenAffectedFiles s) as [seen|]; [|discriminate].
  destruct (scanAffectedFiles _ _ _) as [[index seen'] found].
  destruct found as [f|]; [|apply Hcommit].
  simpl_state. by destruct (semanticDiagnosticsPerFile s).
Qed.

Lemma exhausted_getNextAffectedFile s :
  exhausted s -> getNextAffectedFile s = Some (Normal (None, s)).
Proof.
  intros [Hc Haf]. rewrite getNextAffectedFile_unfold.
  unfold getNextAffectedFile_body, nextChangedFile. by rewrite Haf, Hc.
Qed.

Lemma getNextAffectedFile_None_exhausted s s' :
  getNextAffectedFile s = Some (Normal (None, s')) -> exhausted s'.
Proof.
  intros Hn.
  refine (getNextAffectedFile_ind
            (fun s c => forall s', c = Normal (None, s') -> exhausted s')
            _ _ _ s _ Hn s' eq_refl); clear.
  - intros s r s' Hb s'' [= -> <-]. by eapply getNextAffectedFile_body_exhausted.
  - done.
  - intros s s' c _ _ IH s'' ->. by apply IH.
Qed.

(** X10. When [getNextAffectedFile] returns [undefined], in whatever state
    it was called, no changed file is left and no batch is in progress; every
    further call returns [undefined] again and changes nothing. *)
Theorem iteration_stays_complete s s' :
  getNextAffectedFile s = Some (Normal (None, s')) ->
  changedFilesSet s' = [] /\ affectedFiles s' = None
  /\ getNextAffectedFile s' = Some (Normal (None, s')).
Proof.
  intros Hn. apply getNextAffectedFile_None_exhausted in Hn as He.
  destruct He as [Hc Haf]. split; [done|]. split; [done|].
  by apply exhausted_getNextAffectedFile.
Qed.

(** ** The cache of diagnostics *)

(** X11. [getSemanticDiagnosticsOfFile] asks the program only on a miss:
    a cached value is returned with the state untouched, a computed one is the
    program's and is stored under the file's path without touching another
    entry, and asking again gives the same diagnostics from the cache. *)
Theorem getSemanticDiagnosticsOfFile_caches s f d s' :
  getSemanticDiagnosticsOfFile s f = Normal (d, s') ->
  getSemanticDiagnosticsOfFile s' f = Normal (d, s')
  /\ cachedDiagnosticsOf (Some s') (path f) = Some d
  /\ (forall p, p <> path f ->
        cachedDiagnosticsOf (Some s') p = cachedDiagnosticsOf (Some s) p)
  /\ match cachedDiagnosticsOf (Some s) (path f) with
     | Some cached => d = cached /\ s' = s
     | None => d = Program_getSemanticDiagnostics (program s) (Some f)
     end.
Proof.
  unfold getSemanticDiagnosticsOfFile, cachedDiagnosticsOf.
  destruct (semanticDiagnosticsPerFile s) as [cache|] eqn:Hc; [|discriminate].
  destruct (cache !! path f) as [cached|] eqn:Hl; intros [= <- <-].
  - rewrite Hc, Hl. done.
  - simpl_state. rewrite lookup_insert_eq. split; [done|]. split; [done|].
    split; [|done]. intros p Hp. by rewrite lookup_insert_ne.
Qed.

(** ** getSemanticDiagnosticsOfNextAffectedFile *)

(** X12. What [getSemanticDiagnosticsOfNextAffectedFile] returns: for a
    file, one that the predicate does not ignore, committed, with diagnostics
    that the program has computed in this call and that the cache now holds;
    for the program, the program's diagnostics, with no changed file left;
    [undefined] only when the iteration is complete. *)
Theorem getSemanticDiagnosticsOfNextAffectedFile_result fuel s ignoreSourceFile result s' :
  getSemanticDiagnosticsOfNextAffectedFile fuel s ignoreSourceFile
  = Some (Normal (result, s')) ->
  match result with
  | None => exhausted s'
  | Some (d, AffectedFile f) =>
      (forall ignore, ignoreSourceFile = Some ignore -> ignore f = false)
      /\ d = Program_getSemanticDiagnostics (program s) (Some f)
      /\ cachedDiagnosticsOf (Some s') (path f) = Some d
      /\ path f ∈ seenPaths s'
  | Some (d, AffectedProgram) =>
      d = Program_getSemanticDiagnostics (program s) None
      /\ changedFilesSet s' = []
  end.
Proof.
  revert s result s'. induction fuel as [|fuel IH]; intros s result s';
    cbn [getSemanticDiagnosticsOfNextAffectedFile]; [discriminate|].
  destruct (getNextAffectedFile s) as [[[affected s1]|e]|] eqn:Hn; cbn [andThen];
    [|discriminate..].
  destruct (getNextAffectedFile_shrinks _ _ _ Hn) as (_ & Hprog & _).
  destruct affected as [[f|]|].
  - destruct (getNextAffectedFile_yield _ _ _ Hn) as (_ & Hno & [cache Hcache]).
    destruct (match ignoreSourceFile with Some i => i f | None => false end) eqn:Hig.
    + destruct (doneWithAffectedFile s1 (AffectedFile f)) as [s2|e] eqn:Hd;
        cbn [andThen]; [|discriminate].
      intros Hrec. apply IH in Hrec.
      assert (program s2 = program s) as Hp2.
      { unfold doneWithAffectedFile in Hd. destruct (seenAffectedFiles s1); [|discriminate].
        injection Hd as <-. done. }
      by rewrite Hp2 in Hrec.
    + unfold getSemanticDiagnosticsOfFile, toAffectedFileResult, doneWithAffectedFile.
      rewrite Hcache.
      destruct (cache !! path f) eqn:Hl; [exfalso; apply Hno; exists cache; eauto|].
      simpl_bind. simpl_state.
      destruct (seenAffectedFiles s1) as [seen|]; simpl_bind; [|discriminate].
      intros [= <- <-]. split; [|split; [by rewrite Hprog|split]].
      * intros ignore ->. done.
      * unfold cachedDiagnosticsOf. simpl_state. apply lookup_insert_eq.
      * change (path f ∈ {[path f]} ∪ seen). apply elem_of_union_l.
        by apply elem_of_singleton.
  - unfold toAffectedFileResult, doneWithAffectedFile. simpl_bind.
    intros [= <- <-]. split; [by rewrite Hprog|done].
  - intros [= <- <-]. by eapply getNextAffectedFile_None_exhausted.
Qed.

Lemma getSemanticDiagnosticsOfNextAffectedFile_wellFormed ignoreSourceFile s :
  wellFormed s ->
  exists fuel result s',
    getSemanticDiagnosticsOfNextAffectedFile fuel s ignoreSourceFile
    = Some (Normal (result, s')).
Proof.
  induction s as [s IH] using closerToDone_ind. intros Hwf.
  destruct (getNextAffectedFile_wellFormed _ Hwf) as (r & s1 & Hn & Hwf1 & Hp1 & _).
  destruct r as [[f|]|].
  - destruct (match ignoreSourceFile with Some i => i f | None => false end) eqn:Hig.
    + destruct (doneWithAffectedFile_wellFormed _ _ Hwf1 Hp1) as (s2 & Hd & Hwf2).
      destruct (IH s2 (getNextAffectedFile_progress _ _ _ _ Hwf Hn Hd) Hwf2)
        as (fuel & r & s' & Hrec).
      exists (S fuel), r, s'. cbn [getSemanticDiagnosticsOfNextAffectedFile].
      rewrite Hn. cbn [andThen]. rewrite Hig, Hd. done.
    + assert (Hsome : is_Some (affectedFiles s1)).
      { destruct Hp1 as (files & i & -> & _). eauto. }
      destruct (wf_cache _ Hwf1 (wellFormed_batch_perFile _ Hwf1 Hsome)) as [cache Hc].
      assert (exists d s2, getSemanticDiagnosticsOfFile s1 f = Normal (d, s2))
        as (d & s2 & Hg).
      { unfold getSemanticDiagnosticsOfFile. rewrite Hc. destruct (cache !! path f); eauto. }
      destruct (getSemanticDiagnosticsOfFile_wellFormed _ _ _ _ _ Hwf1 Hp1 Hg)
        as [Hwf2 Hp2].
      destruct (doneWithAffectedFile_wellFormed _ _ Hwf2 Hp2) as (s3 & Hd & _).
      exists 1, (Some (d, AffectedFile f)), s3.
      cbn [getSemanticDiagnosticsOfNextAffectedFile]. rewrite Hn. cbn [andThen].
      rewrite Hig, Hg. simpl_bind. unfold toAffectedFileResult. rewrite Hd. done.
  - destruct (doneWithAffectedFile_wellFormed _ _ Hwf1 Hp1) as (s2 & Hd & _).
    eexists 1, _, s2. cbn [getSemanticDiagnosticsOfNextAffectedFile].
    rewrite Hn. cbn [andThen]. unfold toAffectedFileResult. rewrite Hd. done.
  - exists 1, None, s1. cbn [getSemanticDiagnosticsOfNextAffectedFile]. by rewrite Hn.
Qed.

(** X13. In every state the builder can be in,
    [getSemanticDiagnosticsOfNextAffectedFile] comes to an end and returns,
    however many files the predicate ignores. *)
Theorem getSemanticDiagnosticsOfNextAffectedFile_terminates ignoreSourceFile s pending :
  reachable s pending ->
  exists fuel result s',
    getSemanticDiagnosticsOfNextAffectedFile fuel s ignoreSourceFile
    = Some (Normal (result, s')).
Proof.
  intros Hr. apply getSemanticDiagnosticsOfNextAffectedFile_wellFormed.
  by destruct (reachable_wellFormed _ _ Hr).
Qed.

(** ** emit *)

Lemma emitAffectedFiles_wellFormed s acc :
  wellFormed s ->
  exists fuel result s',
    emitAffectedFiles fuel s acc = Some (Normal (result, s')) /\ exhausted s'.
Proof.
  revert acc. induction s as [s IH] using closerToDone_ind. intros acc Hwf.
  destruct (getNextAffectedFile_wellFormed _ Hwf) as (r & s1 & Hn & Hwf1 & Hp1 & Hend).
  destruct r as [affected|].
  - destruct (doneWithAffectedFile_wellFormed _ _ Hwf1 Hp1) as (s2 & Hd & Hwf2).
    set (result := Program_emit (program s1)
                     match affected with
                     | AffectedProgram => None
                     | AffectedFile f => Some f
                     end).
    destruct (IH s2 (getNextAffectedFile_progress _ _ _ _ Hwf Hn Hd)
                (mkEmitResult (orElse (emitSkipped acc) (emitSkipped result))
                   (diagnostics acc ++ diagnostics result)
                   (emittedFiles acc ++ emittedFiles result)
                   (sourceMaps acc ++ sourceMaps result)) Hwf2)
      as (fuel & r & s' & Hrec & Hex).
    exists (S fuel), r, s'. split; [|done].
    cbn [emitAffectedFiles]. unfold emitNextAffectedFile. rewrite Hn. cbn [andThen].
    unfold toAffectedFileResult. rewrite Hd. simpl_bind. cbn [andThen]. exact Hrec.
  - exists 1, acc, s1. split.
    + cbn [emitAffectedFiles]. unfold emitNextAffectedFile. rewrite Hn. done.
    + destruct (Hend eq_refl) as (? & ? & _). done.
Qed.

(** X14. In the emit builder, [emit] without a target file comes to an end
    in every state the builder can be in, and it leaves no changed file and no
    batch behind: the iteration is complete. *)
Theorem emit_completes_the_iteration s pending :
  reachable s pending ->
  exists fuel result s',
    emit EmitAndSemanticDiagnosticsBuilderProgram fuel s None
    = Some (Normal (result, s'))
    /\ changedFilesSet s' = [] /\ affectedFiles s' = None.
Proof.
  intros Hr. destruct (reachable_wellFormed _ _ Hr) as [Hwf _].
  destruct (emitAffectedFiles_wellFormed s (mkEmitResult None [] [] []) Hwf)
    as (fuel & r & s' & He & Hc & Haf).
  exists fuel, r, s'. split; [|done]. unfold emit. cbn. exact He.
Qed.

(** ** getSemanticDiagnostics for the whole program *)

Lemma handleAffectedFiles_exhausted fuel s s' :
  handleAffectedFiles fuel s = Some (Normal s') -> exhausted s'.
Proof.
  revert s. induction fuel as [|fuel IH]; intros s; cbn [handleAffectedFiles];
    [discriminate|].
  destruct (getNextAffectedFile s) as [[[affected s1]|e]|] eqn:Hn; cbn [andThen];
    [|discriminate..].
  destruct affected as [affected|].
  - destruct (doneWithAffectedFile s1 affected) as [s2|e]; cbn [andThen];
      [apply IH|discriminate].
  - intros [= <-]. by eapply getNextAffectedFile_None_exhausted.
Qed.

Lemma handleAffectedFiles_program fuel s s' :
  handleAffectedFiles fuel s = Some (Normal s') -> program s' = program s.
Proof.
  revert s. induction fuel as [|fuel IH]; intros s;
    cbn [handleAffectedFiles]; [discriminate|].
  destruct (getNextAffectedFile s) as [[[affected s2]|e]|] eqn:Hn; cbn [andThen];
    [|discriminate..].
  destruct (getNextAffectedFile_shrinks _ _ _ Hn) as (_ & Hp & _).
  destruct affected as [affected|]; [|intros [= <-]; done].
  destruct (doneWithAffectedFile s2 affected) as [s3|e] eqn:Hd; cbn [andThen];
    [|discriminate].
  intros Hrec. rewrite (IH _ Hrec), <- Hp.
  unfold doneWithAffectedFile in Hd. destruct affected.
  - destruct (seenAffectedFiles s2); [|discriminate]. by injection Hd as <-.
  - by injection Hd as <-.
Qed.

Lemma getSemanticDiagnosticsOfFile_entry s f d s' :
  getSemanticDiagnosticsOfFile s f = Normal (d, s') ->
  cachedDiagnosticsOf (Some s') (path f) = Some d /\ cacheGrows s s'.
Proof.
  unfold getSemanticDiagnosticsOfFile, cacheGrows, cachedDiagnosticsOf.
  destruct (semanticDiagnosticsPerFile s) as [cache|] eqn:Hc; [|discriminate].
  destruct (cache !! path f) as [cached|] eqn:Hl; intros [= <- <-].
  - by rewrite Hc.
  - simpl_state. rewrite lookup_insert_eq. split; [done|].
    intros p dp Hp. rewrite lookup_insert_ne; [done|]. congruence.
Qed.

(** The [for] loop: the state it leaves differs in the cache only, which has
    grown and holds, for each of the files, the diagnostics that were added
    to the result; run again on that state it adds the same. *)
Lemma diagnosticsOfSourceFiles_result files s acc result s' :
  diagnosticsOfSourceFiles files s acc = Normal (result, s') ->
  withoutCache s' = withoutCache s /\ cacheGrows s s'
  /\ (forall f, f ∈ files -> is_Some (cachedDiagnosticsOf (Some s') (path f)))
  /\ result
     = acc ++ concat ((fun f => default [] (cachedDiagnosticsOf (Some s') (path f)))
                        <$> files)
  /\ diagnosticsOfSourceFiles files s' acc = Normal (result, s').
Proof.
  revert s acc. induction files as [|f files IH]; intros s acc;
    cbn [diagnosticsOfSourceFiles].
  { intros [= <- <-]. split; [done|]. split; [by intros p d|].
    split; [by intros f Hf; apply elem_of_nil in Hf|]. cbn. by rewrite app_nil_r. }
  destruct (getSemanticDiagnosticsOfFile s f) as [[d s1]|e] eqn:Hg; simpl_bind;
    [|discriminate].
  intros Hrest. destruct (IH _ _ Hrest) as (Hw & Hgrow & Hall & Hres & Hagain).
  destruct (getSemanticDiagnosticsOfFile_entry _ _ _ _ Hg) as [Hf Hgrow1].
  assert (Hf' : cachedDiagnosticsOf (Some s') (path f) = Some d) by by apply Hgrow.
  assert (Hg' : getSemanticDiagnosticsOfFile s' f = Normal (d, s')).
  { unfold getSemanticDiagnosticsOfFile. unfold cachedDiagnosticsOf in Hf'.
    destruct (semanticDiagnosticsPerFile s'); [|discriminate]. by rewrite Hf'. }
  split; [|split; [|split; [|split]]].
  - rewrite Hw. unfold getSemanticDiagnosticsOfFile in Hg.
    destruct (semanticDiagnosticsPerFile s); [|discriminate].
    destruct (_ !! _); by injection Hg as _ <-.
  - intros p dp Hp. by apply Hgrow, Hgrow1.
  - intros g Hin. apply elem_of_cons in Hin as [->|Hin]; [by rewrite Hf'|by apply Hall].
  - rewrite Hres, fmap_cons. cbn [concat]. rewrite Hf'. cbn [default].
    by rewrite <- app_assoc.
  - rewrite Hg'. simpl_bind. exact Hagain.
Qed.

(** X15. [getSemanticDiagnostics] without a source file can be asked again:
    on the state that a call has left, a second call returns the same
    diagnostics and leaves the state as it is. *)
Theorem getSemanticDiagnostics_again kind fuel s result s' fuel' :
  getSemanticDiagnostics kind fuel s None = Some (Normal (result, s')) ->
  getSemanticDiagnostics kind (S fuel') s' None = Some (Normal (result, s')).
Proof.
  unfold getSemanticDiagnostics. cbn [assertSourceFileOkWithoutNextAffectedCall andThen].
  destruct (bundledOutput (getCompilerOptions (program s))) eqn:Hb.
  { destruct (Debug_assert _ _) eqn:Ha; simpl_bind; [|discriminate].
    intros [= <- <-]. by rewrite Hb, Ha. }
  assert (Hfor : forall s1,
            program s1 = program s -> exhausted s1 \/ kind = EmitAndSemanticDiagnosticsBuilderProgram ->
            diagnosticsOfSourceFiles (getSourceFiles (program s1)) s1 [] = Normal (result, s') ->
            (if bundledOutput (getCompilerOptions (program s')) then
               Some (_ ← Debug_assert
                            (negb (bool_decide (is_Some (semanticDiagnosticsPerFile s'))))
                            None;
                     Normal (Program_getSemanticDiagnostics (program s') None, s'))
             else
               andThen
                 match kind with
                 | SemanticDiagnosticsBuilderProgram => handleAffectedFiles (S fuel') s'
                 | EmitAndSemanticDiagnosticsBuilderProgram => Some (Normal s')
                 end
                 (fun s0 => Some (diagnosticsOfSourceFiles (getSourceFiles (program s0)) s0 [])))
            = Some (Normal (result, s'))).
  { intros s1 Hp1 Hex Hd.
    destruct (diagnosticsOfSourceFiles_result _ _ _ _ _ Hd) as (Hw & _ & _ & _ & Hagain).
    assert (Hp' : program s' = program s1) by exact (f_equal program Hw).
    assert (Hc' : changedFilesSet s' = changedFilesSet s1)
      by exact (f_equal changedFilesSet Hw).
    assert (Haf' : affectedFiles s' = affectedFiles s1)
      by exact (f_equal affectedFiles Hw).
    replace (bundledOutput (getCompilerOptions (program s'))) with false
      by (by rewrite Hp', Hp1, Hb).
    destruct kind.
    - destruct Hex as [[Hc Haf]|]; [|discriminate].
      cbn [handleAffectedFiles].
      rewrite exhausted_getNextAffectedFile by (split; congruence).
      cbn [andThen]. rewrite Hp'. f_equal. exact Hagain.
    - cbn [andThen]. rewrite Hp'. f_equal. exact Hagain. }
  destruct kind.
  - destruct (handleAffectedFiles fuel s) as [[s1|e]|] eqn:Hh; cbn [andThen];
      [|discriminate..].
    intros [= Hd]. apply (Hfor s1); [|left; by eapply handleAffectedFiles_exhausted|done].
    by eapply handleAffectedFiles_program.
  - cbn [andThen]. intros [= Hd]. apply (Hfor s); [done|by right|done].
Qed.

(** X16. With per-file output, [getSemanticDiagnostics] without a source
    file leaves a cache entry for every source file of the program and
    returns the concatenation of these entries in the order of
    [getSourceFiles]; the diagnostics builder has completed the iteration
    before, the emit builder has changed nothing but the cache. *)
Theorem getSemanticDiagnostics_of_program kind fuel s result s' :
  bundledOutput (getCompilerOptions (program s)) = false ->
  getSemanticDiagnostics kind fuel s None = Some (Normal (result, s')) ->
  (forall f, f ∈ getSourceFiles (program s) ->
             is_Some (cachedDiagnosticsOf (Some s') (path f)))
  /\ result
     = concat ((fun f => default [] (cachedDiagnosticsOf (Some s') (path f)))
                 <$> getSourceFiles (program s))
  /\ match kind with
     | SemanticDiagnosticsBuilderProgram => exhausted s'
     | EmitAndSemanticDiagnosticsBuilderProgram => withoutCache s' = withoutCache s
     end.
Proof.
  intros Hb. unfold getSemanticDiagnostics.
  cbn [assertSourceFileOkWithoutNextAffectedCall andThen]. rewrite Hb.
  destruct kind.
  - destruct (handleAffectedFiles fuel s) as [[s1|e]|] eqn:Hh; cbn [andThen];
      [|discriminate..].
    intros [= Hd].
    destruct (diagnosticsOfSourceFiles_result _ _ _ _ _ Hd) as (Hw & _ & Hall & Hres & _).
    pose proof (handleAffectedFiles_program _ _ _ Hh) as Hp.
    rewrite Hp in *. split; [done|]. split; [done|].
    destruct (handleAffectedFiles_exhausted _ _ _ Hh) as [Hc Haf].
    split.
    + rewrite <- Hc. exact (f_equal changedFilesSet Hw).
    + rewrite <- Haf. exact (f_equal affectedFiles Hw).
  - cbn [andThen]. intros [= Hd].
    destruct (diagnosticsOfSourceFiles_result _ _ _ _ _ Hd) as (Hw & _ & Hall & Hres & _).
    done.
Qed.

(** ** Bundled output through the facade *)

(** X17. When [outFile] or [out] is set, [getSemanticDiagnostics] of a
    reachable state, with or without a source file and for either kind of
    builder, returns what the program reports and leaves the state as it
    is: nothing is cached and no affected file is taken. *)
Theorem getSemanticDiagnostics_bundled kind fuel s pending sourceFile :
  reachable s pending ->
  bundledOutput (getCompilerOptions (program s)) = true ->
  getSemanticDiagnostics kind fuel s sourceFile
  = Some (Normal (Program_getSemanticDiagnostics (program s) sourceFile, s)).
Proof.
  intros Hr Hb. destruct (reachable_wellFormed _ _ Hr) as [Hwf _].
  destruct (wf_bundled _ Hwf Hb) as [Hcache Haf].
  unfold getSemanticDiagnostics, assertSourceFileOkWithoutNextAffectedCall.
  rewrite Haf, Hb, Hcache. by destruct sourceFile.
Qed.

(** X18. [emit] of the emit builder without a target file, when no changed
    file is left and no batch is in progress: the program is not asked to
    emit anything, the result is the empty one with [emitSkipped] undefined,
    and the state is as before. *)
Theorem emit_nothing_left fuel s :
  exhausted s ->
  emit EmitAndSemanticDiagnosticsBuilderProgram (S fuel) s None
  = Some (Normal (mkEmitResult None [] [] [], s)).
Proof.
  intros Hex. unfold emit. cbn [assertSourceFileOkWithoutNextAffectedCall andThen].
  cbn [emitAffectedFiles]. unfold emitNextAffectedFile.
  rewrite (exhausted_getNextAffectedFile _ Hex). done.
Qed.

(** X19. When [outFile] or [out] is set and some file has changed, [emit]
    of the emit builder without a target file asks the program to emit once,
    for the whole program, returns that result and leaves [changedFilesSet]
    empty and the rest of the state as it is. *)
Theorem emit_bundled fuel s pending :
  reachable s pending ->
  bundledOutput (getCompilerOptions (program s)) = true ->
  changedFilesSet s <> [] ->
  emit EmitAndSemanticDiagnosticsBuilderProgram (S (S fuel)) s None
  = Some (Normal (emittedOnce (Program_emit (program s) None),
                  set_changedFilesSet [] s)).
Proof.
  intros Hr Hb Hc. destruct (reachable_wellFormed _ _ Hr) as [Hwf _].
  destruct (wf_bundled _ Hwf Hb) as [Hcache Haf].
  assert (Hnext : getNextAffectedFile s = Some (Normal (Some AffectedProgram, s))).
  { rewrite getNextAffectedFile_unfold.
    unfold getNextAffectedFile_body, nextChangedFile. rewrite Haf, Hb, Hcache.
    by destruct (changedFilesSet s). }
  unfold emit. cbn [assertSourceFileOkWithoutNextAffectedCall andThen].
  cbn [emitAffectedFiles]. unfold emitNextAffectedFile at 1.
  rewrite Hnext. cbn [andThen]. unfold toAffectedFileResult, doneWithAffectedFile.
  simpl_bind. cbn [andThen]. unfold emitNextAffectedFile.
  rewrite exhausted_getNextAffectedFile; [done|].
  split; [done|]. by simpl_state.
Qed.

(** ** The builder programs of the store *)

Lemma createBuilderProgramState_program newProgram caseSensitive oldState s :
  createBuilderProgramState newProgram caseSensitive oldState = Normal s ->
  program s = newProgram.
Proof.
  intros H. apply createBuilderProgramState_parts in H. cbv zeta in H.
  destruct H as (? & ? & ? & ? & ? & _ & _ & _ & _ & ->). done.
Qed.

(** X20. A call of [createBuilderProgram] that returns leaves every other
    builder program of the store as it was, and the reference it returns
    holds a builder for the new program. Either that reference is the old
    builder's, whose program is the new one, and the store is unchanged; or
    it is a reference the store did not have, and it holds a builder of the
    kind asked for whose state is the one [createBuilderProgramState] makes
    of the new program and the old builder's state. *)
Theorem createBuilderProgram_store store newProgram host oldProgram kind reference store' :
  createBuilderProgram store newProgram host oldProgram kind = Normal (reference, store') ->
  (forall other, other <> reference -> store' !! other = store !! other)
  /\ (exists builder, store' !! reference = Some builder
                      /\ program (getState builder) = newProgram)
  /\ ((oldProgram = Some reference /\ store' = store)
      \/ (store !! reference = None
          /\ exists state,
               createBuilderProgramState newProgram (useCaseSensitiveFileNames host)
                 (oldStateOf store oldProgram) = Normal state
               /\ store' !! reference = Some (mkBuilderProgram kind state))).
Proof.
  unfold createBuilderProgram, oldStateOf.
  assert (Hnew : forall oldState,
            (state ← createBuilderProgramState newProgram (useCaseSensitiveFileNames host)
                       oldState;
             Normal (fresh (dom store), <[fresh (dom store) := mkBuilderProgram kind state]> store))
            = Normal (reference, store') ->
            (forall other, other <> reference -> store' !! other = store !! other)
            /\ (exists builder, store' !! reference = Some builder
                                /\ program (getState builder) = newProgram)
            /\ store !! reference = None
            /\ exists state,
                 createBuilderProgramState newProgram (useCaseSensitiveFileNames host)
                   oldState = Normal state
                 /\ store' !! reference = Some (mkBuilderProgram kind state)).
  { intros oldState.
    destruct (createBuilderProgramState _ _ _) as [state|e] eqn:Hc; simpl_bind;
      [|discriminate].
    intros [= <- <-]. split; [|split; [|split]].
    - intros other Hne. by rewrite lookup_insert_ne.
    - exists (mkBuilderProgram kind state). rewrite lookup_insert_eq. split; [done|].
      by eapply createBuilderProgramState_program.
    - apply not_elem_of_dom, is_fresh.
    - exists state. by rewrite lookup_insert_eq. }
  destruct oldProgram as [old|].
  - destruct (store !! old) as [builder|] eqn:Hl; simpl_bind; [|discriminate].
    cbn [fmap option_fmap option_map].
    destruct (decide (newProgram = program (getState builder))) as [Hp|Hp].
    + intros [= <- <-]. split; [done|]. split; [by exists builder|]. by left.
    + intros H. destruct (Hnew _ H) as (H1 & H2 & H3 & H4). eauto 6.
  - simpl_bind. intros H. destruct (Hnew _ H) as (H1 & H2 & H3 & H4). eauto 6.
Qed.

(** X21. The two exported constructors differ in the kind of the builder
    only: on the same store and arguments they return the same reference,
    or throw the same exception, and the builders they make have the same
    state. *)
Theorem exported_constructors_agree store newProgram host oldProgram :
  match createSemanticDiagnosticsBuilderProgram store newProgram host oldProgram,
        createEmitAndSemanticDiagnosticsBuilderProgram store newProgram host oldProgram with
  | Normal (reference, store1), Normal (reference', store2) =>
      reference' = reference
      /\ (forall r, getState <$> store1 !! r = getState <$> store2 !! r)
      /\ (store !! reference = None ->
          builderKind <$> store1 !! reference = Some SemanticDiagnosticsBuilderProgram
          /\ builderKind <$> store2 !! reference
             = Some EmitAndSemanticDiagnosticsBuilderProgram)
  | Throw e, Throw e' => e' = e
  | _, _ => False
  end.
Proof.
  unfold createSemanticDiagnosticsBuilderProgram,
    createEmitAndSemanticDiagnosticsBuilderProgram, createBuilderProgram.
  assert (Hnew : forall oldState,
    match (state ← createBuilderProgramState newProgram (useCaseSensitiveFileNames host)
                     oldState;
           Normal (fresh (dom store),
                   <[fresh (dom store) :=
                       mkBuilderProgram SemanticDiagnosticsBuilderProgram state]> store)),
          (state ← createBuilderProgramState newProgram (useCaseSensitiveFileNames host)
                     oldState;
           Normal (fresh (dom store),
                   <[fresh (dom store) :=
                       mkBuilderProgram EmitAndSemanticDiagnosticsBuilderProgram state]> store))
    with
    | Normal (reference, store1), Normal (reference', store2) =>
        reference' = reference
        /\ (forall r, getState <$> store1 !! r = getState <$> store2 !! r)
        /\ (store !! reference = None ->
            builderKind <$> store1 !! reference = Some SemanticDiagnosticsBuilderProgram
            /\ builderKind <$> store2 !! reference
               = Some EmitAndSemanticDiagnosticsBuilderProgram)
    | Throw e, Throw e' => e' = e
    | _, _ => False
    end).
  { intros oldState. destruct (createBuilderProgramState _ _ _) as [state|e]; simpl_bind;
      [|done].
    split; [done|]. split.
    - intros r. destruct (decide (r = fresh (dom store))) as [->|Hne].
      + by rewrite !lookup_insert_eq.
      + by rewrite !lookup_insert_ne.
    - intros _. by rewrite !lookup_insert_eq. }
  destruct oldProgram as [old|]; [|simpl_bind; apply Hnew].
  destruct (store !! old) as [builder|] eqn:Hl; simpl_bind; [|done].
  destruct (decide (newProgram = program (getState builder))); [|apply Hnew].
  split; [done|]. split; [done|]. intros Hn. congruence.
Qed.

End Properties.

(** * The properties at work on a program of two files *)

Import Examples.

(** The runs behind the example states. *)
Lemma freshAB_created :
  @createBuilderProgramState layer programAB true None = Normal freshAB.
Proof. vm_compute. reflexivity. Qed.

Lemma freshBundled_created :
  @createBuilderProgramState layer programBundled true None = Normal freshBundled.
Proof. vm_compute. reflexivity. Qed.

Lemma freshAB_yields_fileA :
  @getNextAffectedFile layer freshAB = Some (Normal (Some (AffectedFile fileA), yieldedA)).
Proof. vm_compute. reflexivity. Qed.

Lemma yieldedA_queried :
  @getSemanticDiagnosticsOfFile compiler yieldedA fileA
  = Normal (["error in /src/a.ts"], queriedA).
Proof. vm_compute. reflexivity. Qed.

Lemma queriedA_committed :
  doneWithAffectedFile queriedA (AffectedFile fileA) = Normal committedA.
Proof. vm_compute. reflexivity. Qed.

Lemma committedA_yields_fileB :
  @getNextAffectedFile layer committedA
  = Some (Normal (Some (AffectedFile fileB), yieldedB)).
Proof. vm_compute. reflexivity. Qed.

Lemma reachable_freshAB : @reachable layer compiler freshAB None.
Proof. eapply reach_created, freshAB_created. Qed.

Lemma reachable_freshBundled : @reachable layer compiler freshBundled None.
Proof. eapply reach_created, freshBundled_created. Qed.

Lemma reachable_yieldedA : @reachable layer compiler yieldedA (Some (AffectedFile fileA)).
Proof. eapply reach_next; [apply reachable_freshAB|apply freshAB_yields_fileA]. Qed.

Lemma reachable_queriedA : @reachable layer compiler queriedA (Some (AffectedFile fileA)).
Proof. eapply reach_diagnostics; [apply reachable_yieldedA|apply yieldedA_queried]. Qed.

Lemma reachable_committedA : @reachable layer compiler committedA None.
Proof. eapply reach_done; [apply reachable_queriedA|apply queriedA_committed]. Qed.

Lemma reachable_yieldedB : @reachable layer compiler yieldedB (Some (AffectedFile fileB)).
Proof. eapply reach_next; [apply reachable_committedA|apply committedA_yields_fileB]. Qed.

(** ** Cancellation (C1) *)



(** ** The changed files of a new state (C2) *)

(** C2 as stated fails in both directions: [freshAB] is reused for a
    program with the same files; none of the listed conditions holds for
    [/src/a.ts], and yet the path is in the new [changedFilesSet], copied from
    the old one; and [/src/c.ts], of neither program, is absent from the old
    [fileInfos] without being in the new [changedFilesSet]. *)
Lemma changed_files_beyond_the_conditions :
  exists s,
    @createBuilderProgramState layer programAB' true (Some freshAB) = Normal s
    /\ @BuilderState_canReuseOldState layer (referencedMap s)
         (toBuilderState <$> Some freshAB) = true
    /\ "/src/a.ts" ∈ changedFilesSet s
    /\ (~ exists info,
            ("/src/a.ts", info) ∈ fileInfos s
            /\ changedSinceOldState true (Some freshAB) (fileInfos s) (referencedMap s)
                 "/src/a.ts" info)
    /\ mapGet "/src/c.ts" (fileInfos freshAB) = None
    /\ "/src/c.ts" ∉ changedFilesSet s.
Proof.
  eexists. split; [vm_compute; reflexivity|]. cbn [changedFilesSet fileInfos referencedMap].
  split; [vm_compute; reflexivity|]. split; [apply elem_of_cons; by left|].
  split; [|split; [reflexivity|]].
  - intros (info & Hin & Hc).
    change true with (bool_decide (is_Some (Some freshAB))) in Hc.
    apply (@isChangedFile_spec) in Hc.
    apply elem_of_cons in Hin as [[= ->]|Hin]; [vm_compute in Hc; discriminate Hc|].
    apply elem_of_cons in Hin as [[=]|Hin]. by apply elem_of_nil in Hin.
  - intros Hin. apply elem_of_cons in Hin as [[=]|Hin].
    apply elem_of_cons in Hin as [[=]|Hin]. by apply elem_of_nil in Hin.
Qed.

(** The characterisation at [/src/a.ts], for [freshAB] reused. *)
Lemma changedFilesSet_of_new_state_witness :
  @createBuilderProgramState layer programAB' true (Some freshAB)
  = Normal (set_changedFilesSet ["/src/a.ts"; "/src/b.ts"]
              (mkState (fileInfos freshAB) (Some ∅) (Some ∅) [] None None None None None
                 programAB'))
  /\ ("/src/a.ts" ∈ ["/src/a.ts"; "/src/b.ts"] <->
      (true = true /\ exists old, Some freshAB = Some old /\ "/src/a.ts" ∈ changedFilesSet old)
      \/ (exists info,
            ("/src/a.ts", info) ∈ fileInfos freshAB
            /\ changedSinceOldState true (Some freshAB) (fileInfos freshAB) (Some ∅)
                 "/src/a.ts" info)).
Proof.
  assert (H : @createBuilderProgramState layer programAB' true (Some freshAB)
              = Normal (set_changedFilesSet ["/src/a.ts"; "/src/b.ts"]
                          (mkState (fileInfos freshAB) (Some ∅) (Some ∅) [] None None None
                             None None programAB')))
    by (vm_compute; reflexivity).
  split; [exact H|].
  exact (@changedFilesSet_of_new_state layer programAB' true (Some freshAB) _
           "/src/a.ts" H).
Defined.

(** [builtAB] is what the iteration leaves of a first build. *)
Example builtAB_built :
  exists fresh,
    @createBuilderProgramState layerWithImport programAB true None = Normal fresh
    /\ @handleAffectedFiles layerWithImport 3 fresh = Some (Normal builtAB).
Proof. eexists. split; vm_compute; reflexivity. Qed.

(** Scenario S1: the same files again, nothing is changed. *)
Example no_change :
  exists s,
    @createBuilderProgramState layerWithImport programAB' true (Some builtAB) = Normal s
    /\ changedFilesSet s = [].
Proof. eexists. split; [vm_compute; reflexivity|reflexivity]. Qed.

(** Scenario S2, the construction: [/src/a.ts] has another version. *)
Example single_edit :
  exists s,
    @createBuilderProgramState layerWithImport programA2B true (Some builtAB) = Normal s
    /\ changedFilesSet s = ["/src/a.ts"]
    /\ mapGet "/src/a.ts" (fileInfos builtAB) = Some (mkFileInfo "1" (Some "shape"))
    /\ mapGet "/src/a.ts" (fileInfos s) = Some (mkFileInfo "2" None).
Proof. eexists. split; [vm_compute; reflexivity|]. repeat split. Qed.

(** Scenario S4: [/src/b.ts], which [/src/a.ts] references, is gone from the
    program; version and references of [/src/a.ts] are as before, and the
    file is changed by the last clause of line 97. *)
Example deleted_reference_target :
  exists s,
    @createBuilderProgramState layerWithImport programA true (Some builtAB) = Normal s
    /\ changedFilesSet s = ["/src/a.ts"]
    /\ version <$> mapGet "/src/a.ts" (fileInfos s)
       = version <$> mapGet "/src/a.ts" (fileInfos builtAB)
    /\ referencesOf (referencedMap s) "/src/a.ts" = Some {["/src/b.ts"]}
    /\ referencesOf (referencedMap builtAB) "/src/a.ts" = Some {["/src/b.ts"]}
    /\ mapGet "/src/b.ts" (fileInfos s) = None
    /\ is_Some (mapGet "/src/b.ts" (fileInfos builtAB)).
Proof.
  eexists. split; [vm_compute; reflexivity|]. repeat split. cbn. eauto.
Qed.

(** ** Cache purity (C3) *)

(** C3 fails on the code. On a first build of [programAB],
    [getSemanticDiagnosticsOfNextAffectedFile] yields [fileA], stores its
    diagnostics and commits it; [/src/a.ts] then has a non-empty cache entry
    while it still is in [changedFilesSet], which loses it only when the next
    call finds the batch exhausted. The check of line 74 refuses this very
    state when a new program reuses it. *)
Lemma cache_entry_of_a_changed_file :
  @createBuilderProgramState layer programAB true None = Normal freshAB
  /\ @getSemanticDiagnosticsOfNextAffectedFile layer compiler 1 freshAB None
     = Some (Normal (Some (["error in /src/a.ts"], AffectedFile fileA), committedA))
  /\ semanticDiagnosticsPerFile committedA
     = Some {["/src/a.ts" := ["error in /src/a.ts"]]}
  /\ "/src/a.ts" ∈ changedFilesSet committedA
  /\ @createBuilderProgramState layer programAB' true (Some committedA)
     = Throw (AssertionFailure
                (Some "Semantic diagnostics shouldnt be available for changed files")).
Proof.
  split; [apply freshAB_created|]. split; [vm_compute; reflexivity|].
  split; [reflexivity|]. split; [apply elem_of_cons; by left|].
  vm_compute. reflexivity.
Qed.

(** The cache also takes an entry for the file that is yielded and not
    yet committed, when the facade is asked for its diagnostics. *)
Example cache_entry_of_the_yielded_file :
  @getNextAffectedFile layer freshAB = Some (Normal (Some (AffectedFile fileA), yieldedA))
  /\ @getSemanticDiagnostics layer compiler SemanticDiagnosticsBuilderProgram 1 yieldedA
       (Some fileA) = Some (Normal (["error in /src/a.ts"], queriedA))
  /\ semanticDiagnosticsPerFile queriedA = Some {["/src/a.ts" := ["error in /src/a.ts"]]}
  /\ cursorOn queriedA fileA.
Proof.
  split; [apply freshAB_yields_fileA|]. split; [vm_compute; reflexivity|].
  split; [reflexivity|]. exists [fileA], 0, ∅. repeat split. apply not_elem_of_empty.
Qed.

(** ** Exhaustion (C4) *)

(** The iteration from the state of a first build. *)

Lemma exhaustion_witness :
  @reachable layer compiler freshAB None
  /\ exists fuel s',
       @handleAffectedFiles layer fuel freshAB = Some (Normal s')
       /\ changedFilesSet s' = [] /\ affectedFiles s' = None /\ noPendingSignatures s'.
Proof.
  split; [apply reachable_freshAB|].
  exact (@exhaustion layer compiler freshAB None reachable_freshAB).
Defined.

(** The iteration on [freshAB] takes three calls of [getNextAffectedFile]. *)
Example handleAffectedFiles_freshAB :
  exists s',
    @handleAffectedFiles layer 3 freshAB = Some (Normal s')
    /\ changedFilesSet s' = [] /\ affectedFiles s' = None
    /\ currentAffectedFilesSignatures s' = Some ∅
    /\ seenAffectedFiles s' = Some {["/src/a.ts"; "/src/b.ts"]}.
Proof. eexists. split; [vm_compute; reflexivity|]. repeat split. Qed.

(** ** Bundled output (C5) *)

(** The state of a first build with [outFile] set. *)
Lemma whole_program_collapse_witness :
  (@reachable layer compiler freshBundled None
   /\ bundledOutput (getCompilerOptions (program freshBundled)) = true)
  /\ (((exists s', @getNextAffectedFile layer freshBundled
                   = Some (Normal (Some AffectedProgram, s')))
       <-> changedFilesSet freshBundled <> [])
      /\ (changedFilesSet freshBundled <> [] ->
          @getNextAffectedFile layer freshBundled
          = Some (Normal (Some AffectedProgram, freshBundled)))
      /\ (changedFilesSet freshBundled = [] ->
          @getNextAffectedFile layer freshBundled = Some (Normal (None, freshBundled)))
      /\ exists s', doneWithAffectedFile freshBundled AffectedProgram = Normal s'
                    /\ changedFilesSet s' = []).
Proof.
  split; [split; [apply reachable_freshBundled|reflexivity]|].
  exact (@whole_program_collapse layer compiler freshBundled None
           reachable_freshBundled eq_refl).
Defined.

(** Scenario S5: the program is returned once, and after
    [doneWithAffectedFile] the iteration is over. *)
Example bundled_output_once :
  @getNextAffectedFile layer freshBundled
  = Some (Normal (Some AffectedProgram, freshBundled))
  /\ @getNextAffectedFile layer (set_changedFilesSet [] freshBundled)
     = Some (Normal (None, set_changedFilesSet [] freshBundled)).
Proof. split; vm_compute; reflexivity. Qed.

(** ** Commit ordering (C6) *)

(** In [queriedA] the batch of [/src/a.ts] is in progress and the signature
    of the file is pending; the call yields [fileA] and commits nothing. *)
Lemma commit_ordering_witness :
  (is_Some (affectedFiles queriedA) /\ batchExhausted queriedA = false
   /\ @getNextAffectedFile layer queriedA
      = Some (Normal (Some (AffectedFile fileA), yieldedA)))
  /\ ((exists f, Some (AffectedFile fileA) = Some (AffectedFile f))
      /\ fileInfos yieldedA = fileInfos queriedA
      /\ currentAffectedFilesSignatures yieldedA
         = currentAffectedFilesSignatures queriedA).
Proof.
  assert (H : @getNextAffectedFile layer queriedA
              = Some (Normal (Some (AffectedFile fileA), yieldedA)))
    by (vm_compute; reflexivity).
  assert (Ha : is_Some (affectedFiles queriedA)) by (eexists; reflexivity).
  assert (Hb : batchExhausted queriedA = false) by (vm_compute; reflexivity).
  split; [split; [exact Ha|split; [exact Hb|exact H]]|].
  destruct (@commit_ordering layer queriedA) as (_ & _ & Hyield).
  exact (Hyield _ _ Ha Hb H).
Defined.

(** In [committedA] the batch is exhausted; the next call commits the
    pending signature of [/src/a.ts] before it starts the batch of
    [/src/b.ts]. *)
Example signature_committed_when_the_batch_drains :
  batchExhausted committedA = true
  /\ currentAffectedFilesSignatures committedA = Some {["/src/a.ts" := "shape"]}
  /\ mapGet "/src/a.ts" (fileInfos committedA) = Some (mkFileInfo "1" None)
  /\ @getNextAffectedFile layer committedA
     = Some (Normal (Some (AffectedFile fileB), yieldedB))
  /\ mapGet "/src/a.ts" (fileInfos yieldedB) = Some (mkFileInfo "1" (Some "shape")).
Proof.
  split; [vm_compute; reflexivity|]. split; [reflexivity|]. split; [reflexivity|].
  split; [apply committedA_yields_fileB|reflexivity].
Qed.

(** ** The assertion of the facade (C7) *)

(** C7. The assertion does not guard the file that is yielded and not yet
    committed; it guards the file committed last.
    On a first build of [programAB], [fileA] is yielded and not yet committed
    in [yieldedA]: the assertion passes for it, [getSemanticDiagnostics]
    returns for it and caches its diagnostics, after which the assertion
    still passes, and [emit] of the emit builder emits it. Once
    [getSemanticDiagnosticsOfNextAffectedFile] has returned and committed
    [fileA], in [committedA], where no file is yielded, both calls throw for
    it. *)
Theorem assertion_guards_the_committed_file :
  (@getNextAffectedFile layer freshAB = Some (Normal (Some (AffectedFile fileA), yieldedA))
   /\ (path fileA ∉ seenPaths yieldedA)
   /\ assertSourceFileOkWithoutNextAffectedCall yieldedA (Some fileA) = Normal tt
   /\ @getSemanticDiagnostics layer compiler SemanticDiagnosticsBuilderProgram 1 yieldedA
        (Some fileA)
      = Some (Normal (["error in /src/a.ts"], queriedA))
   /\ cachedDiagnosticsOf (Some queriedA) (path fileA) = Some ["error in /src/a.ts"]
   /\ assertSourceFileOkWithoutNextAffectedCall queriedA (Some fileA) = Normal tt
   /\ @emit layer compiler EmitAndSemanticDiagnosticsBuilderProgram 1 yieldedA (Some fileA)
      = Some (Normal (@Program_emit compiler programAB (Some fileA), yieldedA)))
  /\ (@getSemanticDiagnosticsOfNextAffectedFile layer compiler 1 freshAB None
      = Some (Normal (Some (["error in /src/a.ts"], AffectedFile fileA), committedA))
      /\ path fileA ∈ seenPaths committedA
      /\ assertSourceFileOkWithoutNextAffectedCall committedA (Some fileA)
         = Throw (AssertionFailure None)
      /\ @getSemanticDiagnostics layer compiler SemanticDiagnosticsBuilderProgram 1
           committedA (Some fileA)
         = Some (Throw (AssertionFailure None))
      /\ @emit layer compiler EmitAndSemanticDiagnosticsBuilderProgram 1 committedA
           (Some fileA)
         = Some (Throw (AssertionFailure None))).
Proof.
  split.
  - split; [apply freshAB_yields_fileA|]. split; [apply not_elem_of_empty|].
    repeat split; vm_compute; reflexivity.
  - split; [vm_compute; reflexivity|].
    split; [unfold seenPaths; cbn; by apply elem_of_singleton|].
    repeat split; vm_compute; reflexivity.
Qed.

(** The assertion and the two calls of the facade on the file committed
    last. *)
Lemma assertion_on_file_before_cursor_witness :
  @reachable layer compiler committedA None
  /\ assertionFails committedA fileA
  /\ @getSemanticDiagnostics layer compiler SemanticDiagnosticsBuilderProgram 1
       committedA (Some fileA) = Some (Throw (AssertionFailure None))
  /\ @emit layer compiler EmitAndSemanticDiagnosticsBuilderProgram 1 committedA (Some fileA)
     = Some (Throw (AssertionFailure None)).
Proof.
  split; [apply reachable_committedA|].
  destruct (@assertion_on_file_before_cursor layer compiler
              SemanticDiagnosticsBuilderProgram 1 committedA None fileA
              reachable_committedA) as (Hiff & Hfail & _).
  assert (Hf : assertionFails committedA fileA).
  { apply Hiff. vm_compute. reflexivity. }
  split; [exact Hf|]. exact (Hfail Hf).
Defined.

(** ** The seen set (C8) *)

(** C8 as stated fails: in [yieldedB] the batch of [/src/b.ts] is in
    progress, and [/src/a.ts], seen in the batch before, is still in
    [seenAffectedFiles]. *)
Lemma seen_file_of_an_earlier_batch :
  @reachable layer compiler yieldedB (Some (AffectedFile fileB))
  /\ affectedFiles yieldedB = Some [fileB]
  /\ "/src/a.ts" ∈ seenPaths yieldedB
  /\ "/src/a.ts" ∉ path <$> [fileB].
Proof.
  split; [apply reachable_yieldedB|]. split; [reflexivity|]. split.
  - unfold seenPaths. cbn. by apply elem_of_singleton.
  - cbn. intros H. apply list_elem_of_singleton in H. discriminate H.
Qed.

(** Committing the yielded [fileA] adds its path. *)
Lemma seenAffectedFiles_growth_witness :
  @reachable layer compiler queriedA (Some (AffectedFile fileA))
  /\ exists s' files,
       doneWithAffectedFile queriedA (AffectedFile fileA) = Normal s'
       /\ seenPaths s' = {[path fileA]} ∪ seenPaths queriedA
       /\ affectedFiles queriedA = Some files /\ fileA ∈ files.
Proof.
  split; [apply reachable_queriedA|].
  destruct (@seenAffectedFiles_growth layer compiler queriedA (Some (AffectedFile fileA))
              reachable_queriedA) as (_ & _ & Hdone).
  exact (Hdone fileA eq_refl).
Defined.

(** ** The cursor of an exhausted batch (C9) *)

(** Where the two forms differ: in [seenTail] the cursor is on a seen file,
    the batch is exhausted, and the source leaves the cursor at [1] where the
    variant leaves it at [2]; [affectedFiles] is [undefined] in both. *)
Example writeBack_leaves_another_cursor :
  exists s1 s2,
    @getNextAffectedFile layer seenTail = Some (Normal (None, s1))
    /\ @getNextAffectedFile_writeBack layer seenTail = Some (Normal (None, s2))
    /\ affectedFilesIndex s1 = Some 1 /\ affectedFilesIndex s2 = Some 2
    /\ affectedFiles s1 = None /\ s2 = set_affectedFilesIndex (Some 2) s1.
Proof.
  eexists _, _. split; [vm_compute; reflexivity|]. split; [vm_compute; reflexivity|].
  repeat split.
Qed.

(** ** The same program again (C10) *)

(** [committedA] fails the checks of [createBuilderProgramState] when it is
    reused; with its own program as the new one, the builder program that
    holds it is returned all the same. *)
Lemma createBuilderProgram_same_program_witness :
  let store : gmap nat BaseBuilderProgram :=
    {[ 7 := mkBuilderProgram SemanticDiagnosticsBuilderProgram committedA ]} in
  (store !! 7 = Some (mkBuilderProgram SemanticDiagnosticsBuilderProgram committedA)
   /\ program committedA = programAB)
  /\ @createBuilderProgram layer store programAB (mkHost true) (Some 7)
       SemanticDiagnosticsBuilderProgram = Normal (7, store).
Proof.
  intros store. split; [split; reflexivity|].
  exact (@createBuilderProgram_same_program layer store programAB (mkHost true) 7
           SemanticDiagnosticsBuilderProgram
           (mkBuilderProgram SemanticDiagnosticsBuilderProgram committedA)
           eq_refl eq_refl).
Defined.

(** The checks that the call above has not run. *)
Example same_program_skips_the_checks :
  @createBuilderProgramState layer programAB true (Some committedA)
  = Throw (AssertionFailure
             (Some "Semantic diagnostics shouldnt be available for changed files")).
Proof. vm_compute. reflexivity. Qed.

(** A new program object goes through [createBuilderProgramState] and into
    a new builder program. *)
Example createBuilderProgram_new_program :
  exists state,
    @createBuilderProgram layer
      {[ 7 := mkBuilderProgram SemanticDiagnosticsBuilderProgram freshAB ]}
      programAB' (mkHost true) (Some 7) SemanticDiagnosticsBuilderProgram
    = Normal (8, <[8 := mkBuilderProgram SemanticDiagnosticsBuilderProgram state]>
                   {[ 7 := mkBuilderProgram SemanticDiagnosticsBuilderProgram freshAB ]})
    /\ program state = programAB' /\ changedFilesSet state = ["/src/a.ts"; "/src/b.ts"].
Proof. eexists. split; [vm_compute; reflexivity|]. split; reflexivity. Qed.

(** * Further examples *)

(** The runs behind the further example states. *)
Lemma yieldedB_committed :
  doneWithAffectedFile yieldedB (AffectedFile fileB) = Normal committedB.
Proof. vm_compute. reflexivity. Qed.

Lemma committedB_drained :
  @getNextAffectedFile layer committedB = Some (Normal (None, drainedAB)).
Proof. vm_compute. reflexivity. Qed.

Lemma freshAB_checked :
  @getSemanticDiagnostics layer compiler SemanticDiagnosticsBuilderProgram 3 freshAB None
  = Some (Normal (["error in /src/a.ts"; "error in /src/b.ts"], checkedAB)).
Proof. vm_compute. reflexivity. Qed.

Lemma checkedAB_edited :
  @createBuilderProgramState layer programA2B true (Some checkedAB) = Normal editedA.
Proof. vm_compute. reflexivity. Qed.

Lemma NoDup_freshAB : NoDup (fileInfos freshAB).*1.
Proof. apply (bool_decide_unpack _). vm_compute. exact I. Qed.

Lemma NoDup_editedA : NoDup (fileInfos editedA).*1.
Proof. apply (bool_decide_unpack _). vm_compute. exact I. Qed.

(** ** The calls return *)

(** Between the yield of [fileA] and its commit. *)
Lemma reachable_calls_return_witness :
  @reachable layer compiler yieldedA (Some (AffectedFile fileA))
  /\ ((exists result s', @getNextAffectedFile layer yieldedA = Some (Normal (result, s')))
      /\ (forall affected, Some (AffectedFile fileA) = Some affected ->
            exists s', doneWithAffectedFile yieldedA affected = Normal s')
      /\ (bundledOutput (getCompilerOptions (program yieldedA)) = false ->
          forall f, exists d s',
            @getSemanticDiagnosticsOfFile compiler yieldedA f = Normal (d, s'))).
Proof.
  split; [apply reachable_yieldedA|].
  exact (@reachable_calls_return layer compiler yieldedA (Some (AffectedFile fileA))
           reachable_yieldedA).
Defined.

(** The first file of a first build. *)
Lemma yielded_file_is_unseen_witness :
  @getNextAffectedFile layer freshAB = Some (Normal (Some (AffectedFile fileA), yieldedA))
  /\ ((path fileA ∉ seenPaths freshAB)
      /\ (exists files, affectedFiles yieldedA = Some files /\ fileA ∈ files)
      /\ forall s1 g s2,
           doneWithAffectedFile yieldedA (AffectedFile fileA) = Normal s1 ->
           @getNextAffectedFile layer s1 = Some (Normal (Some (AffectedFile g), s2)) ->
           path g <> path fileA).
Proof.
  split; [apply freshAB_yields_fileA|].
  exact (@yielded_file_is_unseen layer freshAB fileA yieldedA freshAB_yields_fileA).
Defined.

(** ** The new state *)

(** The first build of [programAB]. *)
Lemma first_build_changes_every_file_witness :
  (@createBuilderProgramState layer programAB true None = Normal freshAB
   /\ @BuilderState_canReuseOldState layer (referencedMap freshAB) (toBuilderState <$> None)
      = false
   /\ NoDup (fileInfos freshAB).*1)
  /\ (changedFilesSet freshAB = (fileInfos freshAB).*1
      /\ semanticDiagnosticsPerFile freshAB
         = if bundledOutput (getCompilerOptions programAB) then None else Some ∅).
Proof.
  split; [split; [apply freshAB_created|split; [reflexivity|apply NoDup_freshAB]]|].
  exact (@first_build_changes_every_file layer programAB true None freshAB
           freshAB_created eq_refl NoDup_freshAB).
Defined.

(** The edited file of [editedA] has lost its diagnostics. *)
Lemma new_state_cache_is_pure_witness :
  (@createBuilderProgramState layer programA2B true (Some checkedAB) = Normal editedA
   /\ NoDup (fileInfos editedA).*1
   /\ "/src/a.ts" ∈ changedFilesSet editedA)
  /\ ~ hasDiagnostics editedA "/src/a.ts".
Proof.
  assert (Hin : "/src/a.ts" ∈ changedFilesSet editedA) by apply list_elem_of_here.
  split; [split; [apply checkedAB_edited|split; [apply NoDup_editedA|exact Hin]]|].
  exact (@new_state_cache_is_pure layer programA2B true (Some checkedAB) editedA
           "/src/a.ts" checkedAB_edited NoDup_editedA Hin).
Defined.

(** The file of [editedA] that was not edited has kept its diagnostics. *)
Lemma diagnostics_carried_over_witness :
  @createBuilderProgramState layer programA2B true (Some checkedAB) = Normal editedA
  /\ ((exists cache, semanticDiagnosticsPerFile editedA = Some cache
                     /\ cache !! "/src/b.ts" = Some ["error in /src/b.ts"])
      <-> exists old info,
            Some checkedAB = Some old
            /\ @BuilderState_canReuseOldState layer (referencedMap editedA)
                 (toBuilderState <$> Some checkedAB) = true
            /\ bundledOutput (getCompilerOptions programA2B) = false
            /\ cachedDiagnosticsOf (Some old) "/src/b.ts" = Some ["error in /src/b.ts"]
            /\ ("/src/b.ts", info) ∈ fileInfos editedA
            /\ ~ changedSinceOldState true (Some checkedAB) (fileInfos editedA)
                   (referencedMap editedA) "/src/b.ts" info).
Proof.
  split; [apply checkedAB_edited|].
  exact (@diagnostics_carried_over layer programA2B true (Some checkedAB) editedA
           "/src/b.ts" ["error in /src/b.ts"] checkedAB_edited).
Defined.

(** ** The end of the iteration *)

(** The call that drains the last batch of [programAB]. *)
Lemma iteration_stays_complete_witness :
  @getNextAffectedFile layer committedB = Some (Normal (None, drainedAB))
  /\ (changedFilesSet drainedAB = [] /\ affectedFiles drainedAB = None
      /\ @getNextAffectedFile layer drainedAB = Some (Normal (None, drainedAB))).
Proof.
  split; [apply committedB_drained|].
  exact (@iteration_stays_complete layer committedB drainedAB committedB_drained).
Defined.

(** ** Diagnostics *)

(** The diagnostics of the yielded [fileA]. *)
Lemma getSemanticDiagnosticsOfFile_caches_witness :
  @getSemanticDiagnosticsOfFile compiler yieldedA fileA
  = Normal (["error in /src/a.ts"], queriedA)
  /\ (@getSemanticDiagnosticsOfFile compiler queriedA fileA
      = Normal (["error in /src/a.ts"], queriedA)
      /\ cachedDiagnosticsOf (Some queriedA) (path fileA) = Some ["error in /src/a.ts"]
      /\ (forall p, p <> path fileA ->
            cachedDiagnosticsOf (Some queriedA) p = cachedDiagnosticsOf (Some yieldedA) p)
      /\ ["error in /src/a.ts"]
         = @Program_getSemanticDiagnostics compiler (program yieldedA) (Some fileA)).
Proof.
  split; [apply yieldedA_queried|].
  exact (@getSemanticDiagnosticsOfFile_caches compiler yieldedA fileA
           ["error in /src/a.ts"] queriedA yieldedA_queried).
Defined.

(** The first call on a first build returns the diagnostics of [fileA]. *)
Lemma getSemanticDiagnosticsOfNextAffectedFile_result_witness :
  @getSemanticDiagnosticsOfNextAffectedFile layer compiler 1 freshAB None
  = Some (Normal (Some (["error in /src/a.ts"], AffectedFile fileA), committedA))
  /\ ((forall ignore : SourceFile -> bool, None = Some ignore -> ignore fileA = false)
      /\ ["error in /src/a.ts"]
         = @Program_getSemanticDiagnostics compiler (program freshAB) (Some fileA)
      /\ cachedDiagnosticsOf (Some committedA) (path fileA) = Some ["error in /src/a.ts"]
      /\ path fileA ∈ seenPaths committedA).
Proof.
  assert (H : @getSemanticDiagnosticsOfNextAffectedFile layer compiler 1 freshAB None
              = Some (Normal (Some (["error in /src/a.ts"], AffectedFile fileA),
                              committedA)))
    by (vm_compute; reflexivity).
  split; [exact H|].
  exact (@getSemanticDiagnosticsOfNextAffectedFile_result layer compiler 1 freshAB None
           (Some (["error in /src/a.ts"], AffectedFile fileA)) committedA H).
Defined.

(** A first build, with a predicate that ignores every file. *)
Lemma getSemanticDiagnosticsOfNextAffectedFile_terminates_witness :
  @reachable layer compiler freshAB None
  /\ exists fuel result s',
       @getSemanticDiagnosticsOfNextAffectedFile layer compiler fuel freshAB
         (Some (fun _ => true))
       = Some (Normal (result, s')).
Proof.
  split; [apply reachable_freshAB|].
  exact (@getSemanticDiagnosticsOfNextAffectedFile_terminates layer compiler
           (Some (fun _ => true)) freshAB None reachable_freshAB).
Defined.

(** The diagnostics of [programAB], asked for a second time. *)
Lemma getSemanticDiagnostics_again_witness :
  @getSemanticDiagnostics layer compiler SemanticDiagnosticsBuilderProgram 3 freshAB None
  = Some (Normal (["error in /src/a.ts"; "error in /src/b.ts"], checkedAB))
  /\ @getSemanticDiagnostics layer compiler SemanticDiagnosticsBuilderProgram 1 checkedAB None
     = Some (Normal (["error in /src/a.ts"; "error in /src/b.ts"], checkedAB)).
Proof.
  split; [apply freshAB_checked|].
  exact (@getSemanticDiagnostics_again layer compiler SemanticDiagnosticsBuilderProgram 3
           freshAB ["error in /src/a.ts"; "error in /src/b.ts"] checkedAB 0
           freshAB_checked).
Defined.

(** The diagnostics of [programAB] are those of its two files. *)
Lemma getSemanticDiagnostics_of_program_witness :
  (bundledOutput (getCompilerOptions (program freshAB)) = false
   /\ @getSemanticDiagnostics layer compiler SemanticDiagnosticsBuilderProgram 3 freshAB None
      = Some (Normal (["error in /src/a.ts"; "error in /src/b.ts"], checkedAB)))
  /\ ((forall f, f ∈ getSourceFiles (program freshAB) ->
                 is_Some (cachedDiagnosticsOf (Some checkedAB) (path f)))
      /\ ["error in /src/a.ts"; "error in /src/b.ts"]
         = concat ((fun f => default [] (cachedDiagnosticsOf (Some checkedAB) (path f)))
                     <$> getSourceFiles (program freshAB))
      /\ exhausted checkedAB).
Proof.
  split; [split; [reflexivity|apply freshAB_checked]|].
  exact (@getSemanticDiagnostics_of_program layer compiler
           SemanticDiagnosticsBuilderProgram 3 freshAB
           ["error in /src/a.ts"; "error in /src/b.ts"] checkedAB eq_refl freshAB_checked).
Defined.

(** ** Bundled output *)

(** The diagnostics of one file of a bundled program. *)
Lemma getSemanticDiagnostics_bundled_witness :
  (@reachable layer compiler freshBundled None
   /\ bundledOutput (getCompilerOptions (program freshBundled)) = true)
  /\ @getSemanticDiagnostics layer compiler SemanticDiagnosticsBuilderProgram 0 freshBundled
       (Some fileA)
     = Some (Normal (@Program_getSemanticDiagnostics compiler (program freshBundled)
                       (Some fileA), freshBundled)).
Proof.
  split; [split; [apply reachable_freshBundled|reflexivity]|].
  exact (@getSemanticDiagnostics_bundled layer compiler SemanticDiagnosticsBuilderProgram 0
           freshBundled None (Some fileA) reachable_freshBundled eq_refl).
Defined.

(** The first [emit] of a bundled program. *)
Lemma emit_bundled_witness :
  (@reachable layer compiler freshBundled None
   /\ bundledOutput (getCompilerOptions (program freshBundled)) = true
   /\ changedFilesSet freshBundled <> [])
  /\ @emit layer compiler EmitAndSemanticDiagnosticsBuilderProgram 2 freshBundled None
     = Some (Normal (emittedOnce (@Program_emit compiler (program freshBundled) None),
                     set_changedFilesSet [] freshBundled)).
Proof.
  assert (Hc : changedFilesSet freshBundled <> []) by discriminate.
  split; [split; [apply reachable_freshBundled|split; [reflexivity|exact Hc]]|].
  exact (@emit_bundled layer compiler 0 freshBundled None reachable_freshBundled
           eq_refl Hc).
Defined.

(** ** Emit *)

(** A first build of [programAB], emitted. *)
Lemma emit_completes_the_iteration_witness :
  @reachable layer compiler freshAB None
  /\ exists fuel result s',
       @emit layer compiler EmitAndSemanticDiagnosticsBuilderProgram fuel freshAB None
       = Some (Normal (result, s'))
       /\ changedFilesSet s' = [] /\ affectedFiles s' = None.
Proof.
  split; [apply reachable_freshAB|].
  exact (@emit_completes_the_iteration layer compiler freshAB None reachable_freshAB).
Defined.

(** [emit] after the build of [programAB] is complete. *)
Lemma emit_nothing_left_witness :
  exhausted checkedAB
  /\ @emit layer compiler EmitAndSemanticDiagnosticsBuilderProgram 1 checkedAB None
     = Some (Normal (mkEmitResult None [] [] [], checkedAB)).
Proof.
  assert (Hex : exhausted checkedAB) by (split; reflexivity).
  split; [exact Hex|].
  exact (@emit_nothing_left layer compiler 0 checkedAB Hex).
Defined.

(** ** The store *)

(** A builder for [programAB'] beside the one of [programAB]. *)
Lemma createBuilderProgram_store_witness :
  let store : gmap nat BaseBuilderProgram :=
    {[ 7 := mkBuilderProgram SemanticDiagnosticsBuilderProgram freshAB ]} in
  let state :=
    set_changedFilesSet ["/src/a.ts"; "/src/b.ts"]
      (mkState (fileInfos freshAB) (Some ∅) (Some ∅) [] None None None None None
         programAB') in
  let store' := <[8 := mkBuilderProgram EmitAndSemanticDiagnosticsBuilderProgram state]> store in
  @createBuilderProgram layer store programAB' (mkHost true) (Some 7)
    EmitAndSemanticDiagnosticsBuilderProgram = Normal (8, store')
  /\ ((forall other, other <> 8 -> store' !! other = store !! other)
      /\ (exists builder, store' !! 8 = Some builder
                          /\ program (getState builder) = programAB')
      /\ ((Some 7 = Some 8 /\ store' = store)
          \/ (store !! 8 = None
              /\ exists state0,
                   @createBuilderProgramState layer programAB'
                     (useCaseSensitiveFileNames (mkHost true)) (oldStateOf store (Some 7))
                   = Normal state0
                   /\ store' !! 8
                      = Some (mkBuilderProgram EmitAndSemanticDiagnosticsBuilderProgram
                                state0)))).
Proof.
  intros store state store'.
  assert (H : @createBuilderProgram layer store programAB' (mkHost true) (Some 7)
                EmitAndSemanticDiagnosticsBuilderProgram = Normal (8, store'))
    by (vm_compute; reflexivity).
  split; [exact H|].
  exact (@createBuilderProgram_store layer store programAB' (mkHost true) (Some 7)
           EmitAndSemanticDiagnosticsBuilderProgram 8 store' H).
Defined.
